(** * Power Voting REG dashboard: the data store and the address tracker

    A shallow embedding of [src/stores/dataStore.ts] (the Pinia store that
    derives statistics, distribution bins, pool aggregates and the
    pool/power correlation from the two uploaded datasets) and of the
    address search of the analysis view ([analyzePoolPositions],
    [searchAddressAcrossSnapshots]).

    JavaScript numbers are IEEE-754 binary64 values: they are modelled by
    Rocq's primitive floats, whose operations are the same binary64
    operations with round-to-nearest-even.  Objects used as dictionaries are
    association lists in [Object.entries] order, arrays are lists.  An
    object that the code itself creates and fills is read with the
    properties it inherits from [Object.prototype].  A [ref] and a
    [computed] of Vue are read as the value they hold. *)

From Stdlib Require Import ZArith List String Ascii Bool Lia Floats.
From Stdlib Require Import Permutation Sorted.
Import ListNotations.

Set Implicit Arguments.
Open Scope string_scope.
Open Scope list_scope.

(** [length] is the length of an array throughout. *)
Abbreviation length := List.length (only parsing).

(* ================================================================== *)
(** * Part I: the embedding *)
(* ================================================================== *)

(** ** JavaScript values that reach the store *)

(** The fields the store reads are typed [string | number] or [any]; a
    field that is missing reads as [undefined]. *)
Inductive value : Type :=
  | VUndefined
  | VNull
  | VBool (b : bool)
  | VNum (f : float)
  | VStr (s : string).

Module Js.

Local Open Scope float_scope.

(** [ToBoolean]: [undefined], [null], [false], [0], [-0], [NaN] and the
    empty string are falsy. *)
Definition truthy (v : value) : bool :=
  match v with
  | VUndefined | VNull => false
  | VBool b => b
  | VNum f => negb (is_zero f || is_nan f)
  | VStr s => negb (String.eqb s EmptyString)
  end.

(** [a || b] *)
Definition or (a b : value) : value := if truthy a then a else b.

(** [x !== undefined] *)
Definition defined (v : value) : bool :=
  match v with VUndefined => false | _ => true end.

(** The equality of the elements of a [Set]: [NaN] is equal to itself
    and [+0] to [-0]; [null] and [undefined] are two values. *)
Definition sameValueZero (a b : value) : bool :=
  match a, b with
  | VUndefined, VUndefined => true
  | VNull, VNull => true
  | VBool x, VBool y => Bool.eqb x y
  | VNum x, VNum y => (x =? y) || (is_nan x && is_nan y)
  | VStr x, VStr y => String.eqb x y
  | _, _ => false
  end.

Definition isNaN (x : float) : bool := is_nan x.

(** [Math.max(x, y)]: NaN if either argument is NaN, and [+0] is larger
    than [-0]. *)
Definition Math_max (x y : float) : float :=
  if is_nan x || is_nan y then nan
  else if x <? y then y
  else if y <? x then x
  else if get_sign x then y else x.

(** [Math.min(x, y)]: NaN if either argument is NaN, and [-0] is smaller
    than [+0]. *)
Definition Math_min (x y : float) : float :=
  if is_nan x || is_nan y then nan
  else if x <? y then x
  else if y <? x then y
  else if get_sign x then x else y.

(** [Math.pow(x, 2)], which the engines compute as [x * x]. *)
Definition Math_pow2 (x : float) : float := x * x.

Definition Math_sqrt (x : float) : float := sqrt x.

(** An array length as a number. *)
Definition of_length (n : nat) : float :=
  of_uint63 (Uint63.of_Z (Z.of_nat n)).

(** *** [parseFloat] on strings *)

(** White space skipped by [parseFloat] (the 8-bit characters among
    [StrWhiteSpaceChar]). *)
Definition is_space (c : ascii) : bool :=
  match nat_of_ascii c with
  | 9 | 10 | 11 | 12 | 13 | 32 | 160 => true
  | _ => false
  end.

Fixpoint skip_space (s : string) : string :=
  match s with
  | String c s' => if is_space c then skip_space s' else s
  | EmptyString => s
  end.

Definition digit_of (c : ascii) : option Z :=
  let n := nat_of_ascii c in
  if (48 <=? n)%nat && (n <=? 57)%nat then Some (Z.of_nat (n - 48)) else None.

(** The longest run of decimal digits at the head of [s]: its value
    continued from [acc], the number of digits read, and the rest. *)
Fixpoint digits (s : string) (acc : Z) (n : Z) : Z * Z * string :=
  match s with
  | String c s' =>
      match digit_of c with
      | Some d => digits s' (10 * acc + d)%Z (n + 1)%Z
      | None => (acc, n, s)
      end
  | EmptyString => (acc, n, s)
  end.

(** The [ExponentPart] at the head of [s], 0 when there is none (an [e]
    that no digit follows is not part of the literal). *)
Definition exponent (s : string) : Z :=
  match s with
  | String c s' =>
      if Ascii.eqb c "e" || Ascii.eqb c "E" then
        match s' with
        | String "-" s'' =>
            let '(e, n, _) := digits s'' 0%Z 0%Z in
            if (0 <? n)%Z then (- e)%Z else 0%Z
        | String "+" s'' =>
            let '(e, n, _) := digits s'' 0%Z 0%Z in
            if (0 <? n)%Z then e else 0%Z
        | _ =>
            let '(e, n, _) := digits s' 0%Z 0%Z in
            if (0 <? n)%Z then e else 0%Z
        end
      else 0%Z
  | EmptyString => 0%Z
  end.

(** The binary64 value nearest to [m * 10^e] (ties to even), [m >= 0]. *)
Definition decimal (neg : bool) (m e : Z) : float :=
  match m with
  | Zpos p =>
      SF2Prim
        (if (0 <=? e)%Z
         then binary_normalize prec emax (cond_Zopp neg (Zpos p * 10 ^ e)) 0 false
         else SFdiv prec emax (S754_finite neg p 0)
                (S754_finite false (Z.to_pos (10 ^ (- e))) 0))
  | _ => if neg then neg_zero else zero
  end.

(** [StrUnsignedDecimalLiteral]: the longest prefix of [s] that is one. *)
Definition unsigned_literal (neg : bool) (s : string) : float :=
  if prefix "Infinity" s then (if neg then neg_infinity else infinity)
  else
    let '(ip, ni, s1) := digits s 0%Z 0%Z in
    match s1 with
    | String "." s2 =>
        let '(m, nf, s3) := digits s2 ip 0%Z in
        if (0 <? ni + nf)%Z then decimal neg m (exponent s3 - nf) else nan
    | _ => if (0 <? ni)%Z then decimal neg ip (exponent s1) else nan
    end.

Definition parseFloat (s : string) : float :=
  match skip_space s with
  | String "-" s' => unsigned_literal true s'
  | String "+" s' => unsigned_literal false s'
  | s' => unsigned_literal false s'
  end.

(** [parseFloat(String(v))] and [parseFloat(v)] (which applies [ToString]
    itself).  [String] of a number prints the shortest decimal that reads
    back as the same number, so a number goes through unchanged, but for
    [-0], printed ["0"]; ["undefined"], ["null"], ["true"] and ["false"]
    do not start with a decimal literal. *)
Definition parseFloat_String (v : value) : float :=
  match v with
  | VStr s => parseFloat s
  | VNum f => if is_zero f then zero else f
  | VBool _ | VUndefined | VNull => nan
  end.

(** [s.toLowerCase()] on 8-bit strings. *)
Definition lower (c : ascii) : ascii :=
  let n := nat_of_ascii c in
  if (65 <=? n)%nat && (n <=? 90)%nat then ascii_of_nat (n + 32) else c.

Fixpoint toLowerCase (s : string) : string :=
  match s with
  | String c s' => String (lower c) (toLowerCase s')
  | EmptyString => EmptyString
  end.

(** [s.trim()] *)
Fixpoint rev_string (s acc : string) : string :=
  match s with
  | String c s' => rev_string s' (String c acc)
  | EmptyString => acc
  end.

Definition trim (s : string) : string :=
  rev_string (skip_space (rev_string (skip_space s) EmptyString)) EmptyString.

(** An index argument of [substring], brought into the string: below 0
    it is 0, beyond the length it is the length. *)
Definition clamp (n : Z) (len : nat) : nat :=
  Z.to_nat (Z.min (Z.max n 0) (Z.of_nat len)).

(** [s.substring(start, end)]: the two indices are clamped, and swapped
    when the first is the larger. *)
Definition substring (s : string) (start finish : Z) : string :=
  let a := clamp start (String.length s) in
  let b := clamp finish (String.length s) in
  String.substring (Nat.min a b) (Nat.max a b - Nat.min a b) s.

(** [s.substring(start)], up to the end of the string. *)
Definition substring_from (s : string) (start : Z) : string :=
  substring s start (Z.of_nat (String.length s)).

(** [s.startsWith(p)] and [s.endsWith(p)] *)
Definition startsWith (s p : string) : bool := String.prefix p s.

Definition endsWith (s p : string) : bool :=
  (String.length p <=? String.length s)%nat
  && String.eqb (String.substring (String.length s - String.length p) (String.length p) s) p.

(** [Math.round(x)]: the integer nearest to [x], a tie going up; NaN,
    the infinities and the zeros are returned as they are, and a
    negative number that rounds to zero gives [-0].  A binary64 number
    with a fraction is below [2^52] in size, so the integer is
    representable. *)
Definition Math_round (x : float) : float :=
  match Prim2SF x with
  | S754_finite s m e =>
      if (0 <=? e)%Z then x
      else
        match ((2 * cond_Zopp s (Zpos m) + 2 ^ (- e)) / 2 ^ (1 - e))%Z with
        | Z0 => if s then neg_zero else zero
        | n => SF2Prim (binary_normalize prec emax n 0 false)
        end
  | _ => x
  end.

End Js.


(** ** The order of the binary64 values *)

Module Binary64.

Local Open Scope Z_scope.

(** The value of a binary64 datum in units of the least subnormal, the
    infinities beyond every finite value. *)
Definition scaled (x : spec_float) : Z :=
  match x with
  | S754_zero _ => 0
  | S754_finite s m e => cond_Zopp s (Zpos m * 2 ^ (e - emin))
  | S754_infinity s => cond_Zopp s (2 ^ (emax - emin))
  | S754_nan => 0
  end.

Definition is_nan_sf (x : spec_float) : bool :=
  match x with S754_nan => true | _ => false end.

(** A datum with the sign [s] that is neither zero nor NaN. *)
Definition signed (s : bool) (x : spec_float) : Prop :=
  match x with
  | S754_finite s' _ _ | S754_infinity s' => s' = s
  | _ => False
  end.

Definition SFone : spec_float := S754_finite false 4503599627370496 (-52).

(** The place of a number in the order of the binary64 values. *)
Definition key (x : float) : Z := scaled (Prim2SF x).

End Binary64.

(** ** Arrays, sets, maps and dictionaries *)

Section Containers.

Variable A : Type.

(** [Array.prototype.sort(comparefn)].  ECMAScript asks for a stable
    sort and treats a NaN result of the comparator as [+0]; with a
    consistent comparator the outcome is the one stable ordering.  It is
    computed here by insertion, the elements taken in turn and each moved
    in front of the elements that have to come after it; [sort_insert]
    works on the sorted part in reverse, its last element first.  When
    the comparator is not consistent (it answers NaN against some
    element) ECMAScript leaves the order to the engine, and the order
    computed here is one of those an engine may give. *)
Fixpoint sort_insert (comparefn : A -> A -> float) (x : A) (sorted : list A) : list A :=
  match sorted with
  | [] => [x]
  | y :: rest =>
      if (0 <? comparefn y x)%float then y :: sort_insert comparefn x rest
      else x :: y :: rest
  end.

Definition Array_sort (comparefn : A -> A -> float) (l : list A) : list A :=
  rev (fold_left (fun sorted x => sort_insert comparefn x sorted) l []).

(** [Array.prototype.find] *)
Definition Array_find (f : A -> bool) (l : list A) : option A := List.find f l.

(** [arr[i] ?? d] *)
Definition Array_at (l : list A) (i : nat) (d : A) : A := nth i l d.

Variable eqb : A -> A -> bool.

(** A [Set] in insertion order; [Set.prototype.add] keeps one copy. *)
Definition Set_add (x : A) (s : list A) : list A :=
  if existsb (eqb x) s then s else s ++ [x].

Definition Set_of (l : list A) : list A :=
  fold_left (fun s x => Set_add x s) l [].

Definition Set_size (s : list A) : nat := List.length s.

End Containers.

(** A dictionary with string keys (a [Map] keyed by strings, the
    properties that an object owns), in the order [Object.entries] lists
    it. *)
Definition Dict (T : Type) : Type := list (string * T).

Section Dictionaries.

Variable T : Type.

(** [map.get(k)], and the property [k] that an object owns: [None] when
    there is none.  It is [d[k]] for a key that no object inherits. *)
Fixpoint Dict_get (k : string) (d : Dict T) : option T :=
  match d with
  | [] => None
  | (k', v) :: d' => if String.eqb k k' then Some v else Dict_get k d'
  end.

(** [map.set(k, v)], and the update of a property that an object owns:
    an existing key keeps its place. *)
Fixpoint Dict_set (k : string) (v : T) (d : Dict T) : Dict T :=
  match d with
  | [] => [(k, v)]
  | (k', v') :: d' =>
      if String.eqb k k' then (k, v) :: d' else (k', v') :: Dict_set k v d'
  end.

(** [new Map(entries)] *)
Definition Map_of (entries : list (string * T)) : Dict T :=
  fold_left (fun m kv => Dict_set (fst kv) (snd kv) m) entries [].

End Dictionaries.

(** ** Plain objects

    An object that the code creates with [{}] and fills by assignment,
    [o[k] = v], is the list of its own properties in the order
    [Object.keys] lists them: the keys that are array indices in ascending
    order, then the other keys in the order of their creation.  It
    inherits the properties of [Object.prototype], which a read of a key
    the object does not own finds. *)

(** The string-keyed properties of [Object.prototype]. *)
Definition Object_prototype : list string :=
  [ "constructor"; "__defineGetter__"; "__defineSetter__"; "hasOwnProperty";
    "__lookupGetter__"; "__lookupSetter__"; "isPrototypeOf"; "propertyIsEnumerable";
    "toString"; "valueOf"; "__proto__"; "toLocaleString" ].

Definition Object_inherits (k : string) : bool :=
  existsb (String.eqb k) Object_prototype.

(** An array index: the decimal form, without a leading zero, of an
    integer below [2^32 - 1]. *)
Definition arrayIndex (k : string) : option Z :=
  match k with
  | EmptyString => None
  | String c rest =>
      let '(n, _, tail) := Js.digits k 0%Z 0%Z in
      if String.eqb tail EmptyString
         && (negb (Ascii.eqb c "0") || String.eqb rest EmptyString)
         && (n <? 4294967295)%Z
      then Some n
      else None
  end.

(** What [o[k]] finds: a property of the object itself, a property of
    [Object.prototype] (a function, or for [__proto__] the prototype
    itself: an object in both cases, hence truthy), or nothing
    ([undefined]). *)
Inductive Property (T : Type) : Type :=
  | Own (v : T)
  | Inherited
  | Missing.

Arguments Own {T} v.
Arguments Inherited {T}.
Arguments Missing {T}.

Section Objects.

Variable T : Type.

(** [o[k]] *)
Definition Object_get (k : string) (o : Dict T) : Property T :=
  match Dict_get k o with
  | Some v => Own v
  | None => if Object_inherits k then Inherited else Missing
  end.

(** The place of a new property whose key is the array index [i]: behind
    the array indices below [i]. *)
Fixpoint Object_place (i : Z) (k : string) (v : T) (o : Dict T) : Dict T :=
  match o with
  | [] => [(k, v)]
  | (k', v') :: o' =>
      match arrayIndex k' with
      | Some j =>
          if (j <? i)%Z then (k', v') :: Object_place i k v o' else (k, v) :: o
      | None => (k, v) :: o
      end
  end.

(** [o[k] = v] for a [v] that is not an object.  A property the object
    owns is updated where it is.  Otherwise the assignment meets the
    inherited property, if any: [__proto__] is an accessor whose setter
    ignores a value that is not an object, and nothing is created; the
    others are writable, and the property is created on the object as for
    a key that nothing defines. *)
Definition Object_set (k : string) (v : T) (o : Dict T) : Dict T :=
  match Dict_get k o with
  | Some _ => Dict_set k v o
  | None =>
      if String.eqb k "__proto__" then o
      else
        match arrayIndex k with
        | Some i => Object_place i k v o
        | None => o ++ [(k, v)]
        end
  end.

(** [Object.keys(o)] *)
Definition Object_keys (o : Dict T) : list string := map fst o.

End Objects.

(** ** What [+] gives

    An entry of [dexs] is typed [number], and is one as long as [+] adds
    numbers.  When [stats.dexs[dexName]] finds an inherited property, [+]
    joins texts instead: the text of that property ([String] of a native
    function, ["[object Object]"] for the prototype) and the decimal
    forms of the numbers.  A text is kept as its pieces, in order; each
    piece is a text that is not empty. *)
Inductive Piece : Type :=
  | Source (property : string)
  | Numeral (f : float).

Inductive Amount : Type :=
  | Number (f : float)
  | Text (pieces : list Piece).

Definition piecesOf (a : Amount) : list Piece :=
  match a with
  | Number f => [Numeral f]
  | Text pieces => pieces
  end.

(** [a + b] *)
Definition plus (a b : Amount) : Amount :=
  match a, b with
  | Number x, Number y => Number (x + y)
  | _, _ => Text (piecesOf a ++ piecesOf b)
  end.

(** ** The input records *)

(** [interface PoolPosition] *)
Module PoolPosition.
Record t : Type := make {
  tokenBalance : value;
  tokenSymbol : value;
  equivalentREG : value;
  poolAddress : value;
  tickLower : value;
  tickUpper : value;
  currentTick : value;
  isActive : value
}.
End PoolPosition.

(** A network entry of [sourceBalance]: [networkValue?.dexs] is [None] when
    the entry is null or has no [dexs]; under a DEX name the value is an
    array of positions ([Some]) or anything else ([None]). *)
Module NetworkValue.
Record t : Type := make {
  dexs : option (Dict (option (list PoolPosition.t)))
}.
End NetworkValue.

(** [interface BalanceData] *)
Module BalanceData.
Record t : Type := make {
  walletAddress : string;
  type : string;
  totalBalanceREG : value;
  totalBalance : value;
  sourceBalance : option (Dict NetworkValue.t)
}.
End BalanceData.

(** [interface PowerVotingData]; the code guards against a missing
    address. *)
Module PowerVotingData.
Record t : Type := make {
  address : option string;
  powerVoting : value
}.
End PowerVotingData.

(** An uploaded or fetched JSON document: a bare array of rows, an object
    whose [result] carries the rows under the dataset's key ([None] when
    the key is missing or does not hold an array), or [null]. *)
Inductive Document (A : Type) : Type :=
  | DocArray (rows : list A)
  | DocResult (rows : option (list A))
  | DocNull.

Arguments DocArray {A} rows.
Arguments DocResult {A} rows.
Arguments DocNull {A}.

(** ** The derived records *)

Module Stats.
Record t : Type := make {
  count : nat;
  total : float;
  mean : float;
  median : float;
  min : float;
  max : float;
  stdDev : float
}.
End Stats.

Module Bin.
Record t : Type := make {
  label : string;
  min : float;
  max : float;
  count : nat
}.
End Bin.

Module Holder.
Record t : Type := make {
  address : string;
  balance : float
}.
End Holder.

(** An element of [topPowerVoters]; the address of a row may be missing. *)
Module Voter.
Record t : Type := make {
  address : option string;
  power : float
}.
End Voter.

(** [interface PoolStats] *)
Module PoolStats.
Record t : Type := make {
  totalREG : float;
  count : nat;
  dexs : Dict Amount
}.
End PoolStats.

(** The result of [poolAnalysis]; [pools] is the set whose size is
    reported as [totalPools]. *)
Module PoolAnalysis.
Record t : Type := make {
  v2 : PoolStats.t;
  v3 : PoolStats.t;
  pools : list value
}.
Definition totalPools (a : t) : nat := Set_size (pools a).
End PoolAnalysis.

Inductive PoolType : Type := v2 | v3.

(** [interface AddressPoolPosition]: the raw position ([...pos]) and the
    four fields added to it. *)
Module AddressPoolPosition.
Record t : Type := make {
  pos : PoolPosition.t;
  dex : string;
  network : string;
  poolType : PoolType;
  regAmount : float
}.
End AddressPoolPosition.

(** [interface AddressPoolProfile] *)
Module AddressPoolProfile.
Record t : Type := make {
  address : string;
  walletREG : float;
  poolLiquidityREG : float;
  positions : list AddressPoolPosition.t;
  poolCount : nat;
  dexCount : nat
}.
End AddressPoolProfile.

(** [interface PoolPowerCorrelation]: the profile ([...profile]) and the
    five fields added to it. *)
Module PoolPowerCorrelation.
Record t : Type := make {
  profile : AddressPoolProfile.t;
  powerVoting : float;
  walletDirectREG : float;
  walletVotingShare : float;
  poolVotingShare : float;
  boostMultiplier : float
}.
Definition poolLiquidityREG (c : t) : float :=
  AddressPoolProfile.poolLiquidityREG (profile c).
Definition address (c : t) : string := AddressPoolProfile.address (profile c).
End PoolPowerCorrelation.

(** ** The store: [useDataStore] *)

Module Store.

Local Open Scope float_scope.

(** [balances] and [powerVoting]: the rows of the uploaded document,
    bare or under [result]; anything else gives no rows. *)
Definition rows (A : Type) (raw : Document A) : list A :=
  match raw with
  | DocArray l => l
  | DocResult (Some l) => l
  | DocResult None => []
  | DocNull => []
  end.

(** [parseFloat(String(b.totalBalanceREG || b.totalBalance || 0))] *)
Definition balanceAmount (b : BalanceData.t) : float :=
  Js.parseFloat_String
    (Js.or (Js.or (BalanceData.totalBalanceREG b) (BalanceData.totalBalance b))
           (VNum 0)).

(** [parseFloat(String(p.powerVoting || 0))] *)
Definition powerAmount (p : PowerVotingData.t) : float :=
  Js.parseFloat_String (Js.or (PowerVotingData.powerVoting p) (VNum 0)).

(** *** Statistics *)

Definition balanceValues (balances : list BalanceData.t) : list float :=
  filter (fun v => negb (Js.isNaN v)) (map balanceAmount balances).

Definition powerVotingValues (powerVoting : list PowerVotingData.t) : list float :=
  filter (fun v => negb (Js.isNaN v)) (map powerAmount powerVoting).

Definition total (values : list float) : float :=
  fold_left (fun sum val => sum + val) values 0.

Definition mean (values : list float) : float :=
  total values / Js.of_length (length values).

Definition median (values : list float) : float :=
  let sorted := Array_sort (fun a b => a - b) values in
  let n := length sorted in
  if Nat.even n
  then (Array_at sorted (n / 2 - 1) 0 + Array_at sorted (n / 2) 0) / 2
  else Array_at sorted (n / 2) 0.

Definition variance (values : list float) : float :=
  fold_left (fun sum val => sum + Js.Math_pow2 (val - mean values)) values 0
  / Js.of_length (length values).

Definition stdDev (values : list float) : float :=
  Js.Math_sqrt (variance values).

(** The body shared by [balanceStats] and [powerVotingStats], from the
    retained values on; [None] is [null]. *)
Definition statsOf (values : list float) : option Stats.t :=
  match values with
  | [] => None
  | _ =>
      Some {| Stats.count := length values;
              Stats.total := total values;
              Stats.mean := mean values;
              Stats.median := median values;
              Stats.min := fold_left Js.Math_min values infinity;
              Stats.max := fold_left Js.Math_max values neg_infinity;
              Stats.stdDev := stdDev values |}
  end.

Definition balanceStats (balances : list BalanceData.t) : option Stats.t :=
  match balances with
  | [] => None
  | _ => statsOf (balanceValues balances)
  end.

Definition powerVotingStats (powerVoting : list PowerVotingData.t) : option Stats.t :=
  match powerVoting with
  | [] => None
  | _ => statsOf (powerVotingValues powerVoting)
  end.

(** *** Distribution bins *)

Definition bins : list Bin.t :=
  [ Bin.make "0-100" 0 100 0;
    Bin.make "100-500" 100 500 0;
    Bin.make "500-1000" 500 1000 0;
    Bin.make "1000-5000" 1000 5000 0;
    Bin.make "5000-10000" 5000 10000 0;
    Bin.make "10000+" 10000 infinity 0 ].

(** [value >= b.min && value < b.max] *)
Definition inBin (value : float) (b : Bin.t) : bool :=
  (Bin.min b <=? value) && (value <? Bin.max b).

(** [const bin = bins.find(...); if (bin !== undefined) bin.count++]:
    the first bin that holds the value is the one updated in place. *)
Fixpoint countIn (value : float) (bs : list Bin.t) : list Bin.t :=
  match bs with
  | [] => []
  | b :: bs' =>
      if inBin value b
      then Bin.make (Bin.label b) (Bin.min b) (Bin.max b) (S (Bin.count b)) :: bs'
      else b :: countIn value bs'
  end.

(** The body shared by [balanceDistribution] and
    [powerVotingDistribution], from the retained values on. *)
Definition distributionOf (values : list float) : option (list Bin.t) :=
  match values with
  | [] => None
  | _ => Some (fold_left (fun bs value => countIn value bs) values bins)
  end.

Definition binnedValues (amounts : list float) : list float :=
  filter (fun v => negb (Js.isNaN v) && (0 <? v)) amounts.

Definition balanceDistribution (balances : list BalanceData.t) : option (list Bin.t) :=
  match balances with
  | [] => None
  | _ => distributionOf (binnedValues (map balanceAmount balances))
  end.

Definition powerVotingDistribution (powerVoting : list PowerVotingData.t)
  : option (list Bin.t) :=
  match powerVoting with
  | [] => None
  | _ => distributionOf (binnedValues (map powerAmount powerVoting))
  end.

(** *** Top holders *)

Definition topBalanceHolders (balances : list BalanceData.t) : list Holder.t :=
  firstn 10
    (Array_sort (fun a b => Holder.balance b - Holder.balance a)
       (filter (fun item => negb (Js.isNaN (Holder.balance item)))
          (map (fun b => Holder.make (BalanceData.walletAddress b) (balanceAmount b))
             balances))).

Definition topPowerVoters (powerVoting : list PowerVotingData.t) : list Voter.t :=
  firstn 10
    (Array_sort (fun a b => Voter.power b - Voter.power a)
       (filter (fun item => negb (Js.isNaN (Voter.power item)))
          (map (fun p => Voter.make (PowerVotingData.address p) (powerAmount p))
             powerVoting))).

(** *** Pool positions *)

(** [parseFloat(String(pos.equivalentREG || '0'))] *)
Definition regAmountOf (pos : PoolPosition.t) : float :=
  Js.parseFloat_String (Js.or (PoolPosition.equivalentREG pos) (VStr "0")).

(** [pos.tickLower !== undefined && pos.tickUpper !== undefined] *)
Definition isV3 (pos : PoolPosition.t) : bool :=
  Js.defined (PoolPosition.tickLower pos) && Js.defined (PoolPosition.tickUpper pos).

(** *** [poolAnalysis] *)

(** [(stats.dexs[dexName] || 0)]: a number that is 0 or NaN is falsy,
    and so is a text that is empty. *)
Definition dexTotal (dexName : string) (d : Dict Amount) : Amount :=
  match Object_get dexName d with
  | Own (Number f) => if Js.truthy (VNum f) then Number f else Number 0
  | Own (Text []) => Number 0
  | Own (Text pieces) => Text pieces
  | Inherited => Text [Source dexName]
  | Missing => Number 0
  end.

(** [stats.totalREG += regAmount; stats.count++;
     stats.dexs[dexName] = (stats.dexs[dexName] || 0) + regAmount] *)
Definition addToStats (dexName : string) (regAmount : float) (s : PoolStats.t)
  : PoolStats.t :=
  {| PoolStats.totalREG := PoolStats.totalREG s + regAmount;
     PoolStats.count := S (PoolStats.count s);
     PoolStats.dexs :=
       Object_set dexName (plus (dexTotal dexName (PoolStats.dexs s)) (Number regAmount))
         (PoolStats.dexs s) |}.

(** The body of [positions.forEach] in [poolAnalysis]. *)
Definition analysePosition (dexName : string) (st : PoolAnalysis.t)
  (pos : PoolPosition.t) : PoolAnalysis.t :=
  let regAmount := regAmountOf pos in
  if regAmount <=? 0 then st
  else
    {| PoolAnalysis.v2 :=
         if isV3 pos then PoolAnalysis.v2 st
         else addToStats dexName regAmount (PoolAnalysis.v2 st);
       PoolAnalysis.v3 :=
         if isV3 pos then addToStats dexName regAmount (PoolAnalysis.v3 st)
         else PoolAnalysis.v3 st;
       PoolAnalysis.pools :=
         Set_add Js.sameValueZero (PoolPosition.poolAddress pos)
           (PoolAnalysis.pools st) |}.

(** The body of [Object.entries(dexs).forEach]. *)
Definition analyseDex (st : PoolAnalysis.t)
  (entry : string * option (list PoolPosition.t)) : PoolAnalysis.t :=
  match snd entry with
  | None => st
  | Some positions => fold_left (analysePosition (fst entry)) positions st
  end.

(** [wallet.sourceBalance?.gnosis?.dexs] *)
Definition gnosisDexs (wallet : BalanceData.t)
  : option (Dict (option (list PoolPosition.t))) :=
  match BalanceData.sourceBalance wallet with
  | None => None
  | Some networks =>
      match Dict_get "gnosis" networks with
      | None => None
      | Some networkValue => NetworkValue.dexs networkValue
      end
  end.

(** The body of [balances.value.forEach]. *)
Definition analyseWallet (st : PoolAnalysis.t) (wallet : BalanceData.t)
  : PoolAnalysis.t :=
  match gnosisDexs wallet with
  | None => st
  | Some dexs => fold_left analyseDex dexs st
  end.

Definition emptyStats : PoolStats.t :=
  {| PoolStats.totalREG := 0; PoolStats.count := 0; PoolStats.dexs := [] |}.

Definition poolAnalysis (balances : list BalanceData.t) : option PoolAnalysis.t :=
  match balances with
  | [] => None
  | _ =>
      Some (fold_left analyseWallet balances
              {| PoolAnalysis.v2 := emptyStats;
                 PoolAnalysis.v3 := emptyStats;
                 PoolAnalysis.pools := [] |})
  end.

(** *** [addressPoolProfiles] *)

(** The body of [rawPositions.forEach]: the position pushed, if any. *)
Definition profilePosition (networkName dexName : string) (pos : PoolPosition.t)
  : list AddressPoolPosition.t :=
  let regAmount := regAmountOf pos in
  if regAmount <=? 0 then []
  else
    [ {| AddressPoolPosition.pos := pos;
         AddressPoolPosition.dex := dexName;
         AddressPoolPosition.network := networkName;
         AddressPoolPosition.poolType := if isV3 pos then v3 else v2;
         AddressPoolPosition.regAmount := regAmount |} ].

Definition profileDex (networkName : string)
  (entry : string * option (list PoolPosition.t)) : list AddressPoolPosition.t :=
  match snd entry with
  | None => []
  | Some rawPositions => flat_map (profilePosition networkName (fst entry)) rawPositions
  end.

Definition profileNetwork (entry : string * NetworkValue.t)
  : list AddressPoolPosition.t :=
  match NetworkValue.dexs (snd entry) with
  | None => []
  | Some dexs => flat_map (profileDex (fst entry)) dexs
  end.

(** The positions pushed while walking [Object.entries(networks)]. *)
Definition walletPositions (networks : Dict NetworkValue.t)
  : list AddressPoolPosition.t :=
  flat_map profileNetwork networks.

(** [`${pos.network}-${pos.dex}`] *)
Definition dexKey (network dex : string) : string :=
  (network ++ "-" ++ dex)%string.

(** [parseFloat(String(...)) || 0] *)
Definition totalWalletREG (wallet : BalanceData.t) : float :=
  let v := balanceAmount wallet in
  if Js.truthy (VNum v) then v else 0.

(** The callback of [balances.value.map]; [None] is [null]. *)
Definition walletProfile (wallet : BalanceData.t) : option AddressPoolProfile.t :=
  match BalanceData.sourceBalance wallet with
  | None => None
  | Some networks =>
      let positions := walletPositions networks in
      match positions with
      | [] => None
      | _ =>
          Some
            {| AddressPoolProfile.address := BalanceData.walletAddress wallet;
               AddressPoolProfile.walletREG := totalWalletREG wallet;
               AddressPoolProfile.poolLiquidityREG :=
                 fold_left (fun sum pos => sum + AddressPoolPosition.regAmount pos)
                   positions 0;
               AddressPoolProfile.positions := positions;
               AddressPoolProfile.poolCount := length positions;
               AddressPoolProfile.dexCount :=
                 Set_size
                   (Set_of String.eqb
                      (map (fun pos => dexKey (AddressPoolPosition.network pos)
                                         (AddressPoolPosition.dex pos))
                         positions)) |}
      end
  end.

(** [.map(...).filter(profile => profile !== null)] *)
Fixpoint addressPoolProfiles (balances : list BalanceData.t)
  : list AddressPoolProfile.t :=
  match balances with
  | [] => []
  | wallet :: rest =>
      match walletProfile wallet with
      | Some profile => profile :: addressPoolProfiles rest
      | None => addressPoolProfiles rest
      end
  end.

(** *** [poolPowerCorrelation] *)

(** [(entry.address || '').toLowerCase()] *)
Definition entryKey (entry : PowerVotingData.t) : string :=
  Js.toLowerCase
    (match PowerVotingData.address entry with
     | Some a => a
     | None => ""
     end).

Definition powerMap (powerVoting : list PowerVotingData.t) : Dict float :=
  Map_of (map (fun entry => (entryKey entry, powerAmount entry)) powerVoting).

(** [powerMap.get(profile.address.toLowerCase()) || 0] *)
Definition powerValueOf (m : Dict float) (address : string) : float :=
  match Dict_get (Js.toLowerCase address) m with
  | Some f => if Js.truthy (VNum f) then f else 0
  | None => 0
  end.

(** The callback of [addressPoolProfiles.value.map]. *)
Definition correlate (m : Dict float) (profile : AddressPoolProfile.t)
  : PoolPowerCorrelation.t :=
  let powerValue := powerValueOf m (AddressPoolProfile.address profile) in
  let walletDirectREG :=
    Js.Math_max
      (AddressPoolProfile.walletREG profile - AddressPoolProfile.poolLiquidityREG profile)
      0 in
  let walletVotingShare := Js.Math_min powerValue walletDirectREG in
  let poolVotingShare := Js.Math_max (powerValue - walletDirectREG) 0 in
  let boostMultiplier :=
    if 0 <? AddressPoolProfile.poolLiquidityREG profile
    then poolVotingShare / AddressPoolProfile.poolLiquidityREG profile
    else 0 in
  {| PoolPowerCorrelation.profile := profile;
     PoolPowerCorrelation.powerVoting := powerValue;
     PoolPowerCorrelation.walletDirectREG := walletDirectREG;
     PoolPowerCorrelation.walletVotingShare := walletVotingShare;
     PoolPowerCorrelation.poolVotingShare := poolVotingShare;
     PoolPowerCorrelation.boostMultiplier := boostMultiplier |}.

(** The comparator [(a, b) => b.poolLiquidityREG - a.poolLiquidityREG]. *)
Definition byLiquidity (a b : PoolPowerCorrelation.t) : float :=
  PoolPowerCorrelation.poolLiquidityREG b - PoolPowerCorrelation.poolLiquidityREG a.

Definition poolPowerCorrelation (balances : list BalanceData.t)
  (powerVoting : list PowerVotingData.t) : list PoolPowerCorrelation.t :=
  match addressPoolProfiles balances, powerVoting with
  | [], _ => []
  | _, [] => []
  | profiles, _ =>
      Array_sort byLiquidity
        (filter (fun item => 0 <? PoolPowerCorrelation.powerVoting item)
           (map (correlate (powerMap powerVoting)) profiles))
  end.

End Store.

(** ** The analysis view: the address search *)

(** The per-wallet breakdown returned by [analyzePoolPositions]. *)
Module WalletPools.
Record t : Type := make {
  totalPools : nat;
  regInPools : float;
  poolsInRange : nat;
  poolsOutOfRange : nat;
  regInRange : float;
  regOutOfRange : float;
  poolRegPercentage : float;
  v2Pools : nat;
  v3Pools : nat;
  dexCount : nat
}.
End WalletPools.

(** [interface SnapshotInfo] *)
Module SnapshotInfo.
Record t : Type := make {
  date : string;
  dateFormatted : string;
  balancesFile : string;
  powerVotingFile : string
}.
End SnapshotInfo.

(** An element of [addressSearchResults]; [poolAnalysis = None] is
    [undefined]. *)
Module SearchResult.
Record t : Type := make {
  date : string;
  dateFormatted : string;
  isCurrent : bool;
  reg : float;
  powerVoting : float;
  found : bool;
  poolAnalysis : option WalletPools.t
}.
End SearchResult.

Module View.

Local Open Scope float_scope.

(** The running totals of [analyzePoolPositions]; [dexSet] is the set
    whose size is reported as [dexCount], [positions] the number of
    positions pushed. *)
Record Tally : Type := {
  positions : nat;
  totalRegInPools : float;
  poolsInRange : nat;
  poolsOutOfRange : nat;
  regInRange : float;
  regOutOfRange : float;
  v2Pools : nat;
  v3Pools : nat;
  dexSet : list string
}.

(** [pos.isActive !== undefined ? pos.isActive : (isV3 ? false : true)],
    as the condition of [if (isActive)]. *)
Definition activeOf (pos : PoolPosition.t) : bool :=
  if Js.defined (PoolPosition.isActive pos)
  then Js.truthy (PoolPosition.isActive pos)
  else negb (Store.isV3 pos).

(** The body of [rawPositions.forEach]. *)
Definition tallyPosition (t : Tally) (pos : PoolPosition.t) : Tally :=
  let regAmount := Store.regAmountOf pos in
  if regAmount <=? 0 then t
  else
    let inRange := if Store.isV3 pos then activeOf pos else true in
    {| positions := S (positions t);
       totalRegInPools := totalRegInPools t + regAmount;
       poolsInRange := if inRange then S (poolsInRange t) else poolsInRange t;
       poolsOutOfRange := if inRange then poolsOutOfRange t else S (poolsOutOfRange t);
       regInRange := if inRange then regInRange t + regAmount else regInRange t;
       regOutOfRange := if inRange then regOutOfRange t else regOutOfRange t + regAmount;
       v2Pools := if Store.isV3 pos then v2Pools t else S (v2Pools t);
       v3Pools := if Store.isV3 pos then S (v3Pools t) else v3Pools t;
       dexSet := dexSet t |}.

(** The body of [Object.entries(dexs).forEach]: the key of the exchange
    is added to [dexSet] as soon as its value is an array, before its
    positions are read. *)
Definition tallyDex (networkName : string) (t : Tally)
  (entry : string * option (list PoolPosition.t)) : Tally :=
  match snd entry with
  | None => t
  | Some rawPositions =>
      fold_left tallyPosition rawPositions
        {| positions := positions t;
           totalRegInPools := totalRegInPools t;
           poolsInRange := poolsInRange t;
           poolsOutOfRange := poolsOutOfRange t;
           regInRange := regInRange t;
           regOutOfRange := regOutOfRange t;
           v2Pools := v2Pools t;
           v3Pools := v3Pools t;
           dexSet := Set_add String.eqb (Store.dexKey networkName (fst entry)) (dexSet t) |}
  end.

Definition tallyNetwork (t : Tally) (entry : string * NetworkValue.t) : Tally :=
  match NetworkValue.dexs (snd entry) with
  | None => t
  | Some dexs => fold_left (tallyDex (fst entry)) dexs t
  end.

Definition emptyTally : Tally :=
  {| positions := 0; totalRegInPools := 0; poolsInRange := 0; poolsOutOfRange := 0;
     regInRange := 0; regOutOfRange := 0; v2Pools := 0; v3Pools := 0; dexSet := [] |}.

(** [analyzePoolPositions(walletData)] for a wallet that was found;
    [None] is [null]. *)
Definition analyzePoolPositions (walletData : BalanceData.t) : option WalletPools.t :=
  match BalanceData.sourceBalance walletData with
  | None => None
  | Some networks =>
      let t := fold_left tallyNetwork networks emptyTally in
      let totalReg := Store.balanceAmount walletData in
      Some
        {| WalletPools.totalPools := positions t;
           WalletPools.regInPools := totalRegInPools t;
           WalletPools.poolsInRange := poolsInRange t;
           WalletPools.poolsOutOfRange := poolsOutOfRange t;
           WalletPools.regInRange := regInRange t;
           WalletPools.regOutOfRange := regOutOfRange t;
           WalletPools.poolRegPercentage :=
             if 0 <? totalReg then totalRegInPools t / totalReg * 100 else 0;
           WalletPools.v2Pools := v2Pools t;
           WalletPools.v3Pools := v3Pools t;
           WalletPools.dexCount := Set_size (dexSet t) |}
  end.

(** [str.split('-')] *)
Fixpoint split_dash (s : string) (cur : string) : list string :=
  match s with
  | EmptyString => [cur]
  | String c s' =>
      if Ascii.eqb c "-" then cur :: split_dash s' EmptyString
      else split_dash s' (cur ++ String c EmptyString)%string
  end.

(** [a.date.split('-').reverse().join('-')]: DD-MM-YYYY to YYYY-MM-DD. *)
Definition isoDate (date : string) : string :=
  String.concat "-" (rev (split_dash date EmptyString)).

(** [x.localeCompare(y)], which on strings of digits and hyphens is the
    comparison character by character. *)
Definition localeCompare (x y : string) : float :=
  match String.compare x y with
  | Lt => -1
  | Eq => 0
  | Gt => 1
  end.

(** The comparator of the final sort: the current snapshot first, then
    the newest date first. *)
Definition byDate (a b : SearchResult.t) : float :=
  if SearchResult.isCurrent a then -1
  else if SearchResult.isCurrent b then 1
  else localeCompare (isoDate (SearchResult.date b)) (isoDate (SearchResult.date a)).

Section Search.

(** The state the search reads: the store's two arrays, the snapshots of
    the manifest, the loader (a snapshot whose fetch is refused or whose
    JSON does not parse makes [loadSnapshot] throw: [None]) and the
    locale's date format. *)
Variable balances : list BalanceData.t.
Variable powerVoting : list PowerVotingData.t.
Variable availableSnapshots : list SnapshotInfo.t.
Variable loadSnapshot :
  SnapshotInfo.t -> option (Document BalanceData.t * Document PowerVotingData.t).
Variable formatSnapshotDate : string -> string.

(** [arr.find(b => (b.walletAddress || '').toLowerCase() === addressToSearch)] *)
Definition findBalance (addressToSearch : string) (l : list BalanceData.t)
  : option BalanceData.t :=
  Array_find
    (fun b => String.eqb (Js.toLowerCase (BalanceData.walletAddress b)) addressToSearch)
    l.

(** [arr.find(p => (p.address || '').toLowerCase() === addressToSearch)] *)
Definition findPower (addressToSearch : string) (l : list PowerVotingData.t)
  : option PowerVotingData.t :=
  Array_find (fun p => String.eqb (Store.entryKey p) addressToSearch) l.

(** The entry pushed for what was found in one pair of datasets. *)
Definition entryOf (date dateFormatted : string) (isCurrent : bool)
  (balanceData : option BalanceData.t) (powerData : option PowerVotingData.t)
  : SearchResult.t :=
  {| SearchResult.date := date;
     SearchResult.dateFormatted := dateFormatted;
     SearchResult.isCurrent := isCurrent;
     SearchResult.reg :=
       match balanceData with Some b => Store.balanceAmount b | None => 0 end;
     SearchResult.powerVoting :=
       match powerData with Some p => Store.powerAmount p | None => 0 end;
     SearchResult.found :=
       match balanceData, powerData with None, None => false | _, _ => true end;
     SearchResult.poolAnalysis :=
       match balanceData with Some b => analyzePoolPositions b | None => None end |}.

(** [balances.result?.balances || balances], then [Array.isArray]:
    reading [result] of [null] throws. *)
Definition loadedRows (A : Type) (doc : Document A) : option (option (list A)) :=
  match doc with
  | DocNull => None
  | DocArray l => Some (Some l)
  | DocResult r => Some r
  end.

(** The body of [for (const snapshot of availableSnapshots.value)]:
    the [try] block, and the entry the [catch] block pushes. *)
Definition notFound (snapshot : SnapshotInfo.t) : SearchResult.t :=
  {| SearchResult.date := SnapshotInfo.date snapshot;
     SearchResult.dateFormatted := formatSnapshotDate (SnapshotInfo.date snapshot);
     SearchResult.isCurrent := false;
     SearchResult.reg := 0;
     SearchResult.powerVoting := 0;
     SearchResult.found := false;
     SearchResult.poolAnalysis := None |}.

Definition trySnapshot (addressToSearch : string) (snapshot : SnapshotInfo.t)
  : option SearchResult.t :=
  match loadSnapshot snapshot with
  | None => None
  | Some (b, p) =>
      match loadedRows b, loadedRows p with
      | Some balancesArray, Some powerVotingArray =>
          Some
            (entryOf (SnapshotInfo.date snapshot)
               (formatSnapshotDate (SnapshotInfo.date snapshot)) false
               (match balancesArray with
                | Some l => findBalance addressToSearch l
                | None => None
                end)
               (match powerVotingArray with
                | Some l => findPower addressToSearch l
                | None => None
                end))
      | _, _ => None
      end
  end.

(** The entry a snapshot leaves in the results, loaded or not. *)
Definition entryFor (addressToSearch : string) (snapshot : SnapshotInfo.t) : SearchResult.t :=
  match trySnapshot addressToSearch snapshot with
  | Some entry => entry
  | None => notFound snapshot
  end.

Definition searchSnapshot (addressToSearch : string)
  (results : list SearchResult.t) (snapshot : SnapshotInfo.t) : list SearchResult.t :=
  match trySnapshot addressToSearch snapshot with
  | Some entry => results ++ [entry]
  | None => results ++ [notFound snapshot]
  end.

(** [searchAddressAcrossSnapshots()]: the value left in
    [addressSearchResults]. *)
Definition searchAddressAcrossSnapshots (searchAddress : string)
  : list SearchResult.t :=
  if String.eqb (Js.trim searchAddress) "" then []
  else
    let addressToSearch := Js.toLowerCase (Js.trim searchAddress) in
    let current :=
      entryOf "Actuel" "Snapshot actuel (uploadé)" true
        (findBalance addressToSearch balances)
        (findPower addressToSearch powerVoting) in
    Array_sort byDate
      (fold_left (searchSnapshot addressToSearch) availableSnapshots [current]).

End Search.

(** [formatAddress]:
    [`${address.substring(0, 6)}...${address.substring(address.length - 4)}`] *)
Definition formatAddress (address : string) : string :=
  (Js.substring address 0 6 ++ "..."
   ++ Js.substring_from address (Z.of_nat (String.length address) - 4))%string.

(** *** The rows that are unfolded

    [expandedWallets] and [expandedAddressResults] are objects from an
    address (or a date) to a boolean, created empty ([{}]) and written by
    the two toggles only. *)

(** [!!expandedWallets.value[address]] *)
Definition isWalletExpanded (expandedWallets : Dict bool) (address : string) : bool :=
  match Object_get address expandedWallets with
  | Own b => b
  | Inherited => true
  | Missing => false
  end.

(** [expandedWallets.value[address] = !isWalletExpanded(address)] *)
Definition toggleWalletPositions (expandedWallets : Dict bool) (address : string)
  : Dict bool :=
  Object_set address (negb (isWalletExpanded expandedWallets address)) expandedWallets.



(** *** Chart data

    The labels and the series of the charts; the colours and the other
    constants of the data sets are left out. *)

(** [balanceDistributionChartData] and [powerVotingDistributionChartData]:
    [dist.map(b => b.label)] and [dist.map(b => b.count)]. *)
Definition distributionChartData (dist : option (list Bin.t))
  : option (list string * list nat) :=
  match dist with
  | None => None
  | Some bs => Some (map Bin.label bs, map Bin.count bs)
  end.

Definition balanceDistributionChartData (balances : list BalanceData.t)
  : option (list string * list nat) :=
  distributionChartData (Store.balanceDistribution balances).

Definition powerVotingDistributionChartData (powerVoting : list PowerVotingData.t)
  : option (list string * list nat) :=
  distributionChartData (Store.powerVotingDistribution powerVoting).

(** [dexsDistributionChartData]: the labels are the keys of the two
    per-DEX objects, each once, and the datum of a label is
    [(analysis.v2.dexs[dex] || 0) + (analysis.v3.dexs[dex] || 0)]. *)
Definition dexsDistributionChartData (balances : list BalanceData.t)
  : option (list string * list Amount) :=
  match Store.poolAnalysis balances with
  | None => None
  | Some analysis =>
      let allDexs :=
        Set_of String.eqb
          (Object_keys (PoolStats.dexs (PoolAnalysis.v2 analysis))
           ++ Object_keys (PoolStats.dexs (PoolAnalysis.v3 analysis))) in
      Some (allDexs,
            map (fun dex =>
                   plus (Store.dexTotal dex (PoolStats.dexs (PoolAnalysis.v2 analysis)))
                        (Store.dexTotal dex (PoolStats.dexs (PoolAnalysis.v3 analysis))))
              allDexs)
  end.

(** [poolPowerChartData]: the series over the first 25 entries of the
    correlation. *)
Record PoolPowerChart : Type := {
  labels : list string;
  ratioPools : list float;
  ratioTotal : list float;
  baseline : list float
}.

Definition poolPowerChartData (balances : list BalanceData.t)
  (powerVoting : list PowerVotingData.t) : option PoolPowerChart :=
  match Store.poolPowerCorrelation balances powerVoting with
  | [] => None
  | correlation =>
      let topEntries := firstn 25 correlation in
      Some
        {| labels :=
             map (fun entry => formatAddress (PoolPowerCorrelation.address entry)) topEntries;
           ratioPools :=
             map (fun entry =>
                    if PoolPowerCorrelation.poolLiquidityREG entry <=? 0 then 0
                    else PoolPowerCorrelation.poolVotingShare entry
                         / PoolPowerCorrelation.poolLiquidityREG entry)
               topEntries;
           ratioTotal :=
             map (fun entry =>
                    let totalREG :=
                      PoolPowerCorrelation.walletDirectREG entry
                      + PoolPowerCorrelation.poolLiquidityREG entry in
                    if totalREG <=? 0 then 0
                    else PoolPowerCorrelation.powerVoting entry / totalREG)
               topEntries;
           baseline :=
             map (fun entry =>
                    if 0 <? PoolPowerCorrelation.poolLiquidityREG entry then 1 else 0)
               topEntries |}
  end.

End View.

(** ** The snapshot loader: [src/utils/snapshotLoader.ts] *)

(** What a [fetch] comes to: it is rejected (the network fails), or a
    response arrives with its [ok] flag and a body that parses as JSON
    ([Some]) or does not. *)
Inductive Response (A : Type) : Type :=
  | Rejected
  | Reply (ok : bool) (json : option A).

Arguments Rejected {A}.
Arguments Reply {A} ok json.

(** An entry of [manifest.snapshots], as the manifest generator writes
    it; [dateFormatted] may be missing. *)
Module RawSnapshot.
Record t : Type := make {
  date : string;
  dateFormatted : option string;
  balancesFile : string;
  powerVotingFile : string
}.
End RawSnapshot.

Module SnapshotLoader.

Local Open Scope float_scope.

(** A piece of [dateStr.split('-')] put in a template string: a piece
    that is missing prints as [undefined]. *)
Definition piece (parts : list string) (i : nat) : string := nth i parts "undefined".

(** [formatDate]: DD-MM-YYYY to YYYY-MM-DD. *)
Definition formatDate (dateStr : string) : string :=
  let parts := View.split_dash dateStr EmptyString in
  (piece parts 2 ++ "-" ++ piece parts 1 ++ "-" ++ piece parts 0)%string.

(** The callback of [manifest.snapshots.map]:
    [s.dateFormatted || formatDate(s.date)]. *)
Definition infoOf (s : RawSnapshot.t) : SnapshotInfo.t :=
  {| SnapshotInfo.date := RawSnapshot.date s;
     SnapshotInfo.dateFormatted :=
       match RawSnapshot.dateFormatted s with
       | Some d => if String.eqb d "" then formatDate (RawSnapshot.date s) else d
       | None => formatDate (RawSnapshot.date s)
       end;
     SnapshotInfo.balancesFile := RawSnapshot.balancesFile s;
     SnapshotInfo.powerVotingFile := RawSnapshot.powerVotingFile s |}.

(** [`/snapshot/${snapshot.date}/${file}`] *)
Definition url (date file : string) : string :=
  ("/snapshot/" ++ date ++ "/" ++ file)%string.

Section Loading.

(** [new Date(s).getTime()], NaN for a string that is not a date. *)
Variable Date_getTime : string -> float.

(** The comparator of the manifest: the newest date first. *)
Definition byNewest (a b : SnapshotInfo.t) : float :=
  Date_getTime (SnapshotInfo.dateFormatted b) - Date_getTime (SnapshotInfo.dateFormatted a).

(** [loadSnapshotManifest()], from what [fetch('/snapshot/manifest.json')]
    comes to; the body is the manifest with its [snapshots] ([None] when
    the key is missing).  Whatever fails, the result is the empty list. *)
Definition loadSnapshotManifest (response : Response (option (list RawSnapshot.t)))
  : list SnapshotInfo.t :=
  match response with
  | Reply true (Some (Some snapshots)) => Array_sort byNewest (map infoOf snapshots)
  | _ => []
  end.

(** The network, read as a balances document and as a power document. *)
Variable fetchBalances : string -> Response (Document BalanceData.t).
Variable fetchPowerVoting : string -> Response (Document PowerVotingData.t).

(** [loadSnapshot(snapshot)]; [None] when it throws. *)
Definition loadSnapshot (snapshot : SnapshotInfo.t)
  : option (Document BalanceData.t * Document PowerVotingData.t) :=
  match
    fetchBalances (url (SnapshotInfo.date snapshot) (SnapshotInfo.balancesFile snapshot)),
    fetchPowerVoting (url (SnapshotInfo.date snapshot) (SnapshotInfo.powerVotingFile snapshot))
  with
  | Reply balancesOk balancesJson, Reply powerVotingOk powerVotingJson =>
      if negb balancesOk || negb powerVotingOk then None
      else
        match balancesJson, powerVotingJson with
        | Some balances, Some powerVoting => Some (balances, powerVoting)
        | _, _ => None
        end
  | _, _ => None
  end.

End Loading.

End SnapshotLoader.

(** ** The manifest generator: [scripts/generate-snapshot-manifest.js] *)

(** A directory entry of the snapshot directory: its name, whether it is
    a directory, the names of the files in it, and what [JSON.parse] of a
    file gives, read as a balances or as a power document ([None] when
    reading or parsing throws). *)
Module Dirent.
Record t : Type := make {
  name : string;
  isDirectory : bool;
  files : list string;
  readBalances : string -> option (Document BalanceData.t);
  readPowerVoting : string -> option (Document PowerVotingData.t)
}.
End Dirent.

Module Metrics.
Record t : Type := make {
  walletCount : nat;
  totalREG : float;
  totalPowerVoting : float
}.
End Metrics.

(** An element of the manifest's [snapshots]. *)
Module ManifestEntry.
Record t : Type := make {
  date : string;
  dateFormatted : string;
  balancesFile : string;
  powerVotingFile : string;
  metrics : Metrics.t
}.
End ManifestEntry.

Module Generator.

Local Open Scope float_scope.

(** [files.find(f => f.startsWith(prefix) && f.endsWith('.json'))] *)
Definition findFile (prefix : string) (files : list string) : option string :=
  Array_find (fun f => Js.startsWith f prefix && Js.endsWith f ".json") files.

(** [`${parts[2]}-${parts[1]}-${parts[0]}`] *)
Definition dateFormattedOf (dateDir : string) : string :=
  let parts := View.split_dash dateDir EmptyString in
  (SnapshotLoader.piece parts 2 ++ "-" ++ SnapshotLoader.piece parts 1 ++ "-"
   ++ SnapshotLoader.piece parts 0)%string.

(** [balancesArray.reduce((sum, b) => sum + (isNaN(reg) ? 0 : reg), 0)] *)
Definition sumREG (balancesArray : list BalanceData.t) : float :=
  fold_left
    (fun sum b =>
       let reg := Store.balanceAmount b in
       sum + (if Js.isNaN reg then 0 else reg))
    balancesArray 0.

(** [powerArray.reduce((sum, p) => sum + (isNaN(power) ? 0 : power), 0)] *)
Definition sumPower (powerArray : list PowerVotingData.t) : float :=
  fold_left
    (fun sum p =>
       let power := Store.powerAmount p in
       sum + (if Js.isNaN power then 0 else power))
    powerArray 0.

(** The [try] block: the three variables as they stand when the block
    ends or throws.  Reading a file that does not parse throws, and so
    does reading [result] of a document that is [null]. *)
Definition measure (balancesData : option (Document BalanceData.t))
  (powerData : option (Document PowerVotingData.t)) : nat * float * float :=
  match balancesData with
  | None | Some DocNull => (0%nat, 0, 0)
  | Some balancesDoc =>
      let balancesArray := Store.rows balancesDoc in
      match powerData with
      | None | Some DocNull => (length balancesArray, sumREG balancesArray, 0)
      | Some powerDoc =>
          (length balancesArray, sumREG balancesArray, sumPower (Store.rows powerDoc))
      end
  end.

(** [Math.round(x * 100) / 100] *)
Definition roundCents (x : float) : float := Js.Math_round (x * 100) / 100.

(** The body of [for (const dateDir of dateDirs)]: the entry pushed, if
    any. *)
Definition entryOfDir (dir : Dirent.t) : list ManifestEntry.t :=
  match findFile "balancesREG_" (Dirent.files dir),
        findFile "powerVotingREG_" (Dirent.files dir) with
  | Some balancesFile, Some powerFile =>
      let '(walletCount, totalREG, totalPowerVoting) :=
        measure (Dirent.readBalances dir balancesFile)
          (Dirent.readPowerVoting dir powerFile) in
      [ {| ManifestEntry.date := Dirent.name dir;
           ManifestEntry.dateFormatted := dateFormattedOf (Dirent.name dir);
           ManifestEntry.balancesFile := balancesFile;
           ManifestEntry.powerVotingFile := powerFile;
           ManifestEntry.metrics :=
             {| Metrics.walletCount := walletCount;
                Metrics.totalREG := roundCents totalREG;
                Metrics.totalPowerVoting := roundCents totalPowerVoting |} |} ]
  | _, _ => []
  end.

Section Generating.

Variable Date_getTime : string -> float.

Definition byNewest (a b : ManifestEntry.t) : float :=
  Date_getTime (ManifestEntry.dateFormatted b)
  - Date_getTime (ManifestEntry.dateFormatted a).

(** [generateManifest()]: the [snapshots] of the manifest written, from
    the entries of the snapshot directory; [None] when the directory
    does not exist and nothing is written. *)
Definition generateManifest (snapshotDir : option (list Dirent.t))
  : option (list ManifestEntry.t) :=
  match snapshotDir with
  | None => None
  | Some dirents =>
      Some (Array_sort byNewest
              (flat_map entryOfDir (filter Dirent.isDirectory dirents)))
  end.

End Generating.

End Generator.

(** ** The notions the claims are stated with *)

Section Notions.

Local Open Scope float_scope.

(** The positions of a wallet that survive the filter. *)
Definition survivingPositions (wallet : BalanceData.t) : list AddressPoolPosition.t :=
  match BalanceData.sourceBalance wallet with
  | None => []
  | Some networks => Store.walletPositions networks
  end.

(** The order the view is said to be in: no later element has more pool
    liquidity than an earlier one. *)
Definition descending (a b : PoolPowerCorrelation.t) : Prop :=
  (PoolPowerCorrelation.poolLiquidityREG b <=? PoolPowerCorrelation.poolLiquidityREG a) = true.

(** A position whose resolved [regAmount] is [<= 0]. *)
Definition dead (pos : PoolPosition.t) : bool := Store.regAmountOf pos <=? 0.

(** A wallet's nested structure without its dead positions, everything
    else in place. *)
Definition pruneDexs (dexs : Dict (option (list PoolPosition.t)))
  : Dict (option (list PoolPosition.t)) :=
  map (fun entry => (fst entry, option_map (filter (fun pos => negb (dead pos))) (snd entry)))
    dexs.

Definition pruneNetworks (networks : Dict NetworkValue.t) : Dict NetworkValue.t :=
  map (fun entry =>
         (fst entry, NetworkValue.make (option_map pruneDexs (NetworkValue.dexs (snd entry)))))
    networks.

Definition pruneWallet (wallet : BalanceData.t) : BalanceData.t :=
  BalanceData.make (BalanceData.walletAddress wallet) (BalanceData.type wallet)
    (BalanceData.totalBalanceREG wallet) (BalanceData.totalBalance wallet)
    (option_map pruneNetworks (BalanceData.sourceBalance wallet)).

(** A wallet with only the ['gnosis'] entries of its [sourceBalance]. *)
Definition gnosisOnly (wallet : BalanceData.t) : BalanceData.t :=
  BalanceData.make (BalanceData.walletAddress wallet) (BalanceData.type wallet)
    (BalanceData.totalBalanceREG wallet) (BalanceData.totalBalance wallet)
    (option_map (filter (fun entry : string * NetworkValue.t => String.eqb "gnosis" (fst entry)))
       (BalanceData.sourceBalance wallet)).

(** The (network, exchange) pairs of a wallet with a surviving position. *)
Definition liveExchanges (wallet : BalanceData.t) : list (string * string) :=
  Set_of (fun a b => String.eqb (fst a) (fst b) && String.eqb (snd a) (snd b))
    (map (fun pos => (AddressPoolPosition.network pos, AddressPoolPosition.dex pos))
       (survivingPositions wallet)).

(** The sum of the counts of a list of bins. *)
Definition countsSum (bs : list Bin.t) : nat :=
  fold_right (fun b n => (Bin.count b + n)%nat) 0%nat bs.

(** The labels and bounds of a list of bins. *)
Definition layout (bs : list Bin.t) : list (string * float * float) :=
  map (fun b => (Bin.label b, Bin.min b, Bin.max b)) bs.

(** The number of bins whose interval holds a value. *)
Definition holders (value : float) (bs : list Bin.t) : nat :=
  length (filter (Store.inBin value) bs).

End Notions.

(** ** The notions the other properties are stated with *)

Section Readings.

Local Open Scope float_scope.

(** The rows with a readable amount, as [topBalanceHolders] and
    [topPowerVoters] rank them. *)
Definition readableHolders (balances : list BalanceData.t) : list Holder.t :=
  filter (fun item => negb (Js.isNaN (Holder.balance item)))
    (map (fun b => Holder.make (BalanceData.walletAddress b) (Store.balanceAmount b)) balances).

Definition readableVoters (powerVoting : list PowerVotingData.t) : list Voter.t :=
  filter (fun item => negb (Js.isNaN (Voter.power item)))
    (map (fun p => Voter.make (PowerVotingData.address p) (Store.powerAmount p)) powerVoting).

(** [b] does not score higher than [a]. *)
Definition noHigher (A : Type) (score : A -> float) (a b : A) : Prop :=
  (score b <=? score a) = true.

(** [m] is the median of [values]: the values can be laid out as a lower
    part, a middle of one or two values and an upper part as long as the
    lower one, nothing in a part above anything in the next; [m] is the
    middle value, or half the sum of the two. *)
Definition medianOf (m : float) (values : list float) : Prop :=
  exists lo mid hi,
    Permutation (lo ++ mid ++ hi) values
    /\ length lo = length hi
    /\ (forall a b, In a lo -> In b mid -> (a <=? b) = true)
    /\ (forall a b, In a mid -> In b hi -> (a <=? b) = true)
    /\ (mid = [m]
        \/ exists a b, mid = [a; b] /\ (a <=? b) = true /\ m = (a + b) / 2).

(** The number of values that a bin's interval holds. *)
Definition held (values : list float) (b : Bin.t) : nat :=
  length (filter (fun value => Store.inBin value b) values).

(** The live positions of a wallet on the Gnosis chain: the positions
    listed under the exchanges of the ['gnosis'] entry of its
    [sourceBalance] whose amount is not [<= 0], each with the name of its
    exchange, in the order of the document. *)
Definition gnosisPositions (wallet : BalanceData.t) : list (string * PoolPosition.t) :=
  match BalanceData.sourceBalance wallet with
  | None => []
  | Some networks =>
      match find (fun network => String.eqb (fst network) "gnosis") networks with
      | Some (_, {| NetworkValue.dexs := Some dexs |}) =>
          flat_map
            (fun exchange : string * option (list PoolPosition.t) =>
               match snd exchange with
               | None => []
               | Some positions =>
                   map (pair (fst exchange)) (filter (fun pos => negb (dead pos)) positions)
               end)
            dexs
      | _ => []
      end
  end.

(** The V2 and the V3 positions among them. *)
Definition ofType (v3 : bool) (l : list (string * PoolPosition.t))
  : list (string * PoolPosition.t) :=
  filter (fun p => Bool.eqb (Store.isV3 (snd p)) v3) l.

(** The sum of the amounts of positions, taken in order from 0. *)
Definition amountsSum (l : list (string * PoolPosition.t)) : float :=
  fold_left (fun sum p => sum + Store.regAmountOf (snd p)) l 0.

(** What stands under the name of an exchange for its positions [l],
    taken in order: nothing when there is none; their sum for an
    ordinary name; for a name that every object inherits, the text of the
    inherited property followed by the amounts, and nothing at all for
    [__proto__]. *)
Definition dexEntry (dex : string) (l : list (string * PoolPosition.t)) : option Amount :=
  match l with
  | [] => None
  | _ =>
      if String.eqb dex "__proto__" then None
      else if Object_inherits dex
      then Some (Text (Source dex :: map (fun p => Numeral (Store.regAmountOf (snd p))) l))
      else Some (Number (amountsSum l))
  end.

(** A piece of a date: a string without a hyphen. *)
Fixpoint dashless (s : string) : bool :=
  match s with
  | EmptyString => true
  | String c s' => negb (Ascii.eqb c "-") && dashless s'
  end.

(** A string of decimal digits, and the number it writes. *)
Fixpoint allDigits (s : string) : bool :=
  match s with
  | EmptyString => true
  | String c s' =>
      match Js.digit_of c with
      | Some _ => allDigits s'
      | None => false
      end
  end.

Definition numberOf (s : string) : Z := fst (fst (Js.digits s 0%Z 0%Z)).

(** A date written DD-MM-YYYY, and the number YYYYMMDD of its day, which
    grows with time. *)
Definition wellFormed (date : string) : bool :=
  match View.split_dash date EmptyString with
  | [day; month; year] =>
      allDigits day && allDigits month && allDigits year
      && Nat.eqb (String.length day) 2 && Nat.eqb (String.length month) 2
      && Nat.eqb (String.length year) 4
  | _ => false
  end.

Definition dayNumber (date : string) : Z :=
  match View.split_dash date EmptyString with
  | [day; month; year] => (numberOf year * 10000 + numberOf month * 100 + numberOf day)%Z
  | _ => 0%Z
  end.

(** An entry of the generated manifest as [manifest.json] gives it back
    to the loader: the strings as they are, the metrics not read. *)
Definition served (entry : ManifestEntry.t) : RawSnapshot.t :=
  {| RawSnapshot.date := ManifestEntry.date entry;
     RawSnapshot.dateFormatted := Some (ManifestEntry.dateFormatted entry);
     RawSnapshot.balancesFile := ManifestEntry.balancesFile entry;
     RawSnapshot.powerVotingFile := ManifestEntry.powerVotingFile entry |}.

(** The time of a snapshot, as the two manifests sort by it. *)
Definition timeOf (Date_getTime : string -> float) (s : SnapshotInfo.t) : float :=
  Date_getTime (SnapshotInfo.dateFormatted s).

End Readings.

(** ** Sample data, as the store's tests and the scenarios write it *)

Module Sample.

(** A position that only gives [equivalentREG] and [poolAddress]. *)
Definition simple (equivalentREG poolAddress : string) : PoolPosition.t :=
  PoolPosition.make VUndefined VUndefined (VStr equivalentREG) (VStr poolAddress)
    VUndefined VUndefined VUndefined VUndefined.

(** A position with a tick range. *)
Definition ranged (equivalentREG poolAddress : string) (tickLower tickUpper : float)
  : PoolPosition.t :=
  PoolPosition.make VUndefined VUndefined (VStr equivalentREG) (VStr poolAddress)
    (VNum tickLower) (VNum tickUpper) VUndefined VUndefined.

(** [{ dexs: { ... } }] *)
Definition network (dexs : Dict (list PoolPosition.t)) : NetworkValue.t :=
  NetworkValue.make (Some (map (fun kv => (fst kv, Some (snd kv))) dexs)).

(** A wallet row without positions. *)
Definition holder (walletAddress totalBalanceREG : string) : BalanceData.t :=
  BalanceData.make walletAddress "wallet" (VStr totalBalanceREG) VUndefined None.

(** A wallet row with positions. *)
Definition pooled (walletAddress totalBalanceREG : string)
  (sourceBalance : Dict NetworkValue.t) : BalanceData.t :=
  BalanceData.make walletAddress "wallet" (VStr totalBalanceREG) VUndefined
    (Some sourceBalance).

Definition voter (address powerVoting : string) : PowerVotingData.t :=
  PowerVotingData.make (Some address) (VStr powerVoting).

(** The wallet of the test 'analyzes pools correctly'. *)
Definition testWallet : BalanceData.t :=
  BalanceData.make "0x1" "wallet" VUndefined VUndefined
    (Some [("gnosis",
            network [("sushiswap", [ranged "100" "0xPool1" (-100) 100]);
                     ("honeyswap", [simple "50" "0xPool2"])])]).

(** A wallet whose exchanges carry the names of properties that every
    object inherits, beside an ordinary one. *)
Definition namesakeWallet : BalanceData.t :=
  pooled "0x2" "20"
    [("gnosis",
      network [("constructor", [simple "5" "0xP1"; simple "7" "0xP2"]);
               ("__proto__", [simple "3" "0xP3"]);
               ("honeyswap", [simple "2" "0xP4"])])].

(** Two wallets on exchanges that are named by numbers. *)
Definition numberedWallets : list BalanceData.t :=
  [ pooled "0x3" "1" [("gnosis", network [("10", [simple "1" "0xP5"])])];
    pooled "0x4" "1" [("gnosis", network [("9", [simple "1" "0xP6"]);
                                          ("zeta", [simple "1" "0xP7"]);
                                          ("07", [simple "1" "0xP8"])])] ].

(** A wallet with three positions that give no pool address: two leave
    it out and one gives [null]. *)
Definition unaddressedWallet : BalanceData.t :=
  pooled "0x5" "9"
    [("gnosis",
      network
        [("honeyswap",
          [ PoolPosition.make VUndefined VUndefined (VStr "1") VUndefined
              VUndefined VUndefined VUndefined VUndefined;
            PoolPosition.make VUndefined VUndefined (VStr "2") VNull
              VUndefined VUndefined VUndefined VUndefined;
            PoolPosition.make VUndefined VUndefined (VStr "3") VUndefined
              VUndefined VUndefined VUndefined VUndefined ])])].

(** A wallet on one exchange of the Gnosis chain. *)
Definition onGnosis (walletAddress totalBalanceREG equivalentREG : string) : BalanceData.t :=
  pooled walletAddress totalBalanceREG
    [("gnosis", network [("honeyswap", [simple equivalentREG "0xPool"])])].

(** A wallet holding 0.4 REG, 0.2 of it in a pool, with a power of 0.9. *)
Definition roundingWallet : BalanceData.t := onGnosis "0xA" "0.4" "0.2".
Definition roundingVoter : PowerVotingData.t := voter "0xa" "0.9".

(** Three wallets with 50, 200 and 100 REG in pools, and their powers. *)
Definition threeWallets : list BalanceData.t :=
  [onGnosis "0xA" "60" "50"; onGnosis "0xB" "200" "200"; onGnosis "0xC" "500" "100"].
Definition threeVoters : list PowerVotingData.t :=
  [voter "0xa" "75"; voter "0xB" "900"; voter "0xc" "480"; voter "0xd" "12"].

(** Three wallets, the second with a position whose amount is not a
    number. *)
Definition garbledWallets : list BalanceData.t :=
  [onGnosis "0xA" "10" "1"; onGnosis "0xN" "10" "abc"; onGnosis "0xB" "10" "2"].
Definition garbledVoters : list PowerVotingData.t :=
  [voter "0xa" "5"; voter "0xn" "5"; voter "0xb" "5"].

(** Balances below, between and above the bounds of the bins, with a
    zero, a negative and an unreadable one. *)
Definition spreadBalances : list BalanceData.t :=
  [holder "0x1" "10"; holder "0x2" "300"; holder "0x3" "0"; holder "0x4" "10000";
   holder "0x5" "-5"; holder "0x6" "abc"].

(** A wallet whose only position, worth 100 REG, is on another network. *)
Definition ethereumWallet : BalanceData.t :=
  pooled "0xE" "100"
    [("ethereum", network [("uniswap", [simple "100" "0xPoolE"])])].

(** A row whose explicit field is text that is not a number. *)
Definition unreadable : BalanceData.t := holder "0x1" "abc".

(** A row with both fields: the explicit one unreadable, the generic one 5. *)
Definition unreadableWithGeneric : BalanceData.t :=
  BalanceData.make "0x3" "wallet" (VStr "abc") (VStr "5") None.

(** A row whose explicit field is the number 0 and whose generic one is 5. *)
Definition zeroWithGeneric : BalanceData.t :=
  BalanceData.make "0x4" "wallet" (VNum 0) (VStr "5") None.

(** A wallet with two exchanges, one of which holds only an emptied
    position. *)
Definition drainedWallet : BalanceData.t :=
  pooled "0xD" "10"
    [("gnosis",
      network [("honeyswap", [simple "0" "0xP1"]);
                      ("sushiswap", [simple "5" "0xP2"])])].

(** Scenario E: the manifest lists three dates; the fetch of 01-01-2025
    throws, the two others give documents that know the address. *)
Definition snapshotOf (date : string) : SnapshotInfo.t :=
  SnapshotInfo.make date date "balances.json" "powerVoting.json".

Definition scenarioSnapshots : list SnapshotInfo.t :=
  [snapshotOf "01-03-2025"; snapshotOf "15-02-2025"; snapshotOf "01-01-2025"].

Definition scenarioLoader (snapshot : SnapshotInfo.t)
  : option (Document BalanceData.t * Document PowerVotingData.t) :=
  if String.eqb (SnapshotInfo.date snapshot) "01-01-2025" then None
  else Some (DocResult (Some [holder "0xAbC" "100"]), DocArray [voter "0xabc" "40"]).

Definition scenarioSearch : list SearchResult.t :=
  View.searchAddressAcrossSnapshots [holder "0xabc" "120"] [voter "0xABC" "60"]
    scenarioSnapshots scenarioLoader (fun date => date) " 0xABC ".

(** A clock for the samples: the digits of a date written year first,
    read as one number, which grows with the date as [getTime] does. *)
Definition dayStamp (dateFormatted : string) : float :=
  Js.parseFloat (String.concat "" (View.split_dash dateFormatted EmptyString)).

(** A snapshot directory: two dated directories with both files (the
    balances of the second do not parse), the manifest itself, and a dated
    directory without a power file. *)
Definition snapshotDirectory : list Dirent.t :=
  [ Dirent.make "15-02-2025" true
      ["notes.txt"; "balancesREG_a.json"; "powerVotingREG_a.json"]
      (fun _ => Some (DocArray [holder "0x1" "10.004"; holder "0x2" "abc"]))
      (fun _ => Some (DocResult (Some [voter "0x1" "40"; voter "0x2" "2.5"])));
    Dirent.make "manifest.json" false [] (fun _ => None) (fun _ => None);
    Dirent.make "01-03-2025" true
      ["powerVotingREG_b.json"; "balancesREG_b.json"]
      (fun _ => None)
      (fun _ => Some (DocArray [voter "0x1" "7"]));
    Dirent.make "01-01-2025" true ["balancesREG_c.json"]
      (fun _ => Some (DocArray [holder "0x1" "1"]))
      (fun _ => None) ].

(** The manifest generated from it. *)
Definition generated : list ManifestEntry.t :=
  Eval vm_compute in
    match Generator.generateManifest dayStamp (Some snapshotDirectory) with
    | Some snapshots => snapshots
    | None => []
    end.

End Sample.


(* ================================================================== *)
(** * Part II: binary64 arithmetic *)
(* ================================================================== *)

(** The facts below are derived from the specification of the binary64
    operations ([SpecFloat]) that the primitive floats obey. *)

Import Binary64.

Unset Implicit Arguments.

Section Binary64Facts.

Local Open Scope Z_scope.

Lemma digits2_size m : digits2_pos m = Pos.size m.
Proof. induction m; simpl; congruence. Qed.

Lemma digits_upper m : Zpos m < 2 ^ Zpos (digits2_pos m).
Proof.
  rewrite digits2_size. generalize (Pos.size_gt m).
  rewrite <- Pos2Z.inj_pow. lia.
Qed.

Lemma digits_lower m : 2 ^ Zpos (digits2_pos m) <= 2 * Zpos m.
Proof.
  rewrite digits2_size. generalize (Pos.size_le m).
  rewrite <- Pos2Z.inj_pow. lia.
Qed.

(** What validity says of a finite datum. *)
Lemma bounded_inv m e :
  bounded prec emax m e = true ->
  emin <= e <= emax - prec /\
  Zpos (digits2_pos m) <= prec /\
  (emin < e -> Zpos (digits2_pos m) = prec).
Proof.
  unfold bounded, canonical_mantissa, fexp, SpecFloat.emin, prec, emax.
  rewrite andb_true_iff, Z.eqb_eq, Z.leb_le. lia.
Qed.

Lemma pow2_pos n : 0 < 2 ^ n \/ n < 0.
Proof. destruct (Z.le_gt_cases 0 n); [left; apply Z.pow_pos_nonneg; lia | right; lia]. Qed.

Lemma pow2_split a b : 0 <= a -> 0 <= b -> 2 ^ (a + b) = 2 ^ a * 2 ^ b.
Proof. intros. apply Z.pow_add_r; assumption. Qed.

(** Magnitudes of valid data compare as exponent, then mantissa. *)
Lemma magnitude_lt m1 e1 m2 e2 :
  bounded prec emax m1 e1 = true -> bounded prec emax m2 e2 = true ->
  e1 < e2 -> Zpos m1 * 2 ^ (e1 - emin) < Zpos m2 * 2 ^ (e2 - emin).
Proof.
  intros H1 H2 Hlt.
  apply bounded_inv in H1, H2.
  destruct H1 as (He1 & Hd1 & _), H2 as (He2 & _ & Hd2).
  assert (Hd: Zpos (digits2_pos m2) = prec) by (apply Hd2; lia).
  pose proof (digits_upper m1) as U. pose proof (digits_lower m2) as L.
  rewrite Hd in L.
  assert (U' : Zpos m1 < 2 ^ prec).
  { eapply Z.lt_le_trans; [exact U|]. apply Z.pow_le_mono_r; lia. }
  replace (e2 - emin) with ((e1 - emin) + (e2 - e1)) by lia.
  rewrite pow2_split by lia.
  assert (A : 0 < 2 ^ (e1 - emin)) by (apply Z.pow_pos_nonneg; lia).
  assert (B : 2 ^ 1 <= 2 ^ (e2 - e1)) by (apply Z.pow_le_mono_r; lia).
  change (2 ^ 1) with 2 in B.
  set (a := 2 ^ (e1 - emin)) in *. set (b := 2 ^ (e2 - e1)) in *.
  set (p := 2 ^ prec) in *. clearbody a b p.
  assert (Zpos m1 * a < p * a) by nia.
  assert (p * a <= 2 * Zpos m2 * a) by nia.
  assert (2 * Zpos m2 * a <= Zpos m2 * (a * b)) by nia.
  lia.
Qed.

Lemma magnitude_compare m1 e1 m2 e2 :
  bounded prec emax m1 e1 = true -> bounded prec emax m2 e2 = true ->
  match e1 ?= e2 with
  | Lt => Lt
  | Gt => Gt
  | Eq => Pos.compare_cont Eq m1 m2
  end = (Zpos m1 * 2 ^ (e1 - emin) ?= Zpos m2 * 2 ^ (e2 - emin)).
Proof.
  intros H1 H2. symmetry.
  destruct (Z.compare_spec e1 e2) as [E|E|E].
  - subst e2. pose proof (bounded_inv _ _ H1) as (He & _).
    assert (A : 0 < 2 ^ (e1 - emin)) by (apply Z.pow_pos_nonneg; lia).
    change (Pos.compare_cont Eq m1 m2) with (Zpos m1 ?= Zpos m2).
    destruct (Z.compare_spec (Zpos m1) (Zpos m2)) as [F|F|F].
    + rewrite F. apply Z.compare_refl.
    + apply Z.compare_lt_iff. nia.
    + apply Z.compare_gt_iff. nia.
  - apply Z.compare_lt_iff. apply magnitude_lt; assumption.
  - apply Z.compare_gt_iff. apply magnitude_lt; assumption.
Qed.

Lemma magnitude_pos m e :
  bounded prec emax m e = true -> 0 < Zpos m * 2 ^ (e - emin) < 2 ^ (emax - emin).
Proof.
  intros H. apply bounded_inv in H. destruct H as (He & Hd & _).
  pose proof (digits_upper m) as U.
  assert (U' : Zpos m < 2 ^ prec).
  { eapply Z.lt_le_trans; [exact U|]. apply Z.pow_le_mono_r; lia. }
  assert (A : 0 < 2 ^ (e - emin)) by (apply Z.pow_pos_nonneg; lia).
  split; [nia|].
  assert (B : 2 ^ (e - emin) <= 2 ^ (emax - prec - emin)) by (apply Z.pow_le_mono_r; lia).
  replace (emax - emin) with (prec + (emax - prec - emin)) by lia.
  rewrite pow2_split by (unfold prec, emax, SpecFloat.emin; lia).
  set (a := 2 ^ (e - emin)) in *. set (b := 2 ^ (emax - prec - emin)) in *.
  set (p := 2 ^ prec) in *. clearbody a b p.
  assert (Zpos m * a < p * a) by nia.
  assert (p * a <= p * b) by nia.
  lia.
Qed.

(** The order of valid data is the order of their scaled values. *)
Lemma compare_scaled x y :
  valid_binary x = true -> valid_binary y = true ->
  is_nan_sf x = false -> is_nan_sf y = false ->
  SFcompare x y = Some (scaled x ?= scaled y).
Proof.
  intros Vx Vy Nx Ny.
  assert (T : 0 < 2 ^ (emax - emin)) by (apply Z.pow_pos_nonneg; unfold emax, SpecFloat.emin, prec; lia).
  destruct x as [sx|sx| |sx mx ex], y as [sy|sy| |sy my ey]; try discriminate;
    simpl in Vx, Vy; unfold SFcompare, scaled.
  all: try (pose proof (magnitude_pos _ _ Vx) as Px).
  all: try (pose proof (magnitude_pos _ _ Vy) as Py).
  9: { destruct sx, sy; unfold cond_Zopp.
        - rewrite Z.compare_opp.
          rewrite <- (magnitude_compare my ey mx ex) by assumption.
          rewrite (Z.compare_antisym ey ex).
          destruct (ey ?= ex); simpl; try reflexivity.
          rewrite Pos.compare_cont_antisym. reflexivity.
        - symmetry. f_equal. apply Z.compare_lt_iff. lia.
        - symmetry. f_equal. apply Z.compare_gt_iff. lia.
        - rewrite magnitude_compare by assumption. reflexivity. }
  all: f_equal; symmetry.
  all: repeat match goal with s : bool |- _ => destruct s end; unfold cond_Zopp.
  all: first [ apply Z.compare_refl | apply Z.compare_lt_iff; lia | apply Z.compare_gt_iff; lia ].
Qed.


(** *** Shifting and rounding keep a positive mantissa positive *)

Lemma shr_1_m mrs : 0 <= shr_m mrs -> shr_m (shr_1 mrs) = shr_m mrs / 2.
Proof.
  rewrite <- Z.div2_div.
  destruct mrs as [m r s]; simpl. destruct m as [|[p|p|]|p]; simpl; intros; try reflexivity; lia.
Qed.

Lemma iter_shr_m n : forall mrs,
  0 <= shr_m mrs -> shr_m (iter_pos shr_1 n mrs) = shr_m mrs / 2 ^ Zpos n.
Proof.
  induction n as [n IH|n IH|]; intros mrs H; simpl iter_pos.
  - assert (H1 : 0 <= shr_m (shr_1 mrs)) by (rewrite shr_1_m by assumption; apply Z.div_pos; lia).
    assert (H2 : 0 <= shr_m (iter_pos shr_1 n (shr_1 mrs)))
      by (rewrite IH by assumption; apply Z.div_pos; [assumption | apply Z.pow_pos_nonneg; lia]).
    rewrite IH, IH, shr_1_m by assumption.
    assert (P : 0 < 2 ^ Zpos n) by (apply Z.pow_pos_nonneg; lia).
    rewrite !Z.div_div by lia. f_equal.
    replace (Zpos n~1) with (1 + Zpos n + Zpos n) by lia.
    rewrite !pow2_split by lia. change (2 ^ 1) with 2. lia.
  - assert (H2 : 0 <= shr_m (iter_pos shr_1 n mrs))
      by (rewrite IH by assumption; apply Z.div_pos; [assumption | apply Z.pow_pos_nonneg; lia]).
    rewrite IH, IH by assumption.
    assert (P : 0 < 2 ^ Zpos n) by (apply Z.pow_pos_nonneg; lia).
    rewrite Z.div_div by lia. f_equal.
    replace (Zpos n~0) with (Zpos n + Zpos n) by lia.
    rewrite pow2_split by lia. reflexivity.
  - rewrite shr_1_m by assumption. reflexivity.
Qed.

Lemma shr_record_of_loc_m m l : shr_m (shr_record_of_loc m l) = m.
Proof. destruct l as [|[]]; reflexivity. Qed.

Lemma shr_fexp_pos m e l :
  emin <= e ->
  0 < shr_m (fst (shr_fexp prec emax (Zpos m) e l)) /\
  emin <= snd (shr_fexp prec emax (Zpos m) e l).
Proof.
  intros He. unfold shr_fexp, shr. simpl Zdigits2.
  pose proof (digits_lower m) as L.
  set (d := Zpos (digits2_pos m)) in *.
  destruct (fexp prec emax (d + e) - e) as [|n|n] eqn:E; simpl fst; simpl snd;
    rewrite ?shr_record_of_loc_m; try (split; lia).
  rewrite iter_shr_m by (rewrite shr_record_of_loc_m; lia).
  rewrite shr_record_of_loc_m.
  unfold fexp in E.
  assert (Hn : Zpos n = d - prec) by lia.
  split; [|lia].
  apply Z.div_str_pos. split; [apply Z.pow_pos_nonneg; lia|].
  assert (2 * 2 ^ Zpos n <= 2 ^ d).
  { replace d with (1 + Zpos n + (prec - 1)) by lia.
    rewrite pow2_split, pow2_split by (unfold prec; lia). change (2 ^ 1) with 2.
    assert (0 < 2 ^ (prec - 1)) by (apply Z.pow_pos_nonneg; unfold prec; lia).
    assert (0 < 2 ^ Zpos n) by (apply Z.pow_pos_nonneg; lia).
    nia. }
  lia.
Qed.

Lemma round_nearest_even_pos m l : 0 < m -> 0 < round_nearest_even m l.
Proof.
  intros H. destruct l as [|[]]; simpl; try assumption; try lia.
  destruct (Z.even m); lia.
Qed.

Lemma binary_round_aux_signed s m e l :
  emin <= e -> signed s (binary_round_aux prec emax s (Zpos m) e l).
Proof.
  intros He. unfold binary_round_aux.
  pose proof (shr_fexp_pos m e l He) as [P1 E1].
  destruct (shr_fexp prec emax (Zpos m) e l) as [mrs' e'].
  simpl fst in P1; simpl snd in E1.
  pose proof (round_nearest_even_pos (shr_m mrs') (loc_of_shr_record mrs') P1) as R.
  destruct (round_nearest_even (shr_m mrs') (loc_of_shr_record mrs')) as [|r|r]; try lia.
  pose proof (shr_fexp_pos r e' loc_Exact E1) as [P2 E2].
  destruct (shr_fexp prec emax (Zpos r) e' loc_Exact) as [mrs'' e''].
  simpl fst in P2; simpl snd in E2.
  destruct (shr_m mrs'') as [|q|q]; try lia.
  destruct (e'' <=? emax - prec); reflexivity.
Qed.

Lemma binary_round_signed s m e :
  emin <= e -> signed s (binary_round prec emax s m e).
Proof.
  intros He. unfold binary_round, shl_align.
  set (f := fexp prec emax (Zpos (digits2_pos m) + e)).
  assert (Hf : emin <= f) by (unfold f, fexp; lia).
  destruct (f - e); apply binary_round_aux_signed; assumption.
Qed.


(** *** The sign of a difference and of a sum *)

Lemma iter_xO m d : Zpos (Pos.iter xO m d) = Zpos m * 2 ^ Zpos d.
Proof.
  induction d as [|d IH] using Pos.peano_ind.
  - simpl. lia.
  - rewrite Pos.iter_succ, Pos2Z.inj_xO, IH, Pos2Z.inj_succ.
    unfold Z.succ. rewrite pow2_split by lia. change (2 ^ 1) with 2. lia.
Qed.

Lemma shl_align_value m e ez :
  emin <= ez -> ez <= e ->
  Zpos (fst (shl_align m e ez)) * 2 ^ (ez - emin) = Zpos m * 2 ^ (e - emin).
Proof.
  intros H1 H2. unfold shl_align.
  destruct (ez - e) as [|d|d] eqn:E; simpl fst.
  - replace e with ez by lia. reflexivity.
  - lia.
  - rewrite iter_xO. replace (e - emin) with (Zpos d + (ez - emin)) by lia.
    rewrite pow2_split by lia. lia.
Qed.

Lemma mul_pow_sign a p : 0 < p -> (0 < a * p <-> 0 < a) /\ (a * p < 0 <-> a < 0) /\ (a * p = 0 <-> a = 0).
Proof. intros; nia. Qed.

Lemma aligned_value sx mx ex sy my ey :
  bounded prec emax mx ex = true -> bounded prec emax my ey = true ->
  forall op : Z -> Z -> Z,
  (forall a b c, op a b * c = op (a * c) (b * c)) ->
  op (cond_Zopp sx (Zpos (fst (shl_align mx ex (Z.min ex ey)))))
     (cond_Zopp sy (Zpos (fst (shl_align my ey (Z.min ex ey))))) * 2 ^ (Z.min ex ey - emin)
  = op (scaled (S754_finite sx mx ex)) (scaled (S754_finite sy my ey)).
Proof.
  intros Vx Vy op Hop. set (ez := Z.min ex ey).
  pose proof (bounded_inv _ _ Vx) as (Hx & _). pose proof (bounded_inv _ _ Vy) as (Hy & _).
  rewrite Hop. unfold scaled.
  rewrite <- (shl_align_value mx ex ez), <- (shl_align_value my ey ez) by (unfold ez; lia).
  destruct sx, sy; unfold cond_Zopp; rewrite ?Z.mul_opp_l; reflexivity.
Qed.

Lemma binary_normalize_sign D e :
  emin <= e ->
  match D with
  | Z0 => binary_normalize prec emax D e false = S754_zero false
  | Zpos _ => signed false (binary_normalize prec emax D e false)
  | Zneg _ => signed true (binary_normalize prec emax D e false)
  end.
Proof.
  intros He. destruct D; simpl binary_normalize; [reflexivity| |]; apply binary_round_signed; assumption.
Qed.

(** The difference of two valid data has the sign of their comparison. *)
Lemma SFsub_sign x y :
  valid_binary x = true -> valid_binary y = true ->
  match SFcompare x y with
  | Some Lt => signed true (SFsub prec emax x y)
  | Some Gt => signed false (SFsub prec emax x y)
  | Some Eq => is_nan_sf (SFsub prec emax x y) = true \/
               exists s, SFsub prec emax x y = S754_zero s
  | None => is_nan_sf (SFsub prec emax x y) = true
  end.
Proof.
  intros Vx Vy.
  destruct x as [sx|sx| |sx mx ex], y as [sy|sy| |sy my ey];
    try (simpl; repeat match goal with s : bool |- _ => destruct s end; simpl; eauto; fail).
  rewrite (compare_scaled _ _ Vx Vy) by reflexivity.
  simpl in Vx, Vy. unfold SFsub.
  pose proof (bounded_inv _ _ Vx) as (Hx & _). pose proof (bounded_inv _ _ Vy) as (Hy & _).
  pose proof (aligned_value sx mx ex sy my ey Vx Vy Z.sub ltac:(intros; lia)) as A.
  set (ez := Z.min ex ey) in *.
  assert (P : 0 < 2 ^ (ez - emin)) by (apply Z.pow_pos_nonneg; unfold ez; lia).
  set (D := cond_Zopp sx (Zpos (fst (shl_align mx ex ez))) - cond_Zopp sy (Zpos (fst (shl_align my ey ez)))) in *.
  pose proof (binary_normalize_sign D ez ltac:(unfold ez; lia)) as N.
  pose proof (mul_pow_sign D _ P) as (S1 & S2 & S3).
  rewrite A in S1, S2, S3.
  set (a := scaled (S754_finite sx mx ex)) in *. set (b := scaled (S754_finite sy my ey)) in *.
  clearbody a b. clear A.
  destruct (Z.compare_spec a b) as [E|E|E]; destruct D; try lia; eauto.
Qed.

(** A finite datum minus itself is [+0]. *)
Lemma SFsub_diag s m e :
  SFsub prec emax (S754_finite s m e) (S754_finite s m e) = S754_zero false.
Proof.
  unfold SFsub. rewrite Z.sub_diag. reflexivity.
Qed.

(** Adding a positive datum to a datum that is not negative gives a
    positive one. *)
Lemma SFadd_pos x y :
  valid_binary x = true -> valid_binary y = true ->
  signed false y -> (x = S754_zero false \/ signed false x) ->
  signed false (SFadd prec emax x y).
Proof.
  intros Vx Vy Sy [->|Sx].
  - destruct y; simpl in *; try contradiction; assumption.
  - destruct x as [sx|sx| |sx mx ex], y as [sy|sy| |sy my ey]; simpl in Sx, Sy; try contradiction;
      subst; try reflexivity.
    simpl in Vx, Vy. unfold SFadd.
    pose proof (bounded_inv _ _ Vx) as (Hx & _). pose proof (bounded_inv _ _ Vy) as (Hy & _).
    set (ez := Z.min ex ey).
    pose proof (binary_normalize_sign
      (cond_Zopp false (Zpos (fst (shl_align mx ex ez))) + cond_Zopp false (Zpos (fst (shl_align my ey ez))))
      ez ltac:(unfold ez; lia)) as N.
    simpl cond_Zopp in *.
    destruct (Zpos (fst (shl_align mx ex ez)) + Zpos (fst (shl_align my ey ez))) eqn:E; [lia|exact N|lia].
Qed.


(** *** Dividing by one *)

Lemma shr_fexp_canonical m e :
  bounded prec emax m e = true ->
  shr_fexp prec emax (Zpos m) e loc_Exact = (Build_shr_record (Zpos m) false false, e).
Proof.
  unfold bounded, canonical_mantissa. rewrite andb_true_iff, Z.eqb_eq. intros [C _].
  unfold shr_fexp. simpl Zdigits2. rewrite C, Z.sub_diag. reflexivity.
Qed.

Lemma binary_round_aux_canonical s m e :
  bounded prec emax m e = true ->
  binary_round_aux prec emax s (Zpos m) e loc_Exact = S754_finite s m e.
Proof.
  intros B. unfold binary_round_aux. rewrite (shr_fexp_canonical _ _ B).
  simpl shr_m. simpl loc_of_shr_record. simpl round_nearest_even.
  rewrite (shr_fexp_canonical _ _ B). simpl shr_m.
  apply bounded_inv in B. destruct B as ((_ & B) & _).
  apply Z.leb_le in B. rewrite B. reflexivity.
Qed.

Lemma div_eucl_exact a b q : 0 < b -> a = q * b -> Z.div_eucl a b = (q, 0).
Proof.
  intros Hb ->. pose proof (Z.div_mul q b ltac:(lia)) as Q. pose proof (Z.mod_mul q b ltac:(lia)) as R.
  unfold Z.div, Z.modulo in Q, R. destruct (Z.div_eucl (q * b) b). simpl in Q, R. congruence.
Qed.

Lemma SFdiv_one x :
  valid_binary x = true -> SFdiv prec emax x SFone = x.
Proof.
  intros V. destruct x as [s|s| |s m e]; unfold SFone; simpl; rewrite ?xorb_false_r; try reflexivity.
  simpl in V. pose proof (bounded_inv _ _ V) as (He & Hd & Hn).
  unfold SFdiv_core_binary.
  change (Zdigits2 4503599627370496) with prec. simpl Zdigits2.
  set (d := Zpos (digits2_pos m)) in *.
  destruct (Z.eq_dec e emin) as [E|E].
  - (* the least exponent: the quotient is the mantissa itself *)
    assert (F : Z.min (fexp prec emax (d + e - (prec + -52))) (e - -52) = e)
      by (unfold fexp, prec in *; lia).
    rewrite F. replace (e - -52 - e) with 52 by lia.
    rewrite (div_eucl_exact (Z.shiftl (Zpos m) 52) 4503599627370496 (Zpos m))
      by (rewrite ?Z.shiftl_mul_pow2; lia).
    change (new_location 4503599627370496 0) with loc_Exact.
    apply binary_round_aux_canonical. exact V.
  - (* a full mantissa: the quotient has one more bit, shifted out exactly *)
    assert (D : d = prec) by (apply Hn; lia).
    assert (F : Z.min (fexp prec emax (d + e - (prec + -52))) (e - -52) = e - 1)
      by (unfold fexp, prec in *; lia).
    rewrite F. replace (e - -52 - (e - 1)) with 53 by lia.
    rewrite (div_eucl_exact (Z.shiftl (Zpos m) 53) 4503599627370496 (Zpos m~0))
      by (rewrite ?Z.shiftl_mul_pow2; lia).
    change (new_location 4503599627370496 0) with loc_Exact.
    unfold binary_round_aux.
    assert (S1 : shr_fexp prec emax (Zpos m~0) (e - 1) loc_Exact
                 = (Build_shr_record (Zpos m) false false, e)).
    { unfold shr_fexp. simpl Zdigits2. fold d.
      replace (fexp prec emax (Zpos (Pos.succ (digits2_pos m)) + (e - 1)) - (e - 1)) with 1
        by (unfold fexp; rewrite Pos2Z.inj_succ; fold d; unfold prec in *; lia).
      simpl. f_equal. lia. }
    rewrite S1. simpl shr_m. simpl loc_of_shr_record. simpl round_nearest_even.
    rewrite (shr_fexp_canonical _ _ V). simpl shr_m.
    destruct He as (_ & B). apply Z.leb_le in B. rewrite B. reflexivity.
Qed.


Lemma SFadd_zero_r x s :
  is_nan_sf x = false ->
  is_nan_sf (SFadd prec emax x (S754_zero s)) = false /\
  scaled (SFadd prec emax x (S754_zero s)) = scaled x.
Proof.
  destruct x as [sx|sx| |sx mx ex]; try discriminate; intros _; simpl;
    repeat match goal with b : bool |- _ => destruct b end; simpl; auto.
Qed.

(** ** The order and the arithmetic of numbers *)

Local Open Scope float_scope.


Lemma SF_zero : Prim2SF 0 = S754_zero false.
Proof. reflexivity. Qed.

Lemma SF_one : Prim2SF 1 = SFone.
Proof. reflexivity. Qed.

Lemma is_nan_SF x : is_nan x = is_nan_sf (Prim2SF x).
Proof.
  unfold is_nan. rewrite eqb_spec. unfold SFeqb.
  destruct (is_nan_sf (Prim2SF x)) eqn:N.
  - destruct (Prim2SF x); try discriminate. reflexivity.
  - rewrite compare_scaled by (try apply Prim2SF_valid; assumption).
    rewrite Z.compare_refl. reflexivity.
Qed.

(** Comparisons of numbers are comparisons of their keys, and false as
    soon as one of them is NaN. *)
Lemma compare_key x y :
  SFcompare (Prim2SF x) (Prim2SF y) =
  if is_nan x || is_nan y then None else Some (key x ?= key y)%Z.
Proof.
  rewrite !is_nan_SF.
  destruct (is_nan_sf (Prim2SF x)) eqn:Nx.
  - destruct (Prim2SF x); try discriminate. reflexivity.
  - destruct (is_nan_sf (Prim2SF y)) eqn:Ny.
    + destruct (Prim2SF y); try discriminate. destruct (Prim2SF x); reflexivity.
    + simpl. apply compare_scaled; try apply Prim2SF_valid; assumption.
Qed.

Lemma ltb_key x y :
  (x <? y) = negb (is_nan x || is_nan y) && (key x <? key y)%Z.
Proof.
  rewrite ltb_spec. unfold SFltb. rewrite compare_key.
  destruct (is_nan x || is_nan y); [reflexivity|]. unfold Z.ltb.
  destruct (key x ?= key y)%Z; reflexivity.
Qed.

Lemma leb_key x y :
  (x <=? y) = negb (is_nan x || is_nan y) && (key x <=? key y)%Z.
Proof.
  rewrite leb_spec. unfold SFleb. rewrite compare_key.
  destruct (is_nan x || is_nan y); [reflexivity|]. unfold Z.leb.
  destruct (key x ?= key y)%Z; reflexivity.
Qed.

Lemma eqb_key x y :
  (x =? y) = negb (is_nan x || is_nan y) && (key x =? key y)%Z.
Proof.
  rewrite eqb_spec. unfold SFeqb. rewrite compare_key.
  destruct (is_nan x || is_nan y); [reflexivity|]. simpl.
  destruct (Z.eqb_spec (key x) (key y)) as [E|E].
  - rewrite E, Z.compare_refl. reflexivity.
  - destruct (key x ?= key y)%Z eqn:C; try reflexivity.
    apply Z.compare_eq in C. contradiction.
Qed.

Lemma signed_key s x :
  signed s (Prim2SF x) ->
  is_nan x = false /\ (if s then key x < 0 else 0 < key x)%Z.
Proof.
  rewrite is_nan_SF. unfold key. intros S.
  pose proof (Prim2SF_valid x) as V.
  assert (T : (0 < 2 ^ (emax - emin))%Z) by (apply Z.pow_pos_nonneg; unfold emax, SpecFloat.emin, prec; lia).
  destruct (Prim2SF x) as [| | |s' m e]; simpl in S; try contradiction; subst; split; try reflexivity.
  - destruct s; unfold scaled, cond_Zopp; lia.
  - simpl in V. pose proof (magnitude_pos _ _ V). destruct s; unfold scaled, cond_Zopp; lia.
Qed.

(** The sign of a difference is the comparison of its terms: this holds
    of all numbers, NaN and the infinities included. *)
Theorem sub_neg x y : (x - y <? 0) = (x <? y).
Proof.
  pose proof (SFsub_sign (Prim2SF x) (Prim2SF y) (Prim2SF_valid x) (Prim2SF_valid y)) as S.
  fold SF64sub in S. rewrite <- sub_spec in S.
  rewrite (ltb_key x y), (ltb_key (x - y) 0).
  rewrite compare_key in S.
  change (is_nan 0) with false. change (key 0) with 0%Z. rewrite orb_false_r.
  destruct (is_nan x || is_nan y).
  - rewrite <- is_nan_SF in S. rewrite S. reflexivity.
  - simpl. destruct (Z.compare_spec (key x) (key y)) as [E|E|E].
    + rewrite <- is_nan_SF in S. destruct S as [S|[s S]].
      * rewrite S. simpl. symmetry. apply Z.ltb_ge. lia.
      * rewrite is_nan_SF. unfold key at 1. rewrite S. simpl. symmetry. apply Z.ltb_ge. lia.
    + apply signed_key in S. destruct S as [S1 S2]. rewrite S1. simpl.
      transitivity true; [apply Z.ltb_lt; lia | symmetry; apply Z.ltb_lt; lia].
    + apply signed_key in S. destruct S as [S1 S2]. rewrite S1. simpl.
      transitivity false; [apply Z.ltb_ge; lia | symmetry; apply Z.ltb_ge; lia].
Qed.

Theorem sub_pos x y : (0 <? x - y) = (y <? x).
Proof.
  pose proof (SFsub_sign (Prim2SF x) (Prim2SF y) (Prim2SF_valid x) (Prim2SF_valid y)) as S.
  fold SF64sub in S. rewrite <- sub_spec in S.
  rewrite (ltb_key y x), (ltb_key 0 (x - y)).
  rewrite compare_key in S.
  change (is_nan 0) with false. change (key 0) with 0%Z. rewrite (orb_comm (is_nan y)). simpl orb.
  destruct (is_nan x || is_nan y).
  - rewrite <- is_nan_SF in S. rewrite S. reflexivity.
  - simpl. destruct (Z.compare_spec (key x) (key y)) as [E|E|E].
    + rewrite <- is_nan_SF in S. destruct S as [S|[s S]].
      * rewrite S. simpl. symmetry. apply Z.ltb_ge. lia.
      * rewrite is_nan_SF. unfold key at 1. rewrite S. simpl. symmetry. apply Z.ltb_ge. lia.
    + apply signed_key in S. destruct S as [S1 S2]. rewrite S1. simpl.
      transitivity false; [apply Z.ltb_ge; lia | symmetry; apply Z.ltb_ge; lia].
    + apply signed_key in S. destruct S as [S1 S2]. rewrite S1. simpl.
      transitivity true; [apply Z.ltb_lt; lia | symmetry; apply Z.ltb_lt; lia].
Qed.

End Binary64Facts.

Section NumberFacts.

Local Open Scope float_scope.

Lemma ltb_true x y :
  (x <? y) = true -> is_nan x = false /\ is_nan y = false /\ (key x < key y)%Z.
Proof.
  rewrite ltb_key. intros H. apply andb_true_iff in H. destruct H as [N H].
  apply negb_true_iff, orb_false_iff in N. apply Z.ltb_lt in H. tauto.
Qed.

Lemma leb_true x y :
  (x <=? y) = true -> is_nan x = false /\ is_nan y = false /\ (key x <= key y)%Z.
Proof.
  rewrite leb_key. intros H. apply andb_true_iff in H. destruct H as [N H].
  apply negb_true_iff, orb_false_iff in N. apply Z.leb_le in H. tauto.
Qed.

Lemma eqb_true x y :
  (x =? y) = true -> is_nan x = false /\ is_nan y = false /\ key x = key y.
Proof.
  rewrite eqb_key. intros H. apply andb_true_iff in H. destruct H as [N H].
  apply negb_true_iff, orb_false_iff in N. apply Z.eqb_eq in H. tauto.
Qed.

Lemma ltb_intro x y :
  is_nan x = false -> is_nan y = false -> (key x < key y)%Z -> (x <? y) = true.
Proof. intros Nx Ny H. rewrite ltb_key, Nx, Ny. apply Z.ltb_lt. exact H. Qed.

Lemma leb_intro x y :
  is_nan x = false -> is_nan y = false -> (key x <= key y)%Z -> (x <=? y) = true.
Proof. intros Nx Ny H. rewrite leb_key, Nx, Ny. apply Z.leb_le. exact H. Qed.

Lemma eqb_intro x y :
  is_nan x = false -> is_nan y = false -> key x = key y -> (x =? y) = true.
Proof. intros Nx Ny H. rewrite eqb_key, Nx, Ny. apply Z.eqb_eq. exact H. Qed.

Lemma ltb_false x y :
  is_nan x = false -> is_nan y = false -> (x <? y) = false -> (key y <= key x)%Z.
Proof. intros Nx Ny. rewrite ltb_key, Nx, Ny. simpl. intros H. apply Z.ltb_ge. exact H. Qed.

Lemma leb_false x y :
  is_nan x = false -> is_nan y = false -> (x <=? y) = false -> (key y < key x)%Z.
Proof. intros Nx Ny. rewrite leb_key, Nx, Ny. simpl. intros H. apply Z.leb_gt. exact H. Qed.

(** A datum whose key is 0 is one of the two zeros. *)
Lemma key_zero x :
  is_nan x = false -> key x = 0%Z -> x = 0 \/ x = (-0).
Proof.
  rewrite is_nan_SF. unfold key. intros N K.
  pose proof (Prim2SF_valid x) as V.
  rewrite <- (SF2Prim_Prim2SF x).
  assert (T : (0 < 2 ^ (emax - emin))%Z)
    by (apply Z.pow_pos_nonneg; unfold emax, SpecFloat.emin, prec; lia).
  destruct (Prim2SF x) as [s|s| |s m e]; try discriminate.
  - destruct s; [right|left]; reflexivity.
  - destruct s; unfold scaled, cond_Zopp in K; lia.
  - simpl in V. pose proof (magnitude_pos _ _ V).
    destruct s; unfold scaled, cond_Zopp in K; lia.
Qed.

(** A finite number is a zero or has a mantissa and an exponent. *)
Lemma finite_SF x :
  is_finite x = true ->
  (exists s, Prim2SF x = S754_zero s) \/ (exists s m e, Prim2SF x = S754_finite s m e).
Proof.
  unfold is_finite, is_infinity. rewrite negb_true_iff, orb_false_iff.
  rewrite is_nan_SF, eqb_spec, abs_spec. intros [N I].
  destruct (Prim2SF x) as [s|s| |s m e]; try discriminate; eauto.
Qed.

Theorem div_one x : x / 1 = x.
Proof.
  apply Prim2SF_inj. rewrite div_spec, SF_one. apply SFdiv_one, Prim2SF_valid.
Qed.

Theorem sub_diag x : is_finite x = true -> x - x = 0.
Proof.
  intros F. apply Prim2SF_inj. rewrite sub_spec, SF_zero. unfold SF64sub.
  destruct (finite_SF x F) as [[s E]|(s & m & e & E)]; rewrite E.
  - destruct s; reflexivity.
  - apply SFsub_diag.
Qed.

(** Adding a zero leaves the value of a number as it is. *)
Theorem add_zero x z :
  is_nan x = false -> (z =? 0) = true ->
  is_nan (x + z) = false /\ key (x + z) = key x.
Proof.
  intros Nx Hz. apply eqb_true in Hz. destruct Hz as (Nz & _ & Kz).
  change (key 0) with 0%Z in Kz.
  rewrite !is_nan_SF in *. unfold key. rewrite add_spec. unfold SF64add.
  assert (Z : exists s, Prim2SF z = S754_zero s).
  { destruct (key_zero z) as [->| ->]; rewrite ?is_nan_SF; try assumption;
      [exists false | exists true]; reflexivity. }
  destruct Z as [s ->]. apply SFadd_zero_r. exact Nx.
Qed.

Theorem zero_add x : is_finite x = true -> (0 + x =? x) = true /\ (x = (-0) \/ 0 + x = x).
Proof.
  intros F. destruct (finite_SF x F) as [[s E]|(s & m & e & E)].
  - assert (X : x = SF2Prim (S754_zero s)) by (rewrite <- E; symmetry; apply SF2Prim_Prim2SF).
    destruct s; subst x; simpl; split; auto.
  - assert (A : 0 + x = x).
    { apply Prim2SF_inj. rewrite add_spec, SF_zero, E. reflexivity. }
    rewrite A. split; [|auto]. apply eqb_intro; try reflexivity;
      rewrite is_nan_SF, E; reflexivity.
Qed.

(** *** [Math.max] and [Math.min] *)

Lemma Math_max_not_negative x : (Js.Math_max x 0 <? 0) = false.
Proof.
  unfold Js.Math_max.
  destruct (is_nan x || is_nan 0); [reflexivity|].
  destruct (x <? 0) eqn:A; [reflexivity|].
  destruct (0 <? x); [exact A|].
  destruct (get_sign x); [reflexivity|exact A].
Qed.

Lemma Math_max_of_negative x : (x <? 0) = true -> Js.Math_max x 0 = 0.
Proof.
  intros H. unfold Js.Math_max. destruct (ltb_true _ _ H) as (N & _ & _).
  rewrite N, H. reflexivity.
Qed.

Lemma Math_max_of_positive x : (0 <? x) = true -> Js.Math_max x 0 = x.
Proof.
  intros H. unfold Js.Math_max. destruct (ltb_true _ _ H) as (_ & N & K).
  rewrite N. simpl.
  replace (x <? 0) with false; [rewrite H; reflexivity|].
  symmetry. rewrite ltb_key, N. simpl. apply Z.ltb_ge. lia.
Qed.

Lemma Math_max_of_zero x : (x =? 0) = true -> Js.Math_max x 0 = 0.
Proof.
  intros H. destruct (eqb_true _ _ H) as (N & _ & K).
  destruct (key_zero x N K) as [->| ->]; reflexivity.
Qed.

Lemma Math_min_of_less p d : (p <? d) = true -> Js.Math_min p d = p.
Proof.
  intros H. unfold Js.Math_min. destruct (ltb_true _ _ H) as (Np & Nd & _).
  rewrite Np, Nd, H. reflexivity.
Qed.

Lemma Math_min_of_greater p d : (d <? p) = true -> Js.Math_min p d = d.
Proof.
  intros H. unfold Js.Math_min. destruct (ltb_true _ _ H) as (Nd & Np & K).
  rewrite Np, Nd. simpl.
  replace (p <? d) with false; [rewrite H; reflexivity|].
  symmetry. rewrite ltb_key, Np, Nd. simpl. apply Z.ltb_ge. lia.
Qed.

Lemma Math_min_of_equal p d :
  (p =? d) = true -> (Js.Math_min p d =? p) = true.
Proof.
  intros H. unfold Js.Math_min. destruct (eqb_true _ _ H) as (Np & Nd & K).
  rewrite Np, Nd. simpl.
  replace (p <? d) with false by (symmetry; rewrite ltb_key, Np, Nd; simpl; apply Z.ltb_ge; lia).
  replace (d <? p) with false by (symmetry; rewrite ltb_key, Np, Nd; simpl; apply Z.ltb_ge; lia).
  destruct (get_sign p); apply eqb_intro; auto.
Qed.

End NumberFacts.

Section MoreNumberFacts.

Local Open Scope float_scope.

Lemma SFsub_not_nan x y :
  valid_binary x = true -> valid_binary y = true ->
  is_nan_sf y = false ->
  ((exists s, x = S754_zero s) \/ (exists s m e, x = S754_finite s m e)) ->
  is_nan_sf (SFsub prec emax x y) = false.
Proof.
  intros Vx Vy Ny [[s ->]|(s & m & e & ->)];
    destruct y as [sy|sy| |sy my ey]; try discriminate;
    try (simpl; repeat match goal with b : bool |- _ => destruct b end; reflexivity).
  simpl in Vx, Vy. unfold SFsub.
  pose proof (bounded_inv _ _ Vx) as (Hx & _). pose proof (bounded_inv _ _ Vy) as (Hy & _).
  set (ez := Z.min e ey).
  set (D := (cond_Zopp s (Zpos (fst (shl_align m e ez))) -
             cond_Zopp sy (Zpos (fst (shl_align my ey ez))))%Z).
  pose proof (binary_normalize_sign D ez ltac:(unfold ez; lia)) as N.
  destruct D; [rewrite N; reflexivity| |];
    destruct (binary_normalize prec emax _ ez false); simpl in N; try contradiction; reflexivity.
Qed.

Theorem sub_not_nan x y :
  is_finite x = true -> is_nan y = false -> is_nan (x - y) = false.
Proof.
  intros F N. rewrite is_nan_SF in *. rewrite sub_spec.
  apply SFsub_not_nan; try apply Prim2SF_valid; try assumption.
  apply finite_SF. exact F.
Qed.

(** The difference of two equal finite numbers is a zero. *)
Theorem sub_equal x y :
  is_finite x = true -> (x =? y) = true -> (x - y =? 0) = true.
Proof.
  intros F E. destruct (eqb_true _ _ E) as (Nx & Ny & K).
  pose proof (sub_not_nan x y F Ny) as N.
  pose proof (sub_neg x y) as A. pose proof (sub_pos x y) as B.
  rewrite (ltb_key x y), Nx, Ny in A. rewrite (ltb_key y x), Nx, Ny in B. simpl in A, B.
  assert (A' : (x - y <? 0) = false) by (rewrite A; apply Z.ltb_ge; lia).
  assert (B' : (0 <? x - y) = false) by (rewrite B; apply Z.ltb_ge; lia).
  apply ltb_false in A'; try assumption; try reflexivity.
  apply ltb_false in B'; try assumption; try reflexivity.
  apply eqb_intro; try assumption; try reflexivity. lia.
Qed.

(** Subtracting a zero from a positive number, or adding it to a zero,
    gives the number back. *)
Theorem sub_zero_r x z : (0 <? x) = true -> (z =? 0) = true -> x - z = x.
Proof.
  intros P Z. destruct (ltb_true _ _ P) as (_ & Nx & Kx).
  destruct (eqb_true _ _ Z) as (Nz & _ & Kz). change (key 0) with 0%Z in Kx, Kz.
  apply Prim2SF_inj. rewrite sub_spec. unfold SF64sub.
  rewrite is_nan_SF in Nx. unfold key in Kx.
  destruct (key_zero z Nz Kz) as [->| ->];
    destruct (Prim2SF x) as [s|s| |s m e]; try discriminate; try reflexivity;
    simpl in Kx; lia.
Qed.

Theorem add_zero_l x z : (0 <? x) = true -> (z =? 0) = true -> z + x = x.
Proof.
  intros P Z. destruct (ltb_true _ _ P) as (_ & Nx & Kx).
  destruct (eqb_true _ _ Z) as (Nz & _ & Kz). change (key 0) with 0%Z in Kx, Kz.
  apply Prim2SF_inj. rewrite add_spec. unfold SF64add.
  rewrite is_nan_SF in Nx. unfold key in Kx.
  destruct (key_zero z Nz Kz) as [->| ->];
    destruct (Prim2SF x) as [s|s| |s m e]; try discriminate; try reflexivity;
    simpl in Kx; lia.
Qed.

Lemma finite_not_nan x : is_finite x = true -> is_nan x = false.
Proof.
  unfold is_finite. rewrite negb_true_iff, orb_false_iff. tauto.
Qed.

Lemma positive_signed x : (0 <? x) = true -> signed false (Prim2SF x).
Proof.
  intros P. destruct (ltb_true _ _ P) as (_ & N & K). change (key 0) with 0%Z in K.
  rewrite is_nan_SF in N. unfold key in K. pose proof (Prim2SF_valid x) as V.
  assert (T : (0 < 2 ^ (emax - emin))%Z)
    by (apply Z.pow_pos_nonneg; unfold emax, SpecFloat.emin, prec; lia).
  destruct (Prim2SF x) as [s|s| |s m e]; try discriminate; simpl.
  - destruct s; [unfold scaled, cond_Zopp in K; lia|reflexivity].
  - simpl in V. pose proof (magnitude_pos _ _ V).
    destruct s; [unfold scaled, cond_Zopp in K; lia|reflexivity].
Qed.

(** The sum of two positive numbers is positive (or [Infinity]). *)
Theorem add_positive x y : (0 <? x) = true -> (0 <? y) = true -> (0 <? x + y) = true.
Proof.
  intros Px Py.
  pose proof (SFadd_pos (Prim2SF x) (Prim2SF y) (Prim2SF_valid x) (Prim2SF_valid y)
                (positive_signed y Py) (or_intror (positive_signed x Px))) as S.
  fold SF64add in S. rewrite <- add_spec in S.
  apply signed_key in S. destruct S as (N & K).
  apply ltb_intro; try assumption; reflexivity.
Qed.

Theorem add_nan x y : is_nan x = true \/ is_nan y = true -> is_nan (x + y) = true.
Proof.
  rewrite !is_nan_SF, add_spec. unfold SF64add.
  intros [H|H]; destruct (Prim2SF x), (Prim2SF y); try discriminate; reflexivity.
Qed.

End MoreNumberFacts.

(* ================================================================== *)
(** * Part III: arrays *)
(* ================================================================== *)

Section SortFacts.

Variable A : Type.
Variable comparefn : A -> A -> float.

Lemma sort_insert_perm x l : Permutation (sort_insert comparefn x l) (x :: l).
Proof.
  induction l as [|y l IH]; simpl.
  - apply Permutation_refl.
  - destruct (0 <? comparefn y x)%float.
    + eapply Permutation_trans; [apply perm_skip, IH | apply perm_swap].
    + apply Permutation_refl.
Qed.

Lemma sort_fold_perm l : forall acc,
  Permutation (fold_left (fun acc x => sort_insert comparefn x acc) l acc) (acc ++ l).
Proof.
  induction l as [|x l IH]; intros acc; simpl.
  - rewrite app_nil_r. apply Permutation_refl.
  - eapply Permutation_trans; [apply IH|].
    eapply Permutation_trans; [apply Permutation_app_tail, sort_insert_perm|].
    simpl. apply Permutation_cons_app. apply Permutation_refl.
Qed.

(** Sorting rearranges: nothing is lost, added or repeated. *)
Theorem Array_sort_perm l : Permutation (Array_sort comparefn l) l.
Proof.
  unfold Array_sort. eapply Permutation_trans; [apply Permutation_sym, Permutation_rev|].
  apply (sort_fold_perm l []).
Qed.

Lemma Array_sort_length l : length (Array_sort comparefn l) = length l.
Proof. apply Permutation_length, Array_sort_perm. Qed.

Lemma Array_sort_In x l : In x (Array_sort comparefn l) <-> In x l.
Proof.
  split; apply Permutation_in; [|apply Permutation_sym]; apply Array_sort_perm.
Qed.

(** With a comparator that is consistent on the elements at hand, the
    outcome is in order. *)
Variable P : A -> Prop.
Variable R : A -> A -> Prop.
Hypothesis after_R : forall x y, P x -> P y -> (0 <? comparefn y x)%float = true -> R x y.
Hypothesis before_R : forall x y, P x -> P y -> (0 <? comparefn y x)%float = false -> R y x.

Lemma sort_insert_sorted x l :
  P x -> Forall P l -> Sorted (fun a b => R b a) l ->
  Sorted (fun a b => R b a) (sort_insert comparefn x l).
Proof.
  intros Px Pl S. induction S as [|y l S IH H]; simpl.
  - repeat constructor.
  - inversion Pl as [|? ? Py Pl']; subst.
    destruct (0 <? comparefn y x)%float eqn:C.
    + constructor; [apply IH; assumption|].
      destruct l as [|z l]; simpl.
      * constructor. apply after_R; assumption.
      * destruct (0 <? comparefn z x)%float.
        -- inversion H; subst. constructor. assumption.
        -- constructor. apply after_R; assumption.
    + constructor; [constructor; assumption|]. constructor. apply before_R; assumption.
Qed.

Lemma sort_fold_sorted l : forall acc,
  Forall P l -> Forall P acc -> Sorted (fun a b => R b a) acc ->
  Sorted (fun a b => R b a) (fold_left (fun acc x => sort_insert comparefn x acc) l acc).
Proof.
  induction l as [|x l IH]; intros acc Pl Pa S; simpl.
  - exact S.
  - inversion Pl; subst. apply IH; try assumption.
    + eapply Permutation_Forall; [apply Permutation_sym, sort_insert_perm|].
      constructor; assumption.
    + apply sort_insert_sorted; assumption.
Qed.

Lemma Sorted_snoc (Q : A -> A -> Prop) l x :
  Sorted Q l -> (forall y, hd_error (rev l) = Some y -> Q y x) -> Sorted Q (l ++ [x]).
Proof.
  induction l as [|a l IH]; intros S H; simpl.
  - repeat constructor.
  - inversion S as [|? ? S' Hd]; subst. constructor.
    + apply IH; [exact S'|]. intros y Hy. apply H. simpl.
      destruct (rev l) as [|b r] eqn:E; [discriminate|]. simpl in *. exact Hy.
    + destruct l as [|b l]; simpl.
      * constructor. apply H. reflexivity.
      * inversion Hd; subst. constructor. assumption.
Qed.

Lemma Sorted_rev (Q : A -> A -> Prop) l :
  Sorted (fun a b => Q b a) l -> Sorted Q (rev l).
Proof.
  induction l as [|a l IH]; intros S; simpl.
  - constructor.
  - inversion S as [|? ? S' Hd]; subst. apply Sorted_snoc; [apply IH; exact S'|].
    intros y Hy. rewrite rev_involutive in Hy. destruct l as [|b l]; [discriminate|].
    injection Hy as <-. inversion Hd; subst. assumption.
Qed.

Theorem Array_sort_sorted l : Forall P l -> Sorted R (Array_sort comparefn l).
Proof.
  intros H. apply Sorted_rev. apply sort_fold_sorted; [assumption|constructor|constructor].
Qed.

End SortFacts.

(* ================================================================== *)
(** * Part IV: the power attribution *)
(* ================================================================== *)

Section Attribution.

Local Open Scope float_scope.

(** Every element of [poolPowerCorrelation] is [correlate] applied to a
    profile of [addressPoolProfiles], with a positive power. *)
Lemma poolPowerCorrelation_In balances powerVoting c :
  In c (Store.poolPowerCorrelation balances powerVoting) ->
  (exists profile,
     In profile (Store.addressPoolProfiles balances) /\
     c = Store.correlate (Store.powerMap powerVoting) profile) /\
  (0 <? PoolPowerCorrelation.powerVoting c) = true.
Proof.
  unfold Store.poolPowerCorrelation.
  destruct (Store.addressPoolProfiles balances) as [|p ps] eqn:E; [contradiction|].
  destruct powerVoting as [|v vs] eqn:V; [contradiction|]. rewrite <- V. clear V.
  rewrite Array_sort_In, filter_In, in_map_iff.
  intros [(profile & <- & H) F]. split; [|exact F]. exists profile. auto.
Qed.

(** C2. For every wallet [walletDirectREG] is
    [Math.max(walletREG - poolLiquidityREG, 0)]: it is never negative, and it
    is exactly 0 whenever the pool liquidity exceeds the wallet's total.
    This holds of every profile, and so of every element of
    [poolPowerCorrelation]. *)
Theorem walletDirectREG_clamped (m : Dict float) (profile : AddressPoolProfile.t)
  (balances : list BalanceData.t) (powerVoting : list PowerVotingData.t) :
  (let c := Store.correlate m profile in
   PoolPowerCorrelation.walletDirectREG c =
     Js.Math_max
       (AddressPoolProfile.walletREG profile - AddressPoolProfile.poolLiquidityREG profile) 0
   /\ (PoolPowerCorrelation.walletDirectREG c <? 0) = false
   /\ ((AddressPoolProfile.walletREG profile <? AddressPoolProfile.poolLiquidityREG profile)
         = true -> PoolPowerCorrelation.walletDirectREG c = 0))
  /\ (forall c, In c (Store.poolPowerCorrelation balances powerVoting) ->
        (PoolPowerCorrelation.walletDirectREG c <? 0) = false /\
        ((AddressPoolProfile.walletREG (PoolPowerCorrelation.profile c)
            <? PoolPowerCorrelation.poolLiquidityREG c) = true ->
         PoolPowerCorrelation.walletDirectREG c = 0)).
Proof.
  split.
  - simpl. split; [reflexivity|]. split.
    + apply Math_max_not_negative.
    + intros H. apply Math_max_of_negative. rewrite sub_neg. exact H.
  - intros c H. apply poolPowerCorrelation_In in H. destruct H as [(p & _ & ->) _].
    simpl. split.
    + apply Math_max_not_negative.
    + intros H. apply Math_max_of_negative. rewrite sub_neg. exact H.
Qed.

(** The two shares of a power [p] against a direct holding [d]. *)
Lemma shares_when_covered p d :
  is_finite p = true -> (p <=? d) = true ->
  (Js.Math_min p d + Js.Math_max (p - d) 0 =? p) = true.
Proof.
  intros F L. destruct (leb_true _ _ L) as (Np & Nd & K).
  destruct (Z.eq_dec (key p) (key d)) as [E|E].
  - assert (Q : (p =? d) = true) by (apply eqb_intro; assumption).
    rewrite (Math_max_of_zero _ (sub_equal p d F Q)).
    destruct (eqb_true _ _ (Math_min_of_equal p d Q)) as (Nm & _ & Km).
    destruct (add_zero (Js.Math_min p d) 0 Nm eq_refl) as (Ns & Ks).
    apply eqb_intro; try assumption. congruence.
  - assert (Q : (p <? d) = true) by (apply ltb_intro; try assumption; lia).
    rewrite (Math_min_of_less _ _ Q).
    rewrite Math_max_of_negative by (rewrite sub_neg; exact Q).
    destruct (add_zero p 0 Np eq_refl) as (Ns & Ks).
    apply eqb_intro; assumption.
Qed.

Lemma shares_when_direct_is_zero p d :
  (0 <=? p) = true -> (d =? 0) = true ->
  (Js.Math_min p d + Js.Math_max (p - d) 0 =? p) = true.
Proof.
  intros P Z. destruct (leb_true _ _ P) as (_ & Np & Kp).
  destruct (eqb_true _ _ Z) as (Nd & _ & Kd). change (key 0) with 0%Z in Kp, Kd.
  destruct (Z.eq_dec (key p) 0) as [E|E].
  - destruct (key_zero p Np E) as [->| ->]; destruct (key_zero d Nd Kd) as [->| ->]; reflexivity.
  - assert (Q : (0 <? p) = true)
      by (apply ltb_intro; try assumption; try reflexivity; change (key 0) with 0%Z; lia).
    assert (Q' : (d <? p) = true) by (apply ltb_intro; try assumption; lia).
    rewrite (Math_min_of_greater _ _ Q'), (sub_zero_r _ _ Q Z), (Math_max_of_positive _ Q).
    rewrite (add_zero_l _ _ Q Z). apply eqb_intro; auto.
Qed.

Lemma shares_when_exceeding p d :
  (d <? p) = true -> Js.Math_min p d + Js.Math_max (p - d) 0 = d + (p - d).
Proof.
  intros Q. rewrite (Math_min_of_greater _ _ Q).
  rewrite Math_max_of_positive by (rewrite sub_pos; exact Q). reflexivity.
Qed.

(** C1, as the code has it.  The two shares add up to the power whenever
    the (finite) power does not exceed [walletDirectREG], and whenever
    [walletDirectREG] is 0; when the power exceeds a direct holding the
    sum is the binary64 value of
    [walletDirectREG + (power - walletDirectREG)], which is the power up to
    the rounding of these two operations. *)
Theorem shares_sum (m : Dict float) (profile : AddressPoolProfile.t) :
  let c := Store.correlate m profile in
  let power := PoolPowerCorrelation.powerVoting c in
  let direct := PoolPowerCorrelation.walletDirectREG c in
  let sum := PoolPowerCorrelation.walletVotingShare c + PoolPowerCorrelation.poolVotingShare c in
  (is_finite power = true -> (power <=? direct) = true -> (sum =? power) = true) /\
  ((0 <=? power) = true -> (direct =? 0) = true -> (sum =? power) = true) /\
  ((direct <? power) = true -> sum = direct + (power - direct)).
Proof.
  simpl. split; [|split].
  - apply shares_when_covered.
  - apply shares_when_direct_is_zero.
  - apply shares_when_exceeding.
Qed.

End Attribution.

Section Correlation.

Local Open Scope float_scope.

Lemma walletProfile_cases wallet :
  match Store.walletProfile wallet with
  | Some p =>
      survivingPositions wallet <> [] /\
      AddressPoolProfile.address p = BalanceData.walletAddress wallet /\
      AddressPoolProfile.positions p = survivingPositions wallet
  | None => survivingPositions wallet = []
  end.
Proof.
  unfold Store.walletProfile, survivingPositions.
  destruct (BalanceData.sourceBalance wallet) as [networks|]; [|reflexivity].
  destruct (Store.walletPositions networks); [reflexivity|].
  simpl. repeat split. discriminate.
Qed.

Lemma poolPowerCorrelation_eq balances powerVoting :
  Store.poolPowerCorrelation balances powerVoting =
  Array_sort Store.byLiquidity
    (filter (fun item => 0 <? PoolPowerCorrelation.powerVoting item)
       (map (Store.correlate (Store.powerMap powerVoting))
          (Store.addressPoolProfiles balances))).
Proof.
  unfold Store.poolPowerCorrelation.
  destruct (Store.addressPoolProfiles balances) as [|p ps]; [reflexivity|].
  destruct powerVoting as [|v vs]; [|reflexivity].
  symmetry. generalize (p :: ps). intros l.
  replace (filter _ _) with (@nil PoolPowerCorrelation.t); [reflexivity|].
  induction l as [|q l IH]; [reflexivity|]. simpl. exact IH.
Qed.

Lemma not_leb_zero r : (r <=? 0) = false -> is_nan r = true \/ (0 <? r) = true.
Proof.
  intros H. destruct (is_nan r) eqn:N; [left; reflexivity|right].
  apply leb_false in H; try assumption; try reflexivity.
  apply ltb_intro; try assumption; reflexivity.
Qed.

Lemma walletPositions_In networks p :
  In p (Store.walletPositions networks) ->
  (AddressPoolPosition.regAmount p <=? 0) = false /\
  AddressPoolPosition.regAmount p = Store.regAmountOf (AddressPoolPosition.pos p).
Proof.
  unfold Store.walletPositions. rewrite in_flat_map. intros ((networkName & nv) & _ & H).
  unfold Store.profileNetwork in H. simpl in H.
  destruct (NetworkValue.dexs nv) as [dexs|]; [|contradiction].
  rewrite in_flat_map in H. destruct H as ((dexName & arr) & _ & H).
  unfold Store.profileDex in H. simpl in H.
  destruct arr as [rawPositions|]; [|contradiction].
  rewrite in_flat_map in H. destruct H as (pos & _ & H).
  unfold Store.profilePosition in H.
  destruct (Store.regAmountOf pos <=? 0) eqn:E; [contradiction|].
  destruct H as [<-|[]]. simpl. auto.
Qed.

Lemma liquidity_sum (l : list AddressPoolPosition.t) : forall acc,
  (forall p, In p l -> (AddressPoolPosition.regAmount p <=? 0) = false) ->
  is_nan acc = true \/ (0 <? acc) = true \/ (acc = 0 /\ l <> []) ->
  let sum := fold_left (fun sum pos => sum + AddressPoolPosition.regAmount pos) l acc in
  is_nan sum = true \/ (0 <? sum) = true.
Proof.
  induction l as [|p l IH]; intros acc H Q; simpl.
  - destruct Q as [Q|[Q|[_ Q]]]; auto; contradiction.
  - apply IH; [intros q Hq; apply H; right; exact Hq|].
    destruct (not_leb_zero _ (H p (or_introl eq_refl))) as [N|P].
    + left. apply add_nan. auto.
    + destruct Q as [Q|[Q|[-> _]]].
      * left. apply add_nan. auto.
      * right. left. apply add_positive; assumption.
      * right. left. rewrite (add_zero_l _ 0 P eq_refl). exact P.
Qed.

(** A profile's pool liquidity is never zero. *)
Lemma profile_liquidity wallet profile :
  Store.walletProfile wallet = Some profile ->
  (AddressPoolProfile.poolLiquidityREG profile =? 0) = false.
Proof.
  unfold Store.walletProfile.
  destruct (BalanceData.sourceBalance wallet) as [networks|]; [|discriminate].
  destruct (Store.walletPositions networks) as [|x xs] eqn:E; [discriminate|].
  intros H. injection H as <-. simpl AddressPoolProfile.poolLiquidityREG.
  destruct (liquidity_sum (x :: xs) 0) as [N|P].
  - intros p Hp. rewrite <- E in Hp. apply (walletPositions_In _ _ Hp).
  - right. right. split; [reflexivity|discriminate].
  - rewrite eqb_key. simpl fold_left in N. rewrite N. reflexivity.
  - destruct (ltb_true _ _ P) as (_ & N & K). change (key 0) with 0%Z in K.
    rewrite eqb_key. simpl fold_left in N, K. rewrite N. simpl.
    apply Z.eqb_neq. change (key 0) with 0%Z. lia.
Qed.

Lemma addressPoolProfiles_In balances profile :
  In profile (Store.addressPoolProfiles balances) ->
  exists wallet, In wallet balances /\ Store.walletProfile wallet = Some profile.
Proof.
  induction balances as [|wallet rest IH]; [contradiction|]. simpl.
  destruct (Store.walletProfile wallet) as [p|] eqn:E.
  - intros [<-|H]; [eauto|]. destruct (IH H) as (w & ? & ?). eauto.
  - intros H. destruct (IH H) as (w & ? & ?). eauto.
Qed.

Lemma descending_trans a b c : descending a b -> descending b c -> descending a c.
Proof.
  unfold descending. intros H1 H2.
  destruct (leb_true _ _ H1) as (? & ? & ?). destruct (leb_true _ _ H2) as (? & ? & ?).
  apply leb_intro; try assumption. lia.
Qed.

(** Where the pool liquidity of every element is a number, the sort of
    [poolPowerCorrelation] leaves the list in descending order. *)
Lemma poolPowerCorrelation_descending
  (balances : list BalanceData.t) (powerVoting : list PowerVotingData.t) :
  let result := Store.poolPowerCorrelation balances powerVoting in
  Forall (fun c => is_nan (PoolPowerCorrelation.poolLiquidityREG c) = false) result ->
  StronglySorted descending result.
Proof.
  intros result N. apply Sorted_StronglySorted.
  - intros a b c. apply descending_trans.
  - unfold result in *. rewrite poolPowerCorrelation_eq in *.
    apply Array_sort_sorted
      with (P := fun c => is_nan (PoolPowerCorrelation.poolLiquidityREG c) = false).
    + intros x y Px Py. unfold Store.byLiquidity, descending. rewrite sub_pos.
      intros H. destruct (ltb_true _ _ H) as (_ & _ & K). apply leb_intro; try assumption. lia.
    + intros x y Px Py. unfold Store.byLiquidity, descending. rewrite sub_pos.
      intros H. apply ltb_false in H; try assumption. apply leb_intro; assumption.
    + eapply Permutation_Forall; [apply Array_sort_perm|exact N].
Qed.

(** No arrangement of elements is in descending order when the pool
    liquidity of one of them is NaN and there is another element. *)
Lemma descending_without_unreadable (l : list PoolPowerCorrelation.t) :
  Sorted descending l -> (2 <= length l)%nat ->
  Forall (fun c => is_nan (PoolPowerCorrelation.poolLiquidityREG c) = false) l.
Proof.
  induction l as [|a [|b l] IH]; intros S L; simpl in L; try lia.
  inversion S as [|? ? S' H]; subst. inversion H as [|? ? D]; subst.
  destruct (leb_true _ _ D) as (Nb & Na & _).
  constructor; [exact Na|].
  destruct l as [|c l]; [repeat constructor; exact Nb|].
  apply IH; [exact S'|simpl; lia].
Qed.

(** C3. A position whose [equivalentREG] does not read as a number passes
    the guard [regAmount <= 0]: its wallet is listed, with a pool liquidity
    of NaN, and the comparator of the sort answers NaN against it.  The
    list is then not in descending order, however its elements are
    arranged, and the two wallets around it come out in the order of the
    input, the one with 1 REG in pools before the one with 2.  The paths
    beside it leave such an amount out (the statistics) or take it as 0
    (the wallet's own total). *)
Theorem unreadable_amount_breaks_the_order :
  let result := Store.poolPowerCorrelation Sample.garbledWallets Sample.garbledVoters in
  map (fun wallet =>
         map (fun pos => is_nan (AddressPoolPosition.regAmount pos))
           (match BalanceData.sourceBalance wallet with
            | Some networks => Store.walletPositions networks
            | None => []
            end))
    Sample.garbledWallets
  = [[false]; [true]; [false]]
  /\ map PoolPowerCorrelation.address result = ["0xA"; "0xN"; "0xB"]
  /\ map PoolPowerCorrelation.poolLiquidityREG result = [1; nan; 2]
  /\ (forall arrangement, Permutation arrangement result -> ~ Sorted descending arrangement)
  /\ ~ Sorted descending
         (filter (fun c => negb (is_nan (PoolPowerCorrelation.poolLiquidityREG c))) result)
  /\ Store.balanceValues [Sample.unreadable] = []
  /\ Store.totalWalletREG Sample.unreadable = 0.
Proof.
  intros result.
  split; [reflexivity|]. split; [reflexivity|]. split; [reflexivity|].
  split; [|split; [|split; reflexivity]].
  - intros arrangement P S.
    assert (L : (2 <= length arrangement)%nat).
    { rewrite (Permutation_length P). vm_compute. lia. }
    pose proof (descending_without_unreadable arrangement S L) as N.
    apply (Permutation_Forall P) in N. vm_compute in N.
    inversion N as [|? ? _ N']; subst. inversion N' as [|? ? F _]; subst. discriminate F.
  - intros S. vm_compute in S. inversion S as [|? ? _ H]; subst.
    inversion H as [|? ? D]; subst. vm_compute in D. discriminate.
Qed.

End Correlation.

(* ================================================================== *)
(** * Part V: pool positions *)
(* ================================================================== *)

Section Filtering.

Local Open Scope float_scope.

Lemma fold_left_filter (S X : Type) (step : S -> X -> S) (keep : X -> bool) (l : list X) :
  (forall st x, keep x = false -> step st x = st) ->
  forall st, fold_left step (filter keep l) st = fold_left step l st.
Proof.
  intros H. induction l as [|x l IH]; intros st; simpl; [reflexivity|].
  destruct (keep x) eqn:E; simpl.
  - apply IH.
  - rewrite (H st x E). apply IH.
Qed.

Lemma flat_map_filter (X Y : Type) (f : X -> list Y) (keep : X -> bool) (l : list X) :
  (forall x, keep x = false -> f x = []) ->
  flat_map f (filter keep l) = flat_map f l.
Proof.
  intros H. induction l as [|x l IH]; simpl; [reflexivity|].
  destruct (keep x) eqn:E; simpl.
  - rewrite IH. reflexivity.
  - rewrite (H x E). exact IH.
Qed.

Lemma analysePosition_dead dexName st pos :
  dead pos = true -> Store.analysePosition dexName st pos = st.
Proof. unfold dead, Store.analysePosition. intros ->. reflexivity. Qed.

Lemma profilePosition_dead networkName dexName pos :
  dead pos = true -> Store.profilePosition networkName dexName pos = [].
Proof. unfold dead, Store.profilePosition. intros ->. reflexivity. Qed.

Lemma analyseDex_prune dexs : forall st,
  fold_left Store.analyseDex (pruneDexs dexs) st = fold_left Store.analyseDex dexs st.
Proof.
  induction dexs as [|[dexName arr] dexs IH]; intros st; simpl; [reflexivity|].
  rewrite IH. f_equal. unfold Store.analyseDex. simpl.
  destruct arr as [positions|]; simpl; [|reflexivity].
  apply fold_left_filter. intros st' pos E.
  apply analysePosition_dead. apply negb_false_iff. exact E.
Qed.

Lemma Dict_get_map (T U : Type) (g : T -> U) k (d : Dict T) :
  Dict_get k (map (fun entry => (fst entry, g (snd entry))) d) = option_map g (Dict_get k d).
Proof.
  induction d as [|[k' v] d IH]; simpl; [reflexivity|].
  destruct (String.eqb k k'); [reflexivity|exact IH].
Qed.

Lemma analyseWallet_prune st wallet :
  Store.analyseWallet st (pruneWallet wallet) = Store.analyseWallet st wallet.
Proof.
  unfold Store.analyseWallet, Store.gnosisDexs. simpl.
  destruct (BalanceData.sourceBalance wallet) as [networks|]; simpl; [|reflexivity].
  unfold pruneNetworks.
  rewrite (Dict_get_map _ _
             (fun nv => NetworkValue.make (option_map pruneDexs (NetworkValue.dexs nv)))).
  destruct (Dict_get "gnosis" networks) as [nv|]; simpl; [|reflexivity].
  destruct (NetworkValue.dexs nv) as [dexs|]; simpl; [|reflexivity].
  apply analyseDex_prune.
Qed.

Lemma analyseWallets_prune l : forall st,
  fold_left Store.analyseWallet (map pruneWallet l) st = fold_left Store.analyseWallet l st.
Proof.
  induction l as [|x l IH]; intros st; simpl; [reflexivity|].
  rewrite analyseWallet_prune. apply IH.
Qed.

Lemma walletPositions_prune networks :
  Store.walletPositions (pruneNetworks networks) = Store.walletPositions networks.
Proof.
  unfold Store.walletPositions.
  induction networks as [|[networkName nv] networks IH]; simpl; [reflexivity|].
  rewrite IH. f_equal. unfold Store.profileNetwork. simpl.
  destruct (NetworkValue.dexs nv) as [dexs|]; simpl; [|reflexivity].
  induction dexs as [|[dexName arr] dexs IHd]; simpl; [reflexivity|].
  rewrite IHd. f_equal. unfold Store.profileDex. simpl.
  destruct arr as [positions|]; simpl; [|reflexivity].
  apply flat_map_filter. intros pos E.
  apply profilePosition_dead. apply negb_false_iff. exact E.
Qed.

Lemma walletProfile_prune wallet :
  Store.walletProfile (pruneWallet wallet) = Store.walletProfile wallet.
Proof.
  unfold Store.walletProfile. simpl.
  destruct (BalanceData.sourceBalance wallet) as [networks|]; simpl; [|reflexivity].
  rewrite walletPositions_prune. reflexivity.
Qed.

(** C4. A position whose resolved [regAmount] is [<= 0] contributes to no
    aggregate: it changes nothing in the state of [poolAnalysis] (the
    V2/V3 totals, the counts, the per-DEX totals, the set of pools), it is
    not pushed on a wallet's position list, and a dataset gives the same
    [poolAnalysis] and the same [addressPoolProfiles] as the dataset
    without such positions. *)
Theorem dead_positions_ignored (balances : list BalanceData.t) :
  (forall dexName st pos, dead pos = true -> Store.analysePosition dexName st pos = st)
  /\ (forall networkName dexName pos,
        dead pos = true -> Store.profilePosition networkName dexName pos = [])
  /\ Store.poolAnalysis (map pruneWallet balances) = Store.poolAnalysis balances
  /\ Store.addressPoolProfiles (map pruneWallet balances) = Store.addressPoolProfiles balances
  /\ (forall profile p,
        In profile (Store.addressPoolProfiles balances) ->
        In p (AddressPoolProfile.positions profile) ->
        dead (AddressPoolPosition.pos p) = false /\
        (AddressPoolPosition.regAmount p <=? 0) = false).
Proof.
  split; [exact analysePosition_dead|]. split; [exact profilePosition_dead|].
  split; [|split].
  - unfold Store.poolAnalysis. destruct balances as [|w ws]; [reflexivity|].
    change (map pruneWallet (w :: ws)) with (pruneWallet w :: map pruneWallet ws).
    cbv iota beta. f_equal. apply (analyseWallets_prune (w :: ws)).
  - induction balances as [|w ws IH]; simpl; [reflexivity|].
    rewrite walletProfile_prune, IH. reflexivity.
  - intros profile p Hp Hin.
    apply addressPoolProfiles_In in Hp. destruct Hp as (wallet & _ & Hw).
    pose proof (walletProfile_cases wallet) as W. rewrite Hw in W.
    destruct W as (_ & _ & E). rewrite E in Hin. unfold survivingPositions in Hin.
    destruct (BalanceData.sourceBalance wallet) as [networks|]; [|contradiction].
    destruct (walletPositions_In _ _ Hin) as (A & B).
    split; [|exact A]. unfold dead. rewrite <- B. exact A.
Qed.

End Filtering.

Section GnosisOnly.

Local Open Scope float_scope.

Lemma Dict_get_filter (T : Type) k (d : Dict T) :
  Dict_get k (filter (fun entry : string * T => String.eqb k (fst entry)) d) = Dict_get k d.
Proof.
  induction d as [|[k' v] d IH]; simpl; [reflexivity|].
  destruct (String.eqb k k') eqn:E; simpl; [rewrite E; reflexivity|exact IH].
Qed.

Lemma analyseWallet_gnosisOnly st wallet :
  Store.analyseWallet st (gnosisOnly wallet) = Store.analyseWallet st wallet.
Proof.
  unfold Store.analyseWallet, Store.gnosisDexs. simpl.
  destruct (BalanceData.sourceBalance wallet) as [networks|]; simpl; [|reflexivity].
  rewrite Dict_get_filter. reflexivity.
Qed.

Lemma analyseWallets_gnosisOnly l : forall st,
  fold_left Store.analyseWallet (map gnosisOnly l) st = fold_left Store.analyseWallet l st.
Proof.
  induction l as [|x l IH]; intros st; simpl; [reflexivity|].
  rewrite analyseWallet_gnosisOnly. apply IH.
Qed.

(** C10. [poolAnalysis] reads only the ['gnosis'] entry of each wallet:
    the other networks never change it, and a live position on another
    network counts in the wallet's [poolLiquidityREG] of
    [addressPoolProfiles] while [poolAnalysis] stays empty. *)
Theorem poolAnalysis_reads_gnosis_only :
  (forall balances,
     Store.poolAnalysis (map gnosisOnly balances) = Store.poolAnalysis balances)
  /\ (map (fun pos => 0 <? AddressPoolPosition.regAmount pos)
        (survivingPositions Sample.ethereumWallet) = [true]
      /\ map AddressPoolPosition.network (survivingPositions Sample.ethereumWallet) = ["ethereum"]
      /\ map AddressPoolProfile.poolLiquidityREG (Store.addressPoolProfiles [Sample.ethereumWallet])
         = [100]
      /\ Store.poolAnalysis [Sample.ethereumWallet]
         = Some {| PoolAnalysis.v2 := Store.emptyStats;
                   PoolAnalysis.v3 := Store.emptyStats;
                   PoolAnalysis.pools := [] |}
      /\ option_map PoolAnalysis.totalPools (Store.poolAnalysis [Sample.ethereumWallet]) = Some 0%nat).
Proof.
  split.
  - intros balances. unfold Store.poolAnalysis. destruct balances as [|w ws]; [reflexivity|].
    change (map gnosisOnly (w :: ws)) with (gnosisOnly w :: map gnosisOnly ws).
    cbv iota beta. f_equal. apply (analyseWallets_gnosisOnly (w :: ws)).
  - repeat split; vm_compute; reflexivity.
Qed.

End GnosisOnly.

(* ================================================================== *)
(** * Part VI: the resolution of amounts *)
(* ================================================================== *)

Section Resolution.

Local Open Scope float_scope.

Lemma In_firstn (X : Type) n : forall (l : list X) x, In x (firstn n l) -> In x l.
Proof.
  induction n as [|n IH]; intros [|y l] x; simpl; try contradiction.
  intros [H|H]; [left; exact H|right; apply IH; exact H].
Qed.

(** C5, as the code has it.  The explicit field [totalBalanceREG] is used
    whenever it is truthy; the generic field [totalBalance] is used when the
    explicit one is falsy (missing, null, empty, 0 or NaN) and it is truthy
    itself; the amount is 0 when both are falsy.  Nothing raises; a value
    that does not read as a number gives NaN, and the row is then left out
    of the statistics and of the top holders, while a pool profile takes
    its [walletREG] as 0. *)
Theorem balance_resolution (b : BalanceData.t) (balances : list BalanceData.t) :
  (Js.truthy (BalanceData.totalBalanceREG b) = true ->
     Store.balanceAmount b = Js.parseFloat_String (BalanceData.totalBalanceREG b))
  /\ (Js.truthy (BalanceData.totalBalanceREG b) = false ->
      Js.truthy (BalanceData.totalBalance b) = true ->
      Store.balanceAmount b = Js.parseFloat_String (BalanceData.totalBalance b))
  /\ (Js.truthy (BalanceData.totalBalanceREG b) = false ->
      Js.truthy (BalanceData.totalBalance b) = false ->
      Store.balanceAmount b = 0)
  /\ (forall v, In v (Store.balanceValues balances) <->
        In v (map Store.balanceAmount balances) /\ is_nan v = false)
  /\ (forall h, In h (Store.topBalanceHolders balances) -> is_nan (Holder.balance h) = false)
  /\ (is_nan (Store.balanceAmount b) = true -> Store.totalWalletREG b = 0).
Proof.
  unfold Store.balanceAmount, Js.or. repeat split.
  - intros H. rewrite H. cbv iota. rewrite H. reflexivity.
  - intros H1 H2. rewrite H1. cbv iota. rewrite H2. reflexivity.
  - intros H1 H2. rewrite H1. cbv iota. rewrite H2. reflexivity.
  - unfold Store.balanceValues in H. apply filter_In in H. tauto.
  - unfold Store.balanceValues in H. apply filter_In in H. destruct H as [_ H].
    apply negb_true_iff in H. exact H.
  - intros [H N]. unfold Store.balanceValues. apply filter_In. split; [exact H|].
    unfold Js.isNaN. rewrite N. reflexivity.
  - intros h H. unfold Store.topBalanceHolders in H. apply In_firstn in H.
    rewrite Array_sort_In in H. apply filter_In in H. destruct H as [_ H].
    apply negb_true_iff in H. exact H.
  - intros N. unfold Store.totalWalletREG, Store.balanceAmount, Js.or, Js.truthy at 1.
    rewrite N, orb_true_r. reflexivity.
Qed.

(** A pair of rows on which the claim as worded fails: the Sample.unreadable row
    is dropped, not counted as 0, and the generic field is not consulted
    while the explicit one is truthy; a numeric 0 does give way to it. *)
Lemma balance_resolution_counterexample :
  is_nan (Store.balanceAmount Sample.unreadable) = true
  /\ Store.balanceValues [Sample.unreadable; Sample.holder "0x2" "10"] = [10]
  /\ option_map Stats.count (Store.balanceStats [Sample.unreadable; Sample.holder "0x2" "10"])
     = Some 1%nat
  /\ option_map Stats.min (Store.balanceStats [Sample.unreadable; Sample.holder "0x2" "10"])
     = Some 10
  /\ Store.topBalanceHolders [Sample.unreadable] = []
  /\ is_nan (Store.balanceAmount Sample.unreadableWithGeneric) = true
  /\ Store.balanceAmount Sample.zeroWithGeneric = 5.
Proof. repeat split; vm_compute; reflexivity. Qed.

End Resolution.

Section ExchangeCount.

(** Two sets built from the same elements seen through two keys have the
    same size when the keys tell the same elements apart. *)
Lemma Set_of_keys (X K1 K2 : Type) (f : X -> K1) (g : X -> K2)
  (eq1 : K1 -> K1 -> bool) (eq2 : K2 -> K2 -> bool) (l : list X) :
  (forall x y, In x l -> In y l -> eq1 (f x) (f y) = eq2 (g x) (g y)) ->
  forall reps : list X,
  (forall x, In x reps -> In x l) ->
  forall rest : list X,
  (forall x, In x rest -> In x l) ->
  exists reps',
    fold_left (fun s x => Set_add eq1 x s) (map f rest) (map f reps) = map f reps' /\
    fold_left (fun s x => Set_add eq2 x s) (map g rest) (map g reps) = map g reps'.
Proof.
  intros H reps Hreps rest. revert reps Hreps.
  induction rest as [|x rest IH]; intros reps Hreps Hrest; simpl.
  - exists reps. split; reflexivity.
  - assert (E : existsb (eq1 (f x)) (map f reps) = existsb (eq2 (g x)) (map g reps)).
    { clear IH. induction reps as [|r reps IHr]; simpl; [reflexivity|].
      rewrite (H x r (Hrest x (or_introl eq_refl)) (Hreps r (or_introl eq_refl))).
      rewrite IHr by (intros z Hz; apply Hreps; right; exact Hz). reflexivity. }
    unfold Set_add at 2 4. rewrite <- E.
    destruct (existsb (eq1 (f x)) (map f reps)).
    + apply IH; [exact Hreps|]. intros z Hz. apply Hrest. right. exact Hz.
    + replace (map f reps ++ [f x]) with (map f (reps ++ [x])) by (rewrite map_app; reflexivity).
      replace (map g reps ++ [g x]) with (map g (reps ++ [x])) by (rewrite map_app; reflexivity).
      apply IH.
      * intros z Hz. apply in_app_or in Hz. destruct Hz as [Hz|[<-|[]]];
          [apply Hreps; exact Hz|apply Hrest; left; reflexivity].
      * intros z Hz. apply Hrest. right. exact Hz.
Qed.

(** In a profile of the store the count is the number of (network,
    exchange) pairs with a surviving position, as long as no two of these
    pairs are written the same once joined by a hyphen. *)
Lemma profile_dexCount wallet profile :
  Store.walletProfile wallet = Some profile ->
  (forall p q, In p (survivingPositions wallet) -> In q (survivingPositions wallet) ->
     Store.dexKey (AddressPoolPosition.network p) (AddressPoolPosition.dex p)
     = Store.dexKey (AddressPoolPosition.network q) (AddressPoolPosition.dex q) ->
     AddressPoolPosition.network p = AddressPoolPosition.network q /\
     AddressPoolPosition.dex p = AddressPoolPosition.dex q) ->
  AddressPoolProfile.dexCount profile = Set_size (liveExchanges wallet).
Proof.
  intros W Inj. unfold liveExchanges.
  pose proof (walletProfile_cases wallet) as C. rewrite W in C. destruct C as (_ & _ & E).
  assert (D : AddressPoolProfile.dexCount profile =
              Set_size (Set_of String.eqb
                          (map (fun pos => Store.dexKey (AddressPoolPosition.network pos)
                                             (AddressPoolPosition.dex pos))
                             (AddressPoolProfile.positions profile)))).
  { unfold Store.walletProfile in W.
    destruct (BalanceData.sourceBalance wallet) as [networks|]; [|discriminate].
    destruct (Store.walletPositions networks); [discriminate|].
    injection W as <-. reflexivity. }
  rewrite D, E. unfold Set_size, Set_of.
  destruct (Set_of_keys _ _ _
              (fun pos => Store.dexKey (AddressPoolPosition.network pos)
                            (AddressPoolPosition.dex pos))
              (fun pos => (AddressPoolPosition.network pos, AddressPoolPosition.dex pos))
              String.eqb
              (fun a b => String.eqb (fst a) (fst b) && String.eqb (snd a) (snd b))
              (survivingPositions wallet)) with (reps := @nil AddressPoolPosition.t)
              (rest := survivingPositions wallet) as (reps' & A & B).
  - intros x y Hx Hy. simpl.
    destruct (String.eqb_spec
                (Store.dexKey (AddressPoolPosition.network x) (AddressPoolPosition.dex x))
                (Store.dexKey (AddressPoolPosition.network y) (AddressPoolPosition.dex y)))
      as [K|K].
    + destruct (Inj x y Hx Hy K) as (-> & ->). rewrite !String.eqb_refl. reflexivity.
    + symmetry. apply andb_false_iff.
      destruct (String.eqb_spec (AddressPoolPosition.network x) (AddressPoolPosition.network y))
        as [N|N]; [|left; reflexivity].
      destruct (String.eqb_spec (AddressPoolPosition.dex x) (AddressPoolPosition.dex y))
        as [M|M]; [|right; reflexivity].
      exfalso. apply K. rewrite N, M. reflexivity.
  - intros x [].
  - intros x Hx. exact Hx.
  - simpl map in A, B. rewrite A, B, !length_map. reflexivity.
Qed.

Lemma tallyPositions_dexSet l : forall t,
  View.dexSet (fold_left View.tallyPosition l t) = View.dexSet t.
Proof.
  induction l as [|pos l IH]; intros t; simpl; [reflexivity|].
  rewrite IH. unfold View.tallyPosition.
  destruct (Store.regAmountOf pos <=? 0)%float; reflexivity.
Qed.

(** In the address search an exchange is counted as soon as its entry is
    an array, whatever becomes of its positions. *)
Lemma tallyDex_dexSet networkName t dexName rawPositions :
  View.dexSet (View.tallyDex networkName t (dexName, Some rawPositions)) =
  Set_add String.eqb (Store.dexKey networkName dexName) (View.dexSet t).
Proof. unfold View.tallyDex. simpl. rewrite tallyPositions_dexSet. reflexivity. Qed.

(** C6, at a wallet with an emptied exchange: one (network, exchange)
    pair has a surviving position, and the profile of the store counts 1,
    but [analyzePoolPositions] counts 2. *)
Lemma dexCount_at_drained_wallet :
  Set_size (liveExchanges Sample.drainedWallet) = 1%nat
  /\ map AddressPoolProfile.dexCount (Store.addressPoolProfiles [Sample.drainedWallet]) = [1%nat]
  /\ option_map WalletPools.dexCount (View.analyzePoolPositions Sample.drainedWallet) = Some 2%nat
  /\ option_map WalletPools.totalPools (View.analyzePoolPositions Sample.drainedWallet) = Some 1%nat.
Proof. repeat split; vm_compute; reflexivity. Qed.

End ExchangeCount.

(* ================================================================== *)
(** * Part VII: the address search *)
(* ================================================================== *)

Section SearchFacts.

Local Open Scope float_scope.

Variable balances : list BalanceData.t.
Variable powerVoting : list PowerVotingData.t.
Variable loadSnapshot :
  SnapshotInfo.t -> option (Document BalanceData.t * Document PowerVotingData.t).
Variable formatSnapshotDate : string -> string.

Local Abbreviation entryFor := (View.entryFor loadSnapshot formatSnapshotDate).

Lemma searchSnapshot_fold addressToSearch l : forall acc,
  fold_left (View.searchSnapshot loadSnapshot formatSnapshotDate addressToSearch) l acc
  = acc ++ map (entryFor addressToSearch) l.
Proof.
  induction l as [|s l IH]; intros acc; simpl.
  - rewrite app_nil_r. reflexivity.
  - rewrite IH. unfold View.searchSnapshot, View.entryFor.
    destruct (View.trySnapshot loadSnapshot formatSnapshotDate addressToSearch s);
      rewrite <- app_assoc; reflexivity.
Qed.

Lemma entryFor_historical addressToSearch s :
  SearchResult.isCurrent (entryFor addressToSearch s) = false /\
  SearchResult.date (entryFor addressToSearch s) = SnapshotInfo.date s.
Proof.
  unfold View.entryFor, View.trySnapshot.
  destruct (loadSnapshot s) as [[b p]|]; [|split; reflexivity].
  destruct (View.loadedRows b), (View.loadedRows p); split; reflexivity.
Qed.

Lemma entryFor_failed addressToSearch s :
  loadSnapshot s = None -> entryFor addressToSearch s = View.notFound formatSnapshotDate s.
Proof. unfold View.entryFor, View.trySnapshot. intros ->. reflexivity. Qed.

(** The current entry stays in front when the historical ones are sorted
    in. *)
Lemma sort_insert_keeps_current current e : forall sorted,
  SearchResult.isCurrent current = true ->
  sort_insert View.byDate e (sorted ++ [current])
  = sort_insert View.byDate e sorted ++ [current].
Proof.
  intros sorted C. induction sorted as [|y sorted IH]; simpl.
  - unfold View.byDate. rewrite C. reflexivity.
  - destruct (0 <? View.byDate y e); [rewrite IH|]; reflexivity.
Qed.

Lemma sort_keeps_current current l : forall sorted,
  SearchResult.isCurrent current = true ->
  fold_left (fun acc x => sort_insert View.byDate x acc) l (sorted ++ [current])
  = fold_left (fun acc x => sort_insert View.byDate x acc) l sorted ++ [current].
Proof.
  induction l as [|e l IH]; intros sorted C; simpl; [reflexivity|].
  rewrite sort_insert_keeps_current by exact C. apply IH. exact C.
Qed.

Lemma sort_current_first current l :
  SearchResult.isCurrent current = true ->
  Array_sort View.byDate (current :: l) = current :: Array_sort View.byDate l.
Proof.
  intros C. unfold Array_sort.
  change (fold_left (fun sorted x => sort_insert View.byDate x sorted) (current :: l) [])
    with (fold_left (fun sorted x => sort_insert View.byDate x sorted) l ([] ++ [current])).
  rewrite (sort_keeps_current current l [] C). apply rev_app_distr.
Qed.

(** C7, as the code has it.  A search for a non-blank address leaves one
    entry for the current datasets, in front, and one entry per snapshot
    of the manifest, whether it loaded or not: a snapshot whose load throws
    is recorded under its date with [found = false] and nothing else,
    and the other snapshots keep the entries their documents give. *)
Theorem search_records_every_snapshot
  (availableSnapshots : list SnapshotInfo.t) (searchAddress : string) :
  String.eqb (Js.trim searchAddress) "" = false ->
  let addressToSearch := Js.toLowerCase (Js.trim searchAddress) in
  let result :=
    View.searchAddressAcrossSnapshots balances powerVoting availableSnapshots
      loadSnapshot formatSnapshotDate searchAddress in
  length result = S (length availableSnapshots)
  /\ (exists current historical,
        result = current :: historical /\
        SearchResult.isCurrent current = true /\
        SearchResult.date current = "Actuel" /\
        Forall (fun e => SearchResult.isCurrent e = false) historical /\
        Permutation historical (map (entryFor addressToSearch) availableSnapshots))
  /\ (forall snapshot,
        In snapshot availableSnapshots -> loadSnapshot snapshot = None ->
        exists e, In e result /\
          SearchResult.date e = SnapshotInfo.date snapshot /\
          SearchResult.found e = false /\
          SearchResult.reg e = 0 /\ SearchResult.powerVoting e = 0 /\
          SearchResult.poolAnalysis e = None).
Proof.
  intros Hne addressToSearch result.
  assert (E : exists current,
             SearchResult.isCurrent current = true /\ SearchResult.date current = "Actuel" /\
             result = current :: Array_sort View.byDate
                                   (map (entryFor addressToSearch) availableSnapshots)).
  { unfold result, View.searchAddressAcrossSnapshots. rewrite Hne.
    fold addressToSearch. rewrite searchSnapshot_fold. simpl app.
    eexists. split; [|split; [|apply sort_current_first]]; reflexivity. }
  destruct E as (current & C & D & E).
  assert (P : Permutation (Array_sort View.byDate
                             (map (entryFor addressToSearch) availableSnapshots))
                (map (entryFor addressToSearch) availableSnapshots))
    by apply Array_sort_perm.
  split; [|split].
  - rewrite E. simpl. rewrite (Permutation_length P), length_map. reflexivity.
  - exists current, (Array_sort View.byDate (map (entryFor addressToSearch) availableSnapshots)).
    repeat split; try assumption.
    eapply Permutation_Forall; [apply Permutation_sym, P|].
    apply Forall_forall. intros e He. apply in_map_iff in He.
    destruct He as (s & <- & _). apply entryFor_historical.
  - intros snapshot Hin Hfail. exists (View.notFound formatSnapshotDate snapshot).
    split; [|repeat split].
    rewrite E. right. apply (Permutation_in _ (Permutation_sym P)).
    apply in_map_iff. exists snapshot. split; [|exact Hin].
    apply entryFor_failed. exact Hfail.
Qed.

End SearchFacts.

(* ================================================================== *)
(** * Part VIII: statistics and distribution *)
(* ================================================================== *)

Section Binning.

Local Open Scope float_scope.

Lemma countIn_layout value bs : layout (Store.countIn value bs) = layout bs.
Proof.
  induction bs as [|b bs IH]; simpl; [reflexivity|].
  destruct (Store.inBin value b); simpl; [reflexivity|]. rewrite IH. reflexivity.
Qed.

Lemma holders_layout value bs bs' : layout bs = layout bs' -> holders value bs = holders value bs'.
Proof.
  unfold holders. revert bs'. induction bs as [|b bs IH]; intros [|b' bs'] H; try discriminate.
  - reflexivity.
  - simpl in H. injection H as Hl Hmin Hmax Hrest.
    assert (E : Store.inBin value b = Store.inBin value b')
      by (unfold Store.inBin; rewrite Hmin, Hmax; reflexivity).
    cbn [filter]. rewrite E. specialize (IH bs' Hrest).
    destruct (Store.inBin value b'); cbn [length]; rewrite IH; reflexivity.
Qed.

(** Counting a value adds one to the sum when some bin holds it, and
    nothing otherwise. *)
Lemma countIn_sum value bs :
  countsSum (Store.countIn value bs) =
  (countsSum bs + if existsb (Store.inBin value) bs then 1 else 0)%nat.
Proof.
  induction bs as [|b bs IH]; simpl; [reflexivity|].
  destruct (Store.inBin value b); simpl; [lia|]. rewrite IH. lia.
Qed.

Lemma existsb_holders value bs :
  holders value bs = 1%nat -> existsb (Store.inBin value) bs = true.
Proof.
  unfold holders. induction bs as [|b bs IH]; simpl; [discriminate|].
  destruct (Store.inBin value b); simpl; [reflexivity|exact IH].
Qed.

(** A positive number below [Infinity] is in exactly one of the six
    bins. *)
Lemma one_bin value :
  (0 <? value) = true -> (value <? infinity) = true -> holders value Store.bins = 1%nat.
Proof.
  intros P F. destruct (ltb_true _ _ P) as (_ & N & K0).
  destruct (ltb_true _ _ F) as (_ & _ & Kinf).
  pose proof (ltb_true 0 100 eq_refl) as (_ & _ & A1).
  pose proof (ltb_true 100 500 eq_refl) as (_ & _ & A2).
  pose proof (ltb_true 500 1000 eq_refl) as (_ & _ & A3).
  pose proof (ltb_true 1000 5000 eq_refl) as (_ & _ & A4).
  pose proof (ltb_true 5000 10000 eq_refl) as (_ & _ & A5).
  unfold holders, Store.bins, Store.inBin. simpl filter.
  rewrite !leb_key, !ltb_key, N. simpl negb. simpl andb.
  set (k := key value) in *.
  set (k0 := key 0) in *. set (k1 := key 100) in *. set (k2 := key 500) in *.
  set (k3 := key 1000) in *. set (k4 := key 5000) in *. set (k5 := key 10000) in *.
  set (k6 := key infinity) in *. clearbody k k0 k1 k2 k3 k4 k5 k6.
  assert (L0 : (k0 <=? k)%Z = true) by (apply Z.leb_le; lia). rewrite L0.
  assert (U6 : (k <? k6)%Z = true) by (apply Z.ltb_lt; lia). rewrite U6.
  destruct (Z.ltb_spec k k1) as [B1|B1].
  { replace (k1 <=? k)%Z with false by (symmetry; apply Z.leb_gt; lia).
    replace (k2 <=? k)%Z with false by (symmetry; apply Z.leb_gt; lia).
    replace (k3 <=? k)%Z with false by (symmetry; apply Z.leb_gt; lia).
    replace (k4 <=? k)%Z with false by (symmetry; apply Z.leb_gt; lia).
    replace (k5 <=? k)%Z with false by (symmetry; apply Z.leb_gt; lia).
    reflexivity. }
  replace (k1 <=? k)%Z with true by (symmetry; apply Z.leb_le; lia).
  destruct (Z.ltb_spec k k2) as [B2|B2].
  { replace (k2 <=? k)%Z with false by (symmetry; apply Z.leb_gt; lia).
    replace (k3 <=? k)%Z with false by (symmetry; apply Z.leb_gt; lia).
    replace (k4 <=? k)%Z with false by (symmetry; apply Z.leb_gt; lia).
    replace (k5 <=? k)%Z with false by (symmetry; apply Z.leb_gt; lia).
    reflexivity. }
  replace (k2 <=? k)%Z with true by (symmetry; apply Z.leb_le; lia).
  destruct (Z.ltb_spec k k3) as [B3|B3].
  { replace (k3 <=? k)%Z with false by (symmetry; apply Z.leb_gt; lia).
    replace (k4 <=? k)%Z with false by (symmetry; apply Z.leb_gt; lia).
    replace (k5 <=? k)%Z with false by (symmetry; apply Z.leb_gt; lia).
    reflexivity. }
  replace (k3 <=? k)%Z with true by (symmetry; apply Z.leb_le; lia).
  destruct (Z.ltb_spec k k4) as [B4|B4].
  { replace (k4 <=? k)%Z with false by (symmetry; apply Z.leb_gt; lia).
    replace (k5 <=? k)%Z with false by (symmetry; apply Z.leb_gt; lia).
    reflexivity. }
  replace (k4 <=? k)%Z with true by (symmetry; apply Z.leb_le; lia).
  destruct (Z.ltb_spec k k5) as [B5|B5].
  { replace (k5 <=? k)%Z with false by (symmetry; apply Z.leb_gt; lia).
    reflexivity. }
  replace (k5 <=? k)%Z with true by (symmetry; apply Z.leb_le; lia).
  reflexivity.
Qed.

Lemma key_le_infinity x : is_nan x = false -> (key x <= key infinity)%Z.
Proof.
  rewrite is_nan_SF. unfold key. change (Prim2SF infinity) with (S754_infinity false).
  pose proof (Prim2SF_valid x) as V. intros N.
  assert (T : (0 < 2 ^ (emax - emin))%Z)
    by (apply Z.pow_pos_nonneg; unfold emax, SpecFloat.emin, prec; lia).
  destruct (Prim2SF x) as [s|s| |s m e]; try discriminate N; unfold scaled, cond_Zopp.
  - lia.
  - destruct s; lia.
  - simpl in V. pose proof (magnitude_pos _ _ V). destruct s; lia.
Qed.

Lemma below_infinity x : (0 <? x) = true -> (x =? infinity) = false -> (x <? infinity) = true.
Proof.
  intros P I. destruct (ltb_true _ _ P) as (_ & N & _).
  pose proof (key_le_infinity x N) as L.
  rewrite eqb_key, N in I. simpl in I. apply Z.eqb_neq in I.
  apply ltb_intro; try assumption; try reflexivity. lia.
Qed.

Lemma binnedValues_positive amounts :
  Store.binnedValues amounts = filter (fun v => 0 <? v) amounts.
Proof.
  unfold Store.binnedValues. apply filter_ext. intros v. unfold Js.isNaN.
  destruct (0 <? v) eqn:P; [|apply andb_false_r].
  destruct (ltb_true _ _ P) as (_ & N & _). rewrite N. reflexivity.
Qed.

Lemma distribution_fold values : forall acc,
  layout acc = layout Store.bins ->
  Forall (fun v => holders v Store.bins = 1%nat) values ->
  let bs := fold_left (fun bs value => Store.countIn value bs) values acc in
  layout bs = layout Store.bins /\ countsSum bs = (countsSum acc + length values)%nat.
Proof.
  induction values as [|v values IH]; intros acc L H; simpl.
  - split; [exact L|lia].
  - inversion H as [|? ? Hv Hrest]; subst.
    destruct (IH (Store.countIn v acc)) as (L' & S'); try assumption.
    + rewrite countIn_layout. exact L.
    + split; [exact L'|]. rewrite S', countIn_sum.
      rewrite (existsb_holders v acc) by (rewrite (holders_layout v acc Store.bins L); exact Hv).
      lia.
Qed.

(** C8, as the code has it.  Values [<= 0] (and NaN) are left out before
    binning; every retained value other than [Infinity] is in exactly one
    of the six bins, whose labels and bounds stay as they are; and when no
    amount is [Infinity] the six counts add up to the number of values
    [> 0]. *)
Theorem distribution_is_a_partition (balances : list BalanceData.t) (bs : list Bin.t) :
  Forall (fun b => (Store.balanceAmount b =? infinity) = false) balances ->
  Store.balanceDistribution balances = Some bs ->
  let amounts := map Store.balanceAmount balances in
  (forall v, In v (Store.binnedValues amounts) <-> In v amounts /\ (0 <? v) = true)
  /\ (forall v, In v (Store.binnedValues amounts) -> holders v Store.bins = 1%nat)
  /\ layout bs = layout Store.bins
  /\ countsSum bs = length (filter (fun v => 0 <? v) amounts).
Proof.
  intros Fin D amounts.
  assert (V : forall v, In v (Store.binnedValues amounts) -> holders v Store.bins = 1%nat).
  { intros v Hv. rewrite binnedValues_positive in Hv. apply filter_In in Hv.
    destruct Hv as (Hin & P). apply one_bin; [exact P|]. apply below_infinity; [exact P|].
    unfold amounts in Hin. apply in_map_iff in Hin. destruct Hin as (b & <- & Hb).
    rewrite Forall_forall in Fin. apply Fin. exact Hb. }
  split; [|split; [exact V|]].
  - intros v. rewrite binnedValues_positive. apply filter_In.
  - unfold Store.balanceDistribution in D. destruct balances as [|b rest]; [discriminate|].
    fold amounts in D. unfold Store.distributionOf in D.
    destruct (Store.binnedValues amounts) as [|x xs] eqn:E; [discriminate|].
    rewrite <- E in D, V. injection D as D. subst bs.
    destruct (distribution_fold (Store.binnedValues amounts) Store.bins eq_refl) as (L & S).
    + apply Forall_forall. exact V.
    + split; [exact L|]. etransitivity; [exact S|].
      rewrite binnedValues_positive. reflexivity.
Qed.

End Binning.

Section Deviation.

Local Open Scope float_scope.

Lemma stdDev_single v : is_finite v = true -> Store.stdDev [v] = 0.
Proof.
  intros F. unfold Store.stdDev, Store.variance, Store.mean, Store.total, Js.Math_sqrt.
  change (Js.of_length (length [v])) with 1. simpl fold_left.
  rewrite !div_one. unfold Js.Math_pow2.
  destruct (zero_add v F) as (_ & [->|E]); [reflexivity|].
  rewrite E, (sub_diag v F). reflexivity.
Qed.

(** C9, as the code has it.  [stdDev] is the population standard
    deviation: the squared deviations from the mean are summed and divided
    by the number of values.  For a sample of one finite value it is
    exactly 0, and for the sample [10, 30] it is exactly 10. *)
Theorem stdDev_population (balances : list BalanceData.t) (v : float) :
  Store.balanceValues balances = [v] -> is_finite v = true ->
  (forall values,
     Store.stdDev values =
     Js.Math_sqrt
       (fold_left (fun sum val => sum + Js.Math_pow2 (val - Store.mean values)) values 0
        / Js.of_length (length values)))
  /\ option_map Stats.stdDev (Store.balanceStats balances) = Some 0
  /\ option_map Stats.count (Store.balanceStats balances) = Some 1%nat
  /\ Store.stdDev [10; 30] = 10
  /\ option_map Stats.stdDev
       (Store.balanceStats [Sample.holder "0x1" "10"; Sample.holder "0x2" "30"]) = Some 10.
Proof.
  intros E F. split; [reflexivity|].
  assert (S : Store.balanceStats balances = Store.statsOf [v]).
  { unfold Store.balanceStats. destruct balances; [discriminate|]. rewrite E. reflexivity. }
  rewrite S. unfold Store.statsOf, option_map, Stats.stdDev, Stats.count.
  rewrite (stdDev_single v F). repeat split; reflexivity.
Qed.

(** A sample of one value that is not finite: the deviation is NaN. *)
Lemma stdDev_population_counterexample :
  Store.balanceValues [Sample.holder "0x1" "Infinity"] = [infinity]
  /\ option_map Stats.count (Store.balanceStats [Sample.holder "0x1" "Infinity"]) = Some 1%nat
  /\ option_map (fun s => is_nan (Stats.stdDev s))
       (Store.balanceStats [Sample.holder "0x1" "Infinity"]) = Some true
  /\ (Store.stdDev [infinity] =? 0) = false.
Proof. repeat split; vm_compute; reflexivity. Qed.

End Deviation.


(* ================================================================== *)
(** * Part IX: the tests of the store *)
(* ================================================================== *)

(** The expectations of [dataStore.spec.ts], met by the embedding. *)

Section StoreTests.

Local Open Scope float_scope.

Example parseFloat_reads :
  Js.parseFloat "1000" = 1000
  /\ Js.parseFloat "  -12.5e2xyz" = -1250
  /\ Js.parseFloat ".5" = 0.5
  /\ Js.parseFloat "1,000.5" = 1
  /\ Js.parseFloat "Infinity" = infinity
  /\ is_nan (Js.parseFloat "abc") = true
  /\ is_nan (Js.parseFloat "") = true.
Proof. repeat split; vm_compute; reflexivity. Qed.

(** 'correctly sets and processes balance data' *)
Example test_balance_data :
  let balances :=
    Store.rows (DocResult (Some [Sample.holder "0x123" "1000"; Sample.holder "0x456" "500"])) in
  length balances = 2%nat
  /\ option_map Stats.total (Store.balanceStats balances) = Some 1500
  /\ option_map Stats.mean (Store.balanceStats balances) = Some 750
  /\ option_map Stats.max (Store.balanceStats balances) = Some 1000
  /\ option_map Stats.min (Store.balanceStats balances) = Some 500.
Proof. repeat split; vm_compute; reflexivity. Qed.

(** 'correctly sets and processes power voting data' *)
Example test_power_voting_data :
  let powerVoting :=
    Store.rows (DocResult (Some [Sample.voter "0x123" "100"; Sample.voter "0x456" "50"])) in
  length powerVoting = 2%nat
  /\ option_map Stats.total (Store.powerVotingStats powerVoting) = Some 150.
Proof. repeat split; vm_compute; reflexivity. Qed.

(** 'calculates top holders correctly' *)
Example test_top_holders :
  Store.topBalanceHolders
    [Sample.holder "0x1" "10"; Sample.holder "0x2" "30"; Sample.holder "0x3" "20"]
  = [Holder.make "0x2" 30; Holder.make "0x3" 20; Holder.make "0x1" 10].
Proof. vm_compute. reflexivity. Qed.

(** 'analyzes pools correctly' *)
Example test_pool_analysis :
  option_map (fun a => PoolStats.totalREG (PoolAnalysis.v3 a)) (Store.poolAnalysis [Sample.testWallet])
    = Some 100
  /\ option_map (fun a => PoolStats.count (PoolAnalysis.v3 a)) (Store.poolAnalysis [Sample.testWallet])
     = Some 1%nat
  /\ option_map (fun a => PoolStats.totalREG (PoolAnalysis.v2 a)) (Store.poolAnalysis [Sample.testWallet])
     = Some 50
  /\ option_map (fun a => PoolStats.count (PoolAnalysis.v2 a)) (Store.poolAnalysis [Sample.testWallet])
     = Some 1%nat
  /\ option_map PoolAnalysis.totalPools (Store.poolAnalysis [Sample.testWallet]) = Some 2%nat.
Proof. repeat split; vm_compute; reflexivity. Qed.

(** Scenario B of the specification: 500 REG, all of it in one pool, and a
    power of 2000. *)
Example scenario_fully_pooled :
  let result :=
    Store.poolPowerCorrelation [Sample.onGnosis "0xB" "500" "500"] [Sample.voter "0xb" "2000"] in
  map PoolPowerCorrelation.walletDirectREG result = [0]
  /\ map PoolPowerCorrelation.walletVotingShare result = [0]
  /\ map PoolPowerCorrelation.poolVotingShare result = [2000]
  /\ map PoolPowerCorrelation.boostMultiplier result = [4].
Proof. repeat split; vm_compute; reflexivity. Qed.

End StoreTests.

(* ================================================================== *)
(** * Part X: the scenarios *)
(* ================================================================== *)

Section Scenarios.

Local Open Scope float_scope.

(** The three regimes of [shares_sum], each at a profile:
    power 500 against a direct holding of 900, power 2000 against a direct
    holding of 0, power 2000 against a direct holding of 900. *)
Lemma shares_sum_witness :
  let covered := Store.correlate [("0xa", 500)] (AddressPoolProfile.make "0xA" 1000 100 [] 0 0) in
  let pooled := Store.correlate [("0xa", 2000)] (AddressPoolProfile.make "0xA" 500 500 [] 0 0) in
  let exceeding := Store.correlate [("0xa", 2000)] (AddressPoolProfile.make "0xA" 1000 100 [] 0 0) in
  (PoolPowerCorrelation.walletVotingShare covered + PoolPowerCorrelation.poolVotingShare covered
     =? 500) = true
  /\ (PoolPowerCorrelation.walletVotingShare pooled + PoolPowerCorrelation.poolVotingShare pooled
      =? 2000) = true
  /\ PoolPowerCorrelation.walletVotingShare exceeding
       + PoolPowerCorrelation.poolVotingShare exceeding = 900 + (2000 - 900).
Proof.
  split; [|split].
  - apply (proj1 (shares_sum [("0xa", 500)] (AddressPoolProfile.make "0xA" 1000 100 [] 0 0)));
      reflexivity.
  - apply (proj1 (proj2 (shares_sum [("0xa", 2000)]
                           (AddressPoolProfile.make "0xA" 500 500 [] 0 0))));
      reflexivity.
  - apply (proj2 (proj2 (shares_sum [("0xa", 2000)]
                           (AddressPoolProfile.make "0xA" 1000 100 [] 0 0))));
      reflexivity.
Defined.

(** C1 fails as worded: with 0.4 REG of which 0.2 in a pool and a power
    of 0.9, the direct holding is 0.2 and the shares are 0.2 and
    0.7 (the value of 0.9 - 0.2), whose sum is 0.8999999999999999. *)
Lemma shares_sum_counterexample :
  let result := Store.poolPowerCorrelation [Sample.roundingWallet] [Sample.roundingVoter] in
  map PoolPowerCorrelation.powerVoting result = [Js.parseFloat "0.9"]
  /\ map PoolPowerCorrelation.walletDirectREG result = [Js.parseFloat "0.2"]
  /\ map PoolPowerCorrelation.walletVotingShare result = [Js.parseFloat "0.2"]
  /\ map PoolPowerCorrelation.poolVotingShare result = [Js.parseFloat "0.7"]
  /\ map (fun c => PoolPowerCorrelation.walletVotingShare c
                   + PoolPowerCorrelation.poolVotingShare c) result
     = [Js.parseFloat "0.8999999999999999"]
  /\ map (fun c => PoolPowerCorrelation.walletVotingShare c
                   + PoolPowerCorrelation.poolVotingShare c
                   =? PoolPowerCorrelation.powerVoting c) result
     = [false].
Proof. repeat split; vm_compute; reflexivity. Qed.

(** Three wallets whose amounts read as numbers come out by decreasing
    pool liquidity. *)
Example readable_wallets_in_order :
  let result := Store.poolPowerCorrelation Sample.threeWallets Sample.threeVoters in
  map PoolPowerCorrelation.address result = ["0xB"; "0xC"; "0xA"]
  /\ map PoolPowerCorrelation.poolLiquidityREG result = [200; 100; 50].
Proof. split; vm_compute; reflexivity. Qed.

(** The search of scenario E. *)
Lemma search_records_every_snapshot_witness :
  length Sample.scenarioSearch = 4%nat
  /\ exists e, In e Sample.scenarioSearch /\
       SearchResult.date e = "01-01-2025" /\ SearchResult.found e = false.
Proof.
  pose proof (search_records_every_snapshot [Sample.holder "0xabc" "120"]
                [Sample.voter "0xABC" "60"] Sample.scenarioLoader (fun date => date)
                Sample.scenarioSnapshots " 0xABC " eq_refl) as (L & _ & F).
  split; [exact L|].
  destruct (F (Sample.snapshotOf "01-01-2025")) as (e & He & D & Fd & _).
  - right. right. left. reflexivity.
  - reflexivity.
  - exists e. repeat split; assumption.
Defined.

(** C7 fails as worded: with three historical snapshots of which one
    throws, the results hold four entries, the current one first. *)
Lemma search_records_every_snapshot_counterexample :
  length Sample.scenarioSnapshots = 3%nat
  /\ length Sample.scenarioSearch = 4%nat
  /\ map SearchResult.date Sample.scenarioSearch
     = ["Actuel"; "01-03-2025"; "15-02-2025"; "01-01-2025"]
  /\ map SearchResult.found Sample.scenarioSearch = [true; true; true; false]
  /\ map SearchResult.reg Sample.scenarioSearch = [120; 100; 100; 0]
  /\ map SearchResult.powerVoting Sample.scenarioSearch = [60; 40; 40; 0].
Proof. repeat split; vm_compute; reflexivity. Qed.

(** Six balances, three of them positive: the counts are 1, 1, 0, 0, 0, 1. *)
Lemma distribution_is_a_partition_witness :
  option_map (map Bin.count) (Store.balanceDistribution Sample.spreadBalances)
  = Some [1; 1; 0; 0; 0; 1]%nat
  /\ option_map countsSum (Store.balanceDistribution Sample.spreadBalances)
     = Some (length (filter (fun v => 0 <? v) (map Store.balanceAmount Sample.spreadBalances))).
Proof.
  split; [reflexivity|].
  destruct (Store.balanceDistribution Sample.spreadBalances) as [bs|] eqn:E; [|discriminate].
  simpl. f_equal.
  apply (distribution_is_a_partition Sample.spreadBalances bs); [|exact E].
  repeat constructor.
Defined.

(** C8 fails as worded: a balance that reads as [Infinity] is retained
    as a value [> 0] and is in none of the bins, so the counts add up to
    one less than the number of values [> 0]. *)
Lemma distribution_is_a_partition_counterexample :
  let balances := [Sample.holder "0x1" "10"; Sample.holder "0x2" "Infinity"] in
  Store.binnedValues (map Store.balanceAmount balances) = [10; infinity]
  /\ holders infinity Store.bins = 0%nat
  /\ option_map (map Bin.count) (Store.balanceDistribution balances)
     = Some [1; 0; 0; 0; 0; 0]%nat
  /\ option_map countsSum (Store.balanceDistribution balances) = Some 1%nat
  /\ length (filter (fun v => 0 <? v) (map Store.balanceAmount balances)) = 2%nat.
Proof. repeat split; vm_compute; reflexivity. Qed.

(** A sample of the one value 42. *)
Lemma stdDev_population_witness :
  option_map Stats.stdDev (Store.balanceStats [Sample.holder "0x1" "42"]) = Some 0.
Proof.
  apply (stdDev_population [Sample.holder "0x1" "42"] 42); reflexivity.
Defined.

End Scenarios.

(* ================================================================== *)
(** * Part XI: rankings and statistics *)
(* ================================================================== *)

Section Ranking.

Local Open Scope float_scope.

Variable A : Type.
Variable score : A -> float.

Lemma leb_trans x y z : (x <=? y) = true -> (y <=? z) = true -> (x <=? z) = true.
Proof.
  intros H1 H2. destruct (leb_true _ _ H1) as (? & ? & ?).
  destruct (leb_true _ _ H2) as (? & ? & ?). apply leb_intro; try assumption. lia.
Qed.

Lemma sort_by_score_descending (l : list A) :
  Forall (fun a => is_nan (score a) = false) l ->
  StronglySorted (noHigher score) (Array_sort (fun a b => score b - score a) l).
Proof.
  intros N. apply Sorted_StronglySorted.
  - intros a b c H1 H2. unfold noHigher in *. eapply leb_trans; eassumption.
  - apply Array_sort_sorted with (P := fun a => is_nan (score a) = false); [| |exact N].
    + intros x y Px Py. unfold noHigher. rewrite sub_pos. intros H.
      destruct (ltb_true _ _ H) as (_ & _ & K). apply leb_intro; try assumption. lia.
    + intros x y Px Py. unfold noHigher. rewrite sub_pos. intros H.
      apply ltb_false in H; try assumption. apply leb_intro; assumption.
Qed.

Lemma In_skipn (n : nat) : forall (l : list A) (x : A), In x (skipn n l) -> In x l.
Proof.
  induction n as [|n IH]; intros l x H; [exact H|].
  destruct l as [|y l]; [contradiction|]. right. apply IH. exact H.
Qed.

Lemma StronglySorted_split (R : A -> A -> Prop) (n : nat) : forall l,
  StronglySorted R l ->
  StronglySorted R (firstn n l) /\
  (forall a b, In a (firstn n l) -> In b (skipn n l) -> R a b).
Proof.
  induction n as [|n IH]; intros l S.
  - split; [constructor|]. intros a b [].
  - destruct l as [|x l]; [split; [constructor|intros a b []]|].
    inversion S as [|? ? S' F]; subst. destruct (IH l S') as (S1 & S2).
    simpl. split.
    + constructor; [exact S1|]. rewrite Forall_forall in *. intros y Hy.
      apply F. eapply In_firstn. exact Hy.
    + intros a b [<-|Ha] Hb.
      * rewrite Forall_forall in F. apply F. apply (In_skipn _ _ _ Hb).
      * apply S2; assumption.
Qed.

Lemma top_of_ranking (n : nat) (l : list A) :
  Forall (fun a => is_nan (score a) = false) l ->
  let top := firstn n (Array_sort (fun a b => score b - score a) l) in
  length top = Nat.min n (length l)
  /\ StronglySorted (noHigher score) top
  /\ exists rest,
       Permutation (top ++ rest) l /\
       forall a b, In a top -> In b rest -> noHigher score a b.
Proof.
  intros N top. pose proof (sort_by_score_descending l N) as S.
  destruct (StronglySorted_split (noHigher score) n _ S) as (S1 & S2).
  split; [|split; [exact S1|]].
  - unfold top. rewrite length_firstn, Array_sort_length. reflexivity.
  - exists (skipn n (Array_sort (fun a b => score b - score a) l)). split; [|exact S2].
    unfold top. rewrite firstn_skipn. apply Array_sort_perm.
Qed.

End Ranking.

Lemma readable_not_nan (A : Type) (score : A -> float) (l : list A) :
  Forall (fun a => is_nan (score a) = false) (filter (fun item => negb (Js.isNaN (score item))) l).
Proof.
  apply Forall_forall. intros a H. apply filter_In in H. destruct H as [_ H].
  apply negb_true_iff in H. exact H.
Qed.

(** X1. [topBalanceHolders] and [topPowerVoters] list the ten largest
    readable amounts, all of them when there are fewer, in descending
    order: the rows listed and the rows left out are together the readable
    rows, and no row left out is above a row that is listed. *)
Theorem top_lists_hold_the_largest
  (balances : list BalanceData.t) (powerVoting : list PowerVotingData.t) :
  (let top := Store.topBalanceHolders balances in
   length top = Nat.min 10 (length (readableHolders balances))
   /\ StronglySorted (noHigher Holder.balance) top
   /\ exists rest,
        Permutation (top ++ rest) (readableHolders balances) /\
        forall h r, In h top -> In r rest -> noHigher Holder.balance h r)
  /\ (let top := Store.topPowerVoters powerVoting in
      length top = Nat.min 10 (length (readableVoters powerVoting))
      /\ StronglySorted (noHigher Voter.power) top
      /\ exists rest,
           Permutation (top ++ rest) (readableVoters powerVoting) /\
           forall v r, In v top -> In r rest -> noHigher Voter.power v r).
Proof.
  split.
  - apply (top_of_ranking Holder.t Holder.balance 10 (readableHolders balances)).
    apply readable_not_nan.
  - apply (top_of_ranking Voter.t Voter.power 10 (readableVoters powerVoting)).
    apply readable_not_nan.
Qed.

Section Extremes.

Local Open Scope float_scope.

Lemma Math_min_lower x y :
  is_nan x = false -> is_nan y = false ->
  let m := Js.Math_min x y in
  (m = x \/ m = y) /\ (m <=? x) = true /\ (m <=? y) = true.
Proof.
  intros Nx Ny. unfold Js.Math_min. rewrite Nx, Ny. simpl orb. cbv iota.
  destruct (x <? y) eqn:A.
  - destruct (ltb_true _ _ A) as (_ & _ & K).
    split; [auto|]. split; apply leb_intro; try assumption; lia.
  - apply ltb_false in A; try assumption.
    destruct (y <? x) eqn:B.
    + split; [auto|]. split; apply leb_intro; try assumption; lia.
    + apply ltb_false in B; try assumption.
      destruct (get_sign x); (split; [auto|]); split; apply leb_intro; try assumption; lia.
Qed.

Lemma Math_max_upper x y :
  is_nan x = false -> is_nan y = false ->
  let m := Js.Math_max x y in
  (m = x \/ m = y) /\ (x <=? m) = true /\ (y <=? m) = true.
Proof.
  intros Nx Ny. unfold Js.Math_max. rewrite Nx, Ny. simpl orb. cbv iota.
  destruct (x <? y) eqn:A.
  - destruct (ltb_true _ _ A) as (_ & _ & K).
    split; [auto|]. split; apply leb_intro; try assumption; lia.
  - apply ltb_false in A; try assumption.
    destruct (y <? x) eqn:B.
    + split; [auto|]. split; apply leb_intro; try assumption; lia.
    + apply ltb_false in B; try assumption.
      destruct (get_sign x); (split; [auto|]); split; apply leb_intro; try assumption; lia.
Qed.

Lemma fold_Math_min values : forall acc,
  Forall (fun v => is_nan v = false) values -> is_nan acc = false ->
  let m := fold_left Js.Math_min values acc in
  is_nan m = false /\ In m (acc :: values) /\ (m <=? acc) = true
  /\ (forall v, In v values -> (m <=? v) = true).
Proof.
  induction values as [|v values IH]; intros acc N Na; simpl.
  - split; [exact Na|]. split; [auto|]. split; [|intros v []].
    apply leb_intro; try assumption; lia.
  - inversion N as [|? ? Nv N']; subst.
    destruct (Math_min_lower acc v Na Nv) as (C & L1 & L2).
    assert (Nm : is_nan (Js.Math_min acc v) = false) by (destruct C as [-> | ->]; assumption).
    destruct (IH (Js.Math_min acc v) N' Nm) as (R1 & R2 & R3 & R4).
    split; [exact R1|]. split; [|split].
    + destruct R2 as [R2|R2]; [|auto]. rewrite <- R2. destruct C as [-> | ->]; auto.
    + eapply leb_trans; eassumption.
    + intros w [<-|Hw]; [eapply leb_trans; eassumption|apply R4; exact Hw].
Qed.

Lemma fold_Math_max values : forall acc,
  Forall (fun v => is_nan v = false) values -> is_nan acc = false ->
  let m := fold_left Js.Math_max values acc in
  is_nan m = false /\ In m (acc :: values) /\ (acc <=? m) = true
  /\ (forall v, In v values -> (v <=? m) = true).
Proof.
  induction values as [|v values IH]; intros acc N Na; simpl.
  - split; [exact Na|]. split; [auto|]. split; [|intros v []].
    apply leb_intro; try assumption; lia.
  - inversion N as [|? ? Nv N']; subst.
    destruct (Math_max_upper acc v Na Nv) as (C & L1 & L2).
    assert (Nm : is_nan (Js.Math_max acc v) = false) by (destruct C as [-> | ->]; assumption).
    destruct (IH (Js.Math_max acc v) N' Nm) as (R1 & R2 & R3 & R4).
    split; [exact R1|]. split; [|split].
    + destruct R2 as [R2|R2]; [|auto]. rewrite <- R2. destruct C as [-> | ->]; auto.
    + eapply leb_trans; eassumption.
    + intros w [<-|Hw]; [eapply leb_trans; eassumption|apply R4; exact Hw].
Qed.

Lemma key_ge_neg_infinity x : is_nan x = false -> (key neg_infinity <= key x)%Z.
Proof.
  rewrite is_nan_SF. unfold key. change (Prim2SF neg_infinity) with (S754_infinity true).
  pose proof (Prim2SF_valid x) as V. intros N.
  assert (T : (0 < 2 ^ (emax - emin))%Z)
    by (apply Z.pow_pos_nonneg; unfold emax, SpecFloat.emin, prec; lia).
  destruct (Prim2SF x) as [s|s| |s m e]; try discriminate N; unfold scaled, cond_Zopp.
  - lia.
  - destruct s; lia.
  - simpl in V. pose proof (magnitude_pos _ _ V). destruct s; lia.
Qed.

(** The first value takes the place of the [Infinity] that [Math.min]
    starts from, and of the [-Infinity] of [Math.max]. *)
Lemma Math_min_infinity v : is_nan v = false -> Js.Math_min infinity v = v.
Proof.
  intros N. unfold Js.Math_min. rewrite N. simpl orb. cbv iota.
  pose proof (key_le_infinity v N) as K.
  replace (infinity <? v) with false
    by (symmetry; rewrite ltb_key, N; simpl; apply Z.ltb_ge; exact K).
  destruct (v <? infinity); reflexivity.
Qed.

Lemma Math_max_neg_infinity v : is_nan v = false -> Js.Math_max neg_infinity v = v.
Proof.
  intros N. unfold Js.Math_max. rewrite N. simpl orb. cbv iota.
  pose proof (key_ge_neg_infinity v N) as K.
  destruct (neg_infinity <? v) eqn:A; [reflexivity|].
  replace (v <? neg_infinity) with false
    by (symmetry; rewrite ltb_key, N; simpl; apply Z.ltb_ge; exact K).
  reflexivity.
Qed.

Lemma statsOf_bounds values :
  Forall (fun v => is_nan v = false) values ->
  match Store.statsOf values with
  | Some s =>
      Stats.count s = length values
      /\ In (Stats.min s) values /\ In (Stats.max s) values
      /\ (forall v, In v values ->
            (Stats.min s <=? v) = true /\ (v <=? Stats.max s) = true)
  | None => values = []
  end.
Proof.
  intros N. destruct values as [|v values]; [reflexivity|].
  inversion N as [|? ? Nv N']; subst.
  unfold Store.statsOf, Stats.count, Stats.min, Stats.max.
  split; [reflexivity|].
  simpl fold_left. rewrite (Math_min_infinity v Nv), (Math_max_neg_infinity v Nv).
  destruct (fold_Math_min values v N' Nv) as (_ & A2 & A3 & A4).
  destruct (fold_Math_max values v N' Nv) as (_ & B2 & B3 & B4).
  split; [exact A2|]. split; [exact B2|].
  intros w [<-|Hw]; split; auto.
Qed.

Lemma balanceValues_not_nan balances :
  Forall (fun v => is_nan v = false) (Store.balanceValues balances).
Proof.
  apply Forall_forall. intros v H. apply filter_In in H. destruct H as [_ H].
  apply negb_true_iff in H. exact H.
Qed.

Lemma powerVotingValues_not_nan powerVoting :
  Forall (fun v => is_nan v = false) (Store.powerVotingValues powerVoting).
Proof.
  apply Forall_forall. intros v H. apply filter_In in H. destruct H as [_ H].
  apply negb_true_iff in H. exact H.
Qed.

Lemma balanceStats_eq balances :
  Store.balanceStats balances = Store.statsOf (Store.balanceValues balances).
Proof. destruct balances; reflexivity. Qed.

Lemma powerVotingStats_eq powerVoting :
  Store.powerVotingStats powerVoting = Store.statsOf (Store.powerVotingValues powerVoting).
Proof. destruct powerVoting; reflexivity. Qed.

(** X2. [balanceStats] and [powerVotingStats] are [null] exactly when no
    row has a readable amount.  Otherwise [count] is the number of
    readable amounts, [min] and [max] are two of them, and every one of
    them is between [min] and [max]. *)
Theorem stats_bounds (balances : list BalanceData.t) (powerVoting : list PowerVotingData.t) :
  match Store.balanceStats balances with
  | Some s =>
      Stats.count s = length (Store.balanceValues balances)
      /\ In (Stats.min s) (Store.balanceValues balances)
      /\ In (Stats.max s) (Store.balanceValues balances)
      /\ (forall v, In v (Store.balanceValues balances) ->
            (Stats.min s <=? v) = true /\ (v <=? Stats.max s) = true)
  | None => Store.balanceValues balances = []
  end
  /\ match Store.powerVotingStats powerVoting with
     | Some s =>
         Stats.count s = length (Store.powerVotingValues powerVoting)
         /\ In (Stats.min s) (Store.powerVotingValues powerVoting)
         /\ In (Stats.max s) (Store.powerVotingValues powerVoting)
         /\ (forall v, In v (Store.powerVotingValues powerVoting) ->
               (Stats.min s <=? v) = true /\ (v <=? Stats.max s) = true)
     | None => Store.powerVotingValues powerVoting = []
     end.
Proof.
  split.
  - rewrite balanceStats_eq. apply statsOf_bounds, balanceValues_not_nan.
  - rewrite powerVotingStats_eq. apply statsOf_bounds, powerVotingValues_not_nan.
Qed.

End Extremes.

Section Median.

Local Open Scope float_scope.

Local Abbreviation ascending := (fun a b : float => (a <=? b) = true).

Lemma sort_ascending (l : list float) :
  Forall (fun v => is_nan v = false) l ->
  StronglySorted ascending (Array_sort (fun a b => a - b) l).
Proof.
  intros N. apply Sorted_StronglySorted.
  - intros a b c. apply leb_trans.
  - apply Array_sort_sorted with (P := fun a => is_nan a = false); [| |exact N].
    + intros x y Px Py. cbv beta. rewrite sub_pos. intros H.
      destruct (ltb_true _ _ H) as (_ & _ & K). apply leb_intro; try assumption. lia.
    + intros x y Px Py. cbv beta. rewrite sub_pos. intros H.
      apply ltb_false in H; try assumption. apply leb_intro; assumption.
Qed.

Lemma StronglySorted_app (A : Type) (R : A -> A -> Prop) (l1 l2 : list A) :
  StronglySorted R (l1 ++ l2) ->
  StronglySorted R l1 /\ StronglySorted R l2 /\
  (forall a b, In a l1 -> In b l2 -> R a b).
Proof.
  induction l1 as [|x l1 IH]; simpl; intros S.
  - split; [constructor|]. split; [exact S|]. intros a b [].
  - inversion S as [|? ? S' F]; subst. destruct (IH S') as (S1 & S2 & S3).
    rewrite Forall_forall in F.
    split; [|split; [exact S2|]].
    + constructor; [exact S1|]. apply Forall_forall. intros y Hy. apply F.
      apply in_or_app. auto.
    + intros a b [<-|Ha] Hb; [apply F, in_or_app; auto|apply S3; assumption].
Qed.

Lemma nth_split_at (A : Type) (d : A) : forall (k : nat) (l : list A),
  (k < length l)%nat -> l = firstn k l ++ nth k l d :: skipn (S k) l.
Proof.
  induction k as [|k IH]; intros [|x l] H; simpl in *; try lia; [reflexivity|].
  f_equal. apply IH. lia.
Qed.

Lemma even_half n : Nat.even n = true -> (n = 2 * (n / 2))%nat.
Proof.
  intros E. apply Nat.even_spec in E. destruct E as [m ->].
  rewrite Nat.mul_comm, Nat.div_mul by discriminate. lia.
Qed.

Lemma odd_half n : Nat.even n = false -> (n = 2 * (n / 2) + 1)%nat.
Proof.
  intros E. assert (O : Nat.odd n = true) by (unfold Nat.odd; rewrite E; reflexivity).
  apply Nat.odd_spec in O. destruct O as [m ->].
  replace ((2 * m + 1) / 2)%nat with m; [reflexivity|].
  apply (Nat.div_unique (2 * m + 1) 2 m 1); lia.
Qed.

Lemma median_splits values :
  Forall (fun v => is_nan v = false) values -> values <> [] ->
  medianOf (Store.median values) values.
Proof.
  intros N Hne. unfold Store.median, medianOf.
  set (sorted := Array_sort (fun a b => a - b) values).
  pose proof (sort_ascending values N) as Srt. fold sorted in Srt.
  pose proof (Array_sort_perm float (fun a b => a - b) values) as P. fold sorted in P.
  assert (Hlen : (0 < length sorted)%nat).
  { rewrite (Permutation_length P). destruct values; [contradiction|simpl; lia]. }
  cbv zeta. unfold Array_at.
  destruct (Nat.even (length sorted)) eqn:E.
  - pose proof (even_half _ E) as H2. set (k := (length sorted / 2)%nat) in *.
    assert (Hk : (1 <= k)%nat) by lia.
    pose proof (nth_split_at float 0 (k - 1)%nat sorted ltac:(lia)) as D1.
    replace (S (k - 1)%nat) with k in D1 by lia.
    assert (D2 : skipn k sorted = nth k sorted 0 :: skipn (S k) sorted).
    { pose proof (nth_split_at float 0 k sorted ltac:(lia)) as D.
      rewrite <- (firstn_skipn k sorted) in D at 1.
      apply app_inv_head in D. exact D. }
    rewrite D2 in D1.
    set (a := nth (k - 1)%nat sorted 0) in *. set (b := nth k sorted 0) in *.
    set (lo := firstn (k - 1)%nat sorted) in *. set (hi := skipn (S k) sorted) in *.
    exists lo, [a; b], hi.
    rewrite D1 in Srt.
    destruct (StronglySorted_app _ _ _ _ Srt) as (_ & S2 & S3).
    change (a :: b :: hi) with ([a; b] ++ hi) in S2.
    destruct (StronglySorted_app _ _ _ _ S2) as (S4 & _ & S5).
    split; [|split; [|split; [|split]]].
    + simpl. rewrite <- D1. exact P.
    + unfold lo, hi. rewrite length_firstn, length_skipn. lia.
    + intros x y Hx Hy. apply S3; [exact Hx|]. simpl in Hy. simpl. tauto.
    + intros x y Hx Hy. apply S5; assumption.
    + right. exists a, b. split; [reflexivity|]. split; [|reflexivity].
      inversion S4 as [|? ? _ F]; subst. inversion F; subst. assumption.
  - pose proof (odd_half _ E) as H2. set (k := (length sorted / 2)%nat) in *.
    pose proof (nth_split_at float 0 k sorted ltac:(lia)) as D1.
    set (m := nth k sorted 0) in *.
    set (lo := firstn k sorted) in *. set (hi := skipn (S k) sorted) in *.
    exists lo, [m], hi.
    rewrite D1 in Srt.
    destruct (StronglySorted_app _ _ _ _ Srt) as (_ & S2 & S3).
    change (m :: hi) with ([m] ++ hi) in S2.
    destruct (StronglySorted_app _ _ _ _ S2) as (_ & _ & S5).
    split; [|split; [|split; [|split]]].
    + simpl. rewrite <- D1. exact P.
    + unfold lo, hi. rewrite length_firstn, length_skipn. lia.
    + intros x y Hx Hy. apply S3; [exact Hx|]. simpl in Hy. simpl. tauto.
    + intros x y Hx Hy. apply S5; assumption.
    + left. reflexivity.
Qed.

Lemma statsOf_median values :
  Forall (fun v => is_nan v = false) values ->
  match Store.statsOf values with
  | Some s => medianOf (Stats.median s) values
  | None => values = []
  end.
Proof.
  intros N. destruct values as [|v rest]; [reflexivity|].
  unfold Store.statsOf, Stats.median. apply median_splits; [exact N|discriminate].
Qed.

(** X3. The [median] of the statistics halves the readable amounts: they
    can be laid out as a lower part, one or two middle values and an upper
    part of the same length, in ascending order, and the median is the
    middle value or half the sum of the two. *)
Theorem median_halves_the_sample
  (balances : list BalanceData.t) (powerVoting : list PowerVotingData.t) :
  match Store.balanceStats balances with
  | Some s => medianOf (Stats.median s) (Store.balanceValues balances)
  | None => Store.balanceValues balances = []
  end
  /\ match Store.powerVotingStats powerVoting with
     | Some s => medianOf (Stats.median s) (Store.powerVotingValues powerVoting)
     | None => Store.powerVotingValues powerVoting = []
     end.
Proof.
  split.
  - rewrite balanceStats_eq. apply statsOf_median, balanceValues_not_nan.
  - rewrite powerVotingStats_eq. apply statsOf_median, powerVotingValues_not_nan.
Qed.

End Median.

Section Histogram.

Local Open Scope float_scope.

(** A positive value is in one bin at most: [Infinity] is in none. *)
Lemma at_most_one_bin value : (0 <? value) = true -> (holders value Store.bins <= 1)%nat.
Proof.
  intros P. destruct (value <? infinity) eqn:F.
  - rewrite (one_bin value P F). lia.
  - destruct (ltb_true _ _ P) as (_ & N & K0).
    apply ltb_false in F; try assumption; try reflexivity.
    pose proof (ltb_true 100 infinity eq_refl) as (_ & _ & A1).
    pose proof (ltb_true 500 infinity eq_refl) as (_ & _ & A2).
    pose proof (ltb_true 1000 infinity eq_refl) as (_ & _ & A3).
    pose proof (ltb_true 5000 infinity eq_refl) as (_ & _ & A4).
    pose proof (ltb_true 10000 infinity eq_refl) as (_ & _ & A5).
    unfold holders, Store.bins, Store.inBin. simpl filter.
    rewrite !ltb_key, N. simpl negb. rewrite !andb_true_l.
    replace (key value <? key 100)%Z with false by (symmetry; apply Z.ltb_ge; lia).
    replace (key value <? key 500)%Z with false by (symmetry; apply Z.ltb_ge; lia).
    replace (key value <? key 1000)%Z with false by (symmetry; apply Z.ltb_ge; lia).
    replace (key value <? key 5000)%Z with false by (symmetry; apply Z.ltb_ge; lia).
    replace (key value <? key 10000)%Z with false by (symmetry; apply Z.ltb_ge; lia).
    replace (key value <? key infinity)%Z with false by (symmetry; apply Z.ltb_ge; lia).
    rewrite !andb_false_r. simpl. lia.
Qed.

(** Counting a value adds one to the bin that holds it. *)
Lemma countIn_counts value values bs :
  (holders value bs <= 1)%nat ->
  map (fun b => (Bin.count b + held values b)%nat) (Store.countIn value bs)
  = map (fun b => (Bin.count b + held (value :: values) b)%nat) bs.
Proof.
  unfold holders, held. induction bs as [|b bs IH]; intros H; [reflexivity|].
  simpl in H. simpl Store.countIn. destruct (Store.inBin value b) eqn:E.
  - simpl in H. assert (Z : length (filter (Store.inBin value) bs) = 0%nat) by lia.
    simpl map. f_equal.
    + unfold Store.inBin in *. simpl. rewrite E. simpl. lia.
    + apply map_ext_in. intros b' Hb'. simpl.
      destruct (Store.inBin value b') eqn:E'; [|reflexivity].
      exfalso. apply length_zero_iff_nil in Z.
      assert (I : In b' (filter (Store.inBin value) bs)) by (apply filter_In; auto).
      rewrite Z in I. exact I.
  - simpl map. f_equal; [simpl; rewrite E; reflexivity|]. apply IH. exact H.
Qed.

Lemma distribution_counts values : forall acc,
  layout acc = layout Store.bins ->
  Forall (fun v => (holders v Store.bins <= 1)%nat) values ->
  let bs := fold_left (fun bs value => Store.countIn value bs) values acc in
  layout bs = layout Store.bins
  /\ map Bin.count bs = map (fun b => (Bin.count b + held values b)%nat) acc.
Proof.
  induction values as [|v values IH]; intros acc L H; simpl.
  - split; [exact L|]. apply map_ext. intros b. unfold held. simpl. lia.
  - inversion H as [|? ? Hv Hrest]; subst.
    destruct (IH (Store.countIn v acc)) as (L' & C'); try assumption.
    + rewrite countIn_layout. exact L.
    + split; [exact L'|]. rewrite C'. apply countIn_counts.
      rewrite (holders_layout v acc Store.bins L). exact Hv.
Qed.

Lemma distributionOf_counts amounts :
  match Store.distributionOf (Store.binnedValues amounts) with
  | Some bs =>
      Store.binnedValues amounts <> []
      /\ layout bs = layout Store.bins
      /\ map Bin.count bs = map (held (Store.binnedValues amounts)) Store.bins
  | None => Store.binnedValues amounts = []
  end.
Proof.
  unfold Store.distributionOf.
  destruct (Store.binnedValues amounts) as [|x xs] eqn:E; [reflexivity|]. rewrite <- E.
  destruct (distribution_counts (Store.binnedValues amounts) Store.bins eq_refl) as (L & C).
  - apply Forall_forall. intros v Hv. rewrite binnedValues_positive in Hv.
    apply filter_In in Hv. apply at_most_one_bin. tauto.
  - split; [rewrite E; discriminate|]. split; [exact L|]. rewrite C. reflexivity.
Qed.

Lemma balanceDistribution_eq balances :
  Store.balanceDistribution balances
  = Store.distributionOf (Store.binnedValues (map Store.balanceAmount balances)).
Proof. destruct balances; reflexivity. Qed.

Lemma powerVotingDistribution_eq powerVoting :
  Store.powerVotingDistribution powerVoting
  = Store.distributionOf (Store.binnedValues (map Store.powerAmount powerVoting)).
Proof. destruct powerVoting; reflexivity. Qed.

(** X5. A distribution is [null] exactly when no amount is retained
    (readable and above 0).  Otherwise its bins are the six fixed ones, in
    order, and the count of each is the number of retained values that
    its interval holds. *)
Theorem bins_count_their_values
  (balances : list BalanceData.t) (powerVoting : list PowerVotingData.t) :
  match Store.balanceDistribution balances with
  | Some bs =>
      Store.binnedValues (map Store.balanceAmount balances) <> []
      /\ layout bs = layout Store.bins
      /\ map Bin.count bs
         = map (held (Store.binnedValues (map Store.balanceAmount balances))) Store.bins
  | None => Store.binnedValues (map Store.balanceAmount balances) = []
  end
  /\ match Store.powerVotingDistribution powerVoting with
     | Some bs =>
         Store.binnedValues (map Store.powerAmount powerVoting) <> []
         /\ layout bs = layout Store.bins
         /\ map Bin.count bs
            = map (held (Store.binnedValues (map Store.powerAmount powerVoting))) Store.bins
     | None => Store.binnedValues (map Store.powerAmount powerVoting) = []
     end.
Proof.
  split.
  - rewrite balanceDistribution_eq. apply distributionOf_counts.
  - rewrite powerVotingDistribution_eq. apply distributionOf_counts.
Qed.

End Histogram.


(* ================================================================== *)
(** * Part XII: the account of the pools *)
(* ================================================================== *)

Section Sets.

Variable A : Type.
Variable eqb : A -> A -> bool.

Lemma Set_add_length x s :
  (length s <= length (Set_add eqb x s) <= S (length s))%nat.
Proof.
  unfold Set_add. destruct (existsb (eqb x) s); [lia|]. rewrite length_app. simpl. lia.
Qed.

Lemma Set_fold_length l : forall s,
  (length s <= length (fold_left (fun s x => Set_add eqb x s) l s) <= length s + length l)%nat.
Proof.
  induction l as [|x l IH]; intros s; simpl; [lia|].
  pose proof (IH (Set_add eqb x s)). pose proof (Set_add_length x s). lia.
Qed.

Lemma Set_add_nonempty x s : Set_add eqb x s <> [].
Proof.
  unfold Set_add. destruct (existsb (eqb x) s) eqn:E.
  - destruct s; [discriminate|discriminate].
  - destruct s; discriminate.
Qed.

(** A set holds no more elements than it was built from, and one at
    least when it was built from any. *)
Lemma Set_of_size l :
  (Set_size (Set_of eqb l) <= length l)%nat /\ (l <> [] -> 1 <= Set_size (Set_of eqb l))%nat.
Proof.
  unfold Set_size, Set_of. split.
  - pose proof (Set_fold_length l []). simpl in *. lia.
  - destruct l as [|x l]; [contradiction|]. intros _. simpl.
    pose proof (Set_fold_length l (Set_add eqb x [])).
    pose proof (Set_add_length x []). simpl in *. lia.
Qed.

End Sets.

Section StringSets.

Lemma existsb_eqb_In (x : string) (s : list string) :
  existsb (String.eqb x) s = true <-> In x s.
Proof.
  rewrite existsb_exists. split.
  - intros (y & Hy & E). apply String.eqb_eq in E. subst. exact Hy.
  - intros H. exists x. split; [exact H|apply String.eqb_refl].
Qed.

Lemma Set_add_In (x y : string) (s : list string) :
  In y (Set_add String.eqb x s) <-> y = x \/ In y s.
Proof.
  unfold Set_add. destruct (existsb (String.eqb x) s) eqn:E.
  - apply existsb_eqb_In in E. split; [auto|]. intros [->|H]; assumption.
  - rewrite in_app_iff. simpl. split; [intros [H|[H|[]]]; auto|intros [H|H]; auto].
Qed.

Lemma Set_add_NoDup (x : string) (s : list string) :
  NoDup s -> NoDup (Set_add String.eqb x s).
Proof.
  intros N. unfold Set_add. destruct (existsb (String.eqb x) s) eqn:E; [exact N|].
  assert (Hx : ~ In x s).
  { intros H. apply existsb_eqb_In in H. congruence. }
  clear E. induction s as [|a s IH]; simpl.
  - constructor; [intros []|constructor].
  - inversion N; subst. constructor.
    + rewrite in_app_iff. simpl. intros [H|[H|[]]]; [contradiction|].
      apply Hx. left. symmetry. exact H.
    + apply IH; [assumption|]. intros H. apply Hx. right. exact H.
Qed.

Lemma Set_fold_spec (l : list string) : forall s,
  NoDup s ->
  let r := fold_left (fun s x => Set_add String.eqb x s) l s in
  NoDup r /\ (forall y, In y r <-> In y s \/ In y l).
Proof.
  induction l as [|x l IH]; intros s N; simpl.
  - split; [exact N|]. intros y. tauto.
  - destruct (IH (Set_add String.eqb x s) (Set_add_NoDup x s N)) as (N' & I').
    split; [exact N'|]. intros y. rewrite I', Set_add_In.
    split; intros H; intuition (subst; auto).
Qed.

(** A set of strings holds each of the strings it was built from, once. *)
Lemma Set_of_spec (l : list string) :
  NoDup (Set_of String.eqb l) /\ (forall y, In y (Set_of String.eqb l) <-> In y l).
Proof.
  destruct (Set_fold_spec l [] (NoDup_nil _)) as (N & I). split; [exact N|].
  intros y. unfold Set_of. rewrite I. simpl. tauto.
Qed.

End StringSets.

Lemma Dict_set_keys (T : Type) (k : string) (v : T) (d : Dict T) :
  map fst (Dict_set k v d) = Set_add String.eqb k (map fst d).
Proof.
  unfold Set_add. induction d as [|[k' v'] d IH]; simpl; [reflexivity|].
  destruct (String.eqb k k') eqn:E; simpl.
  - apply String.eqb_eq in E. subst. reflexivity.
  - rewrite IH. destruct (existsb (String.eqb k) (map fst d)); reflexivity.
Qed.

Section ObjectFacts.

Variable T : Type.

Lemma Dict_get_set (k k' : string) (v : T) (d : Dict T) :
  Dict_get k (Dict_set k' v d) = if String.eqb k k' then Some v else Dict_get k d.
Proof.
  induction d as [|[k'' v''] d IH]; simpl.
  - destruct (String.eqb k k'); reflexivity.
  - destruct (String.eqb k' k'') eqn:E; simpl.
    + apply String.eqb_eq in E. subst k''. destruct (String.eqb k k'); reflexivity.
    + rewrite IH. destruct (String.eqb k k'') eqn:E'; [|reflexivity].
      apply String.eqb_eq in E'. subst k''.
      rewrite String.eqb_sym in E. rewrite E. reflexivity.
Qed.

Lemma Dict_get_owned (k : string) (d : Dict T) :
  Dict_get k d = None <-> ~ In k (map fst d).
Proof.
  induction d as [|[k' v'] d IH]; simpl; [tauto|].
  destruct (String.eqb k k') eqn:E.
  - apply String.eqb_eq in E. subst k'. split; [discriminate|].
    intros H. exfalso. apply H. left. reflexivity.
  - apply String.eqb_neq in E. rewrite IH. split.
    + intros H [F|F]; [congruence|contradiction].
    + intros H F. apply H. right. exact F.
Qed.

Lemma Dict_get_fresh (k x : string) (v : T) (d : Dict T) :
  Dict_get k d = None ->
  Dict_get x (d ++ [(k, v)]) = if String.eqb x k then Some v else Dict_get x d.
Proof.
  induction d as [|[k' v'] d IH]; simpl; [reflexivity|].
  destruct (String.eqb k k') eqn:E; [discriminate|]. intros G. rewrite (IH G).
  destruct (String.eqb x k') eqn:E'; [|reflexivity].
  apply String.eqb_eq in E'. subst k'. rewrite String.eqb_sym, E. reflexivity.
Qed.

Lemma Object_place_perm (i : Z) (k : string) (v : T) (o : Dict T) :
  Permutation (Object_place i k v o) ((k, v) :: o).
Proof.
  induction o as [|[k' v'] o IH]; simpl; [reflexivity|].
  destruct (arrayIndex k') as [j|]; [|reflexivity].
  destruct (j <? i)%Z; [|reflexivity].
  eapply perm_trans; [apply perm_skip, IH|apply perm_swap].
Qed.

Lemma Dict_get_placed (i : Z) (k x : string) (v : T) (o : Dict T) :
  Dict_get k o = None ->
  Dict_get x (Object_place i k v o) = if String.eqb x k then Some v else Dict_get x o.
Proof.
  induction o as [|[k' v'] o IH]; simpl; [reflexivity|].
  destruct (String.eqb k k') eqn:E; [discriminate|]. intros G.
  destruct (arrayIndex k') as [j|]; [|reflexivity].
  destruct (j <? i)%Z; [|reflexivity].
  simpl. rewrite (IH G).
  destruct (String.eqb x k') eqn:E'; [|reflexivity].
  apply String.eqb_eq in E'. subst k'. rewrite String.eqb_sym, E. reflexivity.
Qed.

(** An assignment to [__proto__] leaves an object that does not own
    such a property as it is. *)
Lemma Object_set_proto (v : T) (o : Dict T) :
  Dict_get "__proto__" o = None -> Object_set "__proto__" v o = o.
Proof. unfold Object_set. intros ->. reflexivity. Qed.

(** After an assignment to another key, the object owns the key with the
    value assigned, and its other properties as before. *)
Lemma Object_set_get (k x : string) (v : T) (o : Dict T) :
  k <> "__proto__" ->
  Dict_get x (Object_set k v o) = if String.eqb x k then Some v else Dict_get x o.
Proof.
  intros N. unfold Object_set. destruct (Dict_get k o) eqn:G; [apply Dict_get_set|].
  apply String.eqb_neq in N. rewrite N.
  destruct (arrayIndex k) as [i|]; [apply Dict_get_placed|apply Dict_get_fresh]; exact G.
Qed.

(** The keys after an assignment: those before, and the key assigned to
    unless it is [__proto__]. *)
Lemma Object_set_keys (k x : string) (v : T) (o : Dict T) :
  In x (Object_keys (Object_set k v o))
  <-> In x (Object_keys o) \/ (x = k /\ k <> "__proto__").
Proof.
  unfold Object_keys, Object_set. destruct (Dict_get k o) eqn:G.
  - assert (K : In k (map fst o)).
    { destruct (in_dec string_dec k (map fst o)) as [H|H]; [exact H|].
      apply Dict_get_owned in H. congruence. }
    rewrite Dict_set_keys, Set_add_In. split.
    + intros [->|H]; left; assumption.
    + intros [H|[-> _]]; [right|left]; auto.
  - destruct (String.eqb k "__proto__") eqn:E.
    + apply String.eqb_eq in E. split; [auto|]. intros [H|[_ H]]; [exact H|contradiction].
    + apply String.eqb_neq in E.
      assert (P : Permutation
                    (map fst match arrayIndex k with
                             | Some i => Object_place i k v o
                             | None => o ++ [(k, v)]
                             end)
                    (k :: map fst o)).
      { destruct (arrayIndex k) as [i|].
        - apply (Permutation_map fst (Object_place_perm i k v o)).
        - rewrite map_app. symmetry. apply Permutation_cons_append. }
      split.
      * intros H. apply (Permutation_in _ P) in H. destruct H as [<-|H]; auto.
      * intros H. apply (Permutation_in _ (Permutation_sym P)).
        destruct H as [H|[-> _]]; [right|left]; auto.
Qed.

Lemma Object_set_NoDup (k : string) (v : T) (o : Dict T) :
  NoDup (Object_keys o) -> NoDup (Object_keys (Object_set k v o)).
Proof.
  unfold Object_keys, Object_set. intros N. destruct (Dict_get k o) eqn:G.
  - rewrite Dict_set_keys. apply Set_add_NoDup. exact N.
  - destruct (String.eqb k "__proto__"); [exact N|].
    apply Dict_get_owned in G.
    assert (N' : NoDup (k :: map fst o)) by (constructor; assumption).
    destruct (arrayIndex k) as [i|].
    + apply (Permutation_NoDup
               (Permutation_sym (Permutation_map fst (Object_place_perm i k v o))) N').
    + rewrite map_app. apply (Permutation_NoDup (Permutation_cons_append _ _) N').
Qed.

End ObjectFacts.

Section Accounts.

Local Open Scope float_scope.

Lemma fold_left_flat_map (S X Y : Type) (f : S -> Y -> S) (g : X -> list Y) (l : list X) :
  forall st, fold_left f (flat_map g l) st = fold_left (fun st x => fold_left f (g x) st) l st.
Proof.
  induction l as [|x l IH]; intros st; simpl; [reflexivity|].
  rewrite fold_left_app. apply IH.
Qed.

Lemma fold_left_map (S X Y : Type) (f : S -> Y -> S) (g : X -> Y) (l : list X) :
  forall st, fold_left f (map g l) st = fold_left (fun st x => f st (g x)) l st.
Proof.
  induction l as [|x l IH]; intros st; simpl; [reflexivity|]. apply IH.
Qed.

Lemma fold_left_ext_eq (S X : Type) (f g : S -> X -> S) (l : list X) :
  (forall st x, f st x = g st x) -> forall st, fold_left f l st = fold_left g l st.
Proof.
  intros H. induction l as [|x l IH]; intros st; simpl; [reflexivity|].
  rewrite H. apply IH.
Qed.

(** The step of [poolAnalysis] at a live position. *)
Local Abbreviation visit :=
  (fun (st : PoolAnalysis.t) (p : string * PoolPosition.t) =>
     Store.analysePosition (fst p) st (snd p)).

(** The live positions of an exchange, each with the exchange's name. *)
Local Abbreviation liveUnder :=
  (fun exchange : string * option (list PoolPosition.t) =>
     match snd exchange with
     | None => []
     | Some positions =>
         map (pair (fst exchange)) (filter (fun pos => negb (dead pos)) positions)
     end).

Lemma Dict_get_find (T : Type) (k : string) (d : Dict T) :
  Dict_get k d = option_map snd (find (fun entry => String.eqb (fst entry) k) d).
Proof.
  induction d as [|[k' v] d IH]; simpl; [reflexivity|].
  rewrite (String.eqb_sym k' k). destruct (String.eqb k k'); [reflexivity|exact IH].
Qed.

(** [wallet.sourceBalance?.gnosis?.dexs] holds the live positions of the
    wallet on the Gnosis chain, and the dead ones. *)
Lemma gnosisDexs_positions wallet :
  gnosisPositions wallet
  = match Store.gnosisDexs wallet with
    | None => []
    | Some dexs => flat_map liveUnder dexs
    end.
Proof.
  unfold gnosisPositions, Store.gnosisDexs.
  destruct (BalanceData.sourceBalance wallet) as [networks|]; [|reflexivity].
  rewrite Dict_get_find.
  destruct (find _ networks) as [[name [[dexs|]]]|]; reflexivity.
Qed.

Lemma analyseWallet_flat st wallet :
  Store.analyseWallet st wallet = fold_left visit (gnosisPositions wallet) st.
Proof.
  rewrite gnosisDexs_positions. unfold Store.analyseWallet.
  destruct (Store.gnosisDexs wallet) as [dexs|]; [|reflexivity].
  rewrite fold_left_flat_map. apply fold_left_ext_eq. clear st. intros st [dexName arr].
  unfold Store.analyseDex. simpl. destruct arr as [positions|]; [|reflexivity].
  rewrite fold_left_map. simpl.
  rewrite <- (fold_left_filter _ _ (Store.analysePosition dexName) (fun pos => negb (dead pos))).
  - reflexivity.
  - intros st' pos H. apply analysePosition_dead. apply negb_false_iff. exact H.
Qed.

Lemma analyseWallets_flat balances : forall st,
  fold_left Store.analyseWallet balances st
  = fold_left visit (flat_map gnosisPositions balances) st.
Proof.
  intros st. rewrite fold_left_flat_map. apply fold_left_ext_eq. apply analyseWallet_flat.
Qed.

Lemma gnosisPositions_live wallet p :
  In p (gnosisPositions wallet) -> dead (snd p) = false.
Proof.
  rewrite gnosisDexs_positions. destruct (Store.gnosisDexs wallet) as [dexs|]; [|contradiction].
  rewrite in_flat_map. intros ((dexName & arr) & _ & H). simpl in H.
  destruct arr as [positions|]; [|contradiction].
  apply in_map_iff in H. destruct H as (pos & <- & H). apply filter_In in H.
  simpl. apply negb_true_iff. tauto.
Qed.

Lemma visit_accounts l : forall st,
  Forall (fun p => dead (snd p) = false) l ->
  let r := fold_left visit l st in
  PoolStats.count (PoolAnalysis.v2 r)
    = (PoolStats.count (PoolAnalysis.v2 st) + length (ofType false l))%nat
  /\ PoolStats.count (PoolAnalysis.v3 r)
     = (PoolStats.count (PoolAnalysis.v3 st) + length (ofType true l))%nat
  /\ PoolStats.totalREG (PoolAnalysis.v2 r)
     = fold_left (fun sum p => sum + Store.regAmountOf (snd p)) (ofType false l)
         (PoolStats.totalREG (PoolAnalysis.v2 st))
  /\ PoolStats.totalREG (PoolAnalysis.v3 r)
     = fold_left (fun sum p => sum + Store.regAmountOf (snd p)) (ofType true l)
         (PoolStats.totalREG (PoolAnalysis.v3 st))
  /\ PoolAnalysis.pools r
     = fold_left (fun s x => Set_add Js.sameValueZero x s)
         (map (fun p => PoolPosition.poolAddress (snd p)) l) (PoolAnalysis.pools st).
Proof.
  induction l as [|[dexName pos] l IH]; intros st L; simpl.
  - repeat split; lia.
  - inversion L as [|? ? Lp L']; subst. simpl in Lp. unfold dead in Lp.
    specialize (IH (Store.analysePosition dexName st pos) L').
    cbv zeta in IH. destruct IH as (C2 & C3 & T2 & T3 & Pl).
    unfold ofType in *. simpl filter.
    unfold Store.analysePosition in *. rewrite Lp in *.
    destruct (Store.isV3 pos); simpl Bool.eqb; cbv iota;
      simpl in C2, C3, T2, T3, Pl;
      rewrite C2, C3, T2, T3, Pl; simpl; repeat split; lia.
Qed.

(** The keys of the two per-DEX objects: an exchange gets a key with its
    first live position of the kind, but for [__proto__]. *)
Lemma visit_keys l : forall st,
  Forall (fun p => dead (snd p) = false) l ->
  NoDup (Object_keys (PoolStats.dexs (PoolAnalysis.v2 st))) ->
  NoDup (Object_keys (PoolStats.dexs (PoolAnalysis.v3 st))) ->
  let r := fold_left visit l st in
  NoDup (Object_keys (PoolStats.dexs (PoolAnalysis.v2 r)))
  /\ NoDup (Object_keys (PoolStats.dexs (PoolAnalysis.v3 r)))
  /\ (forall dex,
        In dex (Object_keys (PoolStats.dexs (PoolAnalysis.v2 r)))
        <-> In dex (Object_keys (PoolStats.dexs (PoolAnalysis.v2 st)))
            \/ (In dex (map fst (ofType false l)) /\ dex <> "__proto__"))
  /\ (forall dex,
        In dex (Object_keys (PoolStats.dexs (PoolAnalysis.v3 r)))
        <-> In dex (Object_keys (PoolStats.dexs (PoolAnalysis.v3 st)))
            \/ (In dex (map fst (ofType true l)) /\ dex <> "__proto__")).
Proof.
  induction l as [|[dexName pos] l IH]; intros st L N2 N3; simpl.
  - repeat split; try assumption; tauto.
  - inversion L as [|? ? Lp L']; subst. simpl in Lp. unfold dead in Lp.
    assert (E : Store.analysePosition dexName st pos
                = {| PoolAnalysis.v2 :=
                       if Store.isV3 pos then PoolAnalysis.v2 st
                       else Store.addToStats dexName (Store.regAmountOf pos) (PoolAnalysis.v2 st);
                     PoolAnalysis.v3 :=
                       if Store.isV3 pos
                       then Store.addToStats dexName (Store.regAmountOf pos) (PoolAnalysis.v3 st)
                       else PoolAnalysis.v3 st;
                     PoolAnalysis.pools :=
                       Set_add Js.sameValueZero (PoolPosition.poolAddress pos)
                         (PoolAnalysis.pools st) |}).
    { unfold Store.analysePosition. rewrite Lp. reflexivity. }
    rewrite E. clear E. set (st' := {| PoolAnalysis.v2 := _ |}).
    destruct (IH st' L') as (M2 & M3 & I2 & I3).
    + unfold st'. simpl. destruct (Store.isV3 pos); [exact N2|].
      apply Object_set_NoDup. exact N2.
    + unfold st'. simpl. destruct (Store.isV3 pos); [|exact N3].
      apply Object_set_NoDup. exact N3.
    + split; [exact M2|]. split; [exact M3|]. unfold ofType in *. simpl filter.
      split; intros dex; [rewrite I2|rewrite I3]; unfold st'; simpl;
        destruct (Store.isV3 pos); simpl; rewrite ?Object_set_keys; intuition (subst; auto).
Qed.

(** X7. [poolAnalysis] is the account of the live positions under the
    ['gnosis'] entry of the wallets, in the order of the document: the V2
    and V3 counts are the numbers of these positions, the totals are their
    amounts summed in order, the keys of the per-DEX objects are their
    exchanges, each once, but for an exchange named [__proto__], which
    gets no key, and [pools] is the set of their pool addresses.
    [totalPools] never exceeds the two counts together, and the result is
    [null] exactly when there is no wallet. *)
Theorem poolAnalysis_accounts (balances : list BalanceData.t) :
  match Store.poolAnalysis balances with
  | None => balances = []
  | Some analysis =>
      let live := flat_map gnosisPositions balances in
      balances <> []
      /\ PoolStats.count (PoolAnalysis.v2 analysis) = length (ofType false live)
      /\ PoolStats.count (PoolAnalysis.v3 analysis) = length (ofType true live)
      /\ PoolStats.totalREG (PoolAnalysis.v2 analysis) = amountsSum (ofType false live)
      /\ PoolStats.totalREG (PoolAnalysis.v3 analysis) = amountsSum (ofType true live)
      /\ NoDup (Object_keys (PoolStats.dexs (PoolAnalysis.v2 analysis)))
      /\ NoDup (Object_keys (PoolStats.dexs (PoolAnalysis.v3 analysis)))
      /\ (forall dex,
            In dex (Object_keys (PoolStats.dexs (PoolAnalysis.v2 analysis)))
            <-> In dex (map fst (ofType false live)) /\ dex <> "__proto__")
      /\ (forall dex,
            In dex (Object_keys (PoolStats.dexs (PoolAnalysis.v3 analysis)))
            <-> In dex (map fst (ofType true live)) /\ dex <> "__proto__")
      /\ PoolAnalysis.pools analysis
         = Set_of Js.sameValueZero (map (fun p => PoolPosition.poolAddress (snd p)) live)
      /\ (PoolAnalysis.totalPools analysis
          <= PoolStats.count (PoolAnalysis.v2 analysis)
             + PoolStats.count (PoolAnalysis.v3 analysis))%nat
  end.
Proof.
  unfold Store.poolAnalysis. destruct balances as [|w ws]; [reflexivity|].
  set (balances := w :: ws). cbv iota. rewrite analyseWallets_flat.
  set (live := flat_map gnosisPositions balances).
  assert (L : Forall (fun p => dead (snd p) = false) live).
  { apply Forall_forall. intros p Hp. unfold live in Hp. apply in_flat_map in Hp.
    destruct Hp as (wallet & _ & Hp). apply (gnosisPositions_live _ _ Hp). }
  destruct (visit_accounts live
              {| PoolAnalysis.v2 := Store.emptyStats; PoolAnalysis.v3 := Store.emptyStats;
                 PoolAnalysis.pools := [] |} L)
    as (C2 & C3 & T2 & T3 & Pl).
  destruct (visit_keys live
              {| PoolAnalysis.v2 := Store.emptyStats; PoolAnalysis.v3 := Store.emptyStats;
                 PoolAnalysis.pools := [] |} L (NoDup_nil _) (NoDup_nil _))
    as (N2 & N3 & I2 & I3).
  simpl in C2, C3, T2, T3, Pl, I2, I3.
  split; [discriminate|].
  split; [exact C2|]. split; [exact C3|]. split; [exact T2|]. split; [exact T3|].
  split; [exact N2|]. split; [exact N3|].
  split; [intros dex; rewrite I2; tauto|]. split; [intros dex; rewrite I3; tauto|].
  split; [exact Pl|].
  unfold PoolAnalysis.totalPools. rewrite Pl, C2, C3.
  pose proof (Set_of_size _ Js.sameValueZero
                (map (fun p => PoolPosition.poolAddress (snd p)) live)) as (B & _).
  unfold Set_of in B. rewrite length_map in B.
  assert (Lv : (length live = length (ofType false live) + length (ofType true live))%nat).
  { clear. unfold ofType. induction live as [|p l IH]; simpl; [reflexivity|].
    destruct (Store.isV3 (snd p)); simpl; lia. }
  lia.
Qed.

End Accounts.

Section Profiles.

Local Open Scope float_scope.

Lemma totalWalletREG_not_nan wallet : is_nan (Store.totalWalletREG wallet) = false.
Proof.
  unfold Store.totalWalletREG, Js.truthy.
  destruct (is_nan (Store.balanceAmount wallet)) eqn:N.
  - rewrite orb_true_r. reflexivity.
  - destruct (is_zero (Store.balanceAmount wallet)); simpl; [reflexivity|exact N].
Qed.

Lemma walletProfile_invariants wallet profile :
  Store.walletProfile wallet = Some profile ->
  AddressPoolProfile.positions profile = survivingPositions wallet
  /\ AddressPoolProfile.poolCount profile = length (AddressPoolProfile.positions profile)
  /\ (1 <= AddressPoolProfile.dexCount profile <= AddressPoolProfile.poolCount profile)%nat
  /\ is_nan (AddressPoolProfile.walletREG profile) = false
  /\ (is_nan (AddressPoolProfile.poolLiquidityREG profile) = true
      \/ (0 <? AddressPoolProfile.poolLiquidityREG profile) = true).
Proof.
  unfold Store.walletProfile, survivingPositions.
  destruct (BalanceData.sourceBalance wallet) as [networks|]; [|discriminate].
  destruct (Store.walletPositions networks) as [|x xs] eqn:E; [discriminate|].
  intros H. injection H as <-. simpl.
  split; [reflexivity|]. split; [reflexivity|].
  split; [|split; [apply totalWalletREG_not_nan|]].
  - pose proof (Set_of_size _ String.eqb
                  (map (fun pos => Store.dexKey (AddressPoolPosition.network pos)
                                     (AddressPoolPosition.dex pos)) (x :: xs))) as (A & B).
    rewrite length_map in A. simpl in A. specialize (B ltac:(discriminate)).
    simpl in B. lia.
  - apply (liquidity_sum (x :: xs) 0).
    + intros p Hp. rewrite <- E in Hp. apply (walletPositions_In _ _ Hp).
    + right. right. split; [reflexivity|discriminate].
Qed.

(** X10. In every profile of [addressPoolProfiles], [poolCount] is the
    number of its positions, [dexCount] is at least 1 and at most
    [poolCount], [walletREG] is a number, and [poolLiquidityREG] is above 0
    or NaN.  The profiles are those of the wallets with a surviving
    position, in the order of the wallets, each with these positions. *)
Theorem profile_invariants (balances : list BalanceData.t) :
  Forall
    (fun profile =>
       AddressPoolProfile.poolCount profile = length (AddressPoolProfile.positions profile)
       /\ (1 <= AddressPoolProfile.dexCount profile
           <= AddressPoolProfile.poolCount profile)%nat
       /\ is_nan (AddressPoolProfile.walletREG profile) = false
       /\ (is_nan (AddressPoolProfile.poolLiquidityREG profile) = true
           \/ (0 <? AddressPoolProfile.poolLiquidityREG profile) = true))
    (Store.addressPoolProfiles balances)
  /\ map AddressPoolProfile.address (Store.addressPoolProfiles balances)
     = map BalanceData.walletAddress
         (filter (fun wallet => match survivingPositions wallet with [] => false | _ => true end)
            balances)
  /\ map AddressPoolProfile.positions (Store.addressPoolProfiles balances)
     = filter (fun l => match l with [] => false | _ => true end)
         (map survivingPositions balances).
Proof.
  split; [|split].
  - apply Forall_forall. intros profile H. apply addressPoolProfiles_In in H.
    destruct H as (wallet & _ & H). apply walletProfile_invariants in H. tauto.
  - induction balances as [|wallet rest IH]; [reflexivity|]. simpl.
    pose proof (walletProfile_cases wallet) as W.
    destruct (Store.walletProfile wallet) as [p|].
    + destruct W as (S & Ad & _).
      destruct (survivingPositions wallet); [contradiction|]. simpl. rewrite Ad, IH. reflexivity.
    + rewrite W. exact IH.
  - induction balances as [|wallet rest IH]; [reflexivity|]. simpl.
    pose proof (walletProfile_cases wallet) as W.
    destruct (Store.walletProfile wallet) as [p|].
    + destruct W as (S & _ & Ps).
      destruct (survivingPositions wallet); [contradiction|]. simpl. rewrite Ps, IH. reflexivity.
    + rewrite W. exact IH.
Qed.

End Profiles.

Section Tallies.

Local Open Scope float_scope.

(** What the running totals of [analyzePoolPositions] keep. *)
Local Abbreviation balanced :=
  (fun t : View.Tally =>
     View.positions t = (View.v2Pools t + View.v3Pools t)%nat
     /\ View.positions t = (View.poolsInRange t + View.poolsOutOfRange t)%nat
     /\ (View.poolsOutOfRange t <= View.v3Pools t)%nat).

Lemma tallyPosition_balanced t pos : balanced t -> balanced (View.tallyPosition t pos).
Proof.
  cbv beta. intros (A & B & C). unfold View.tallyPosition.
  destruct (Store.regAmountOf pos <=? 0); [auto|].
  destruct (Store.isV3 pos); [destruct (View.activeOf pos)|]; simpl; lia.
Qed.

Lemma tallyPositions_balanced l : forall t,
  balanced t -> balanced (fold_left View.tallyPosition l t).
Proof.
  induction l as [|pos l IH]; intros t H; [exact H|]. simpl.
  apply IH, tallyPosition_balanced, H.
Qed.

Lemma tallyDex_balanced networkName t entry :
  balanced t -> balanced (View.tallyDex networkName t entry).
Proof.
  intros H. unfold View.tallyDex. destruct (snd entry); [|exact H].
  apply tallyPositions_balanced. exact H.
Qed.

Lemma tallyNetwork_balanced t entry : balanced t -> balanced (View.tallyNetwork t entry).
Proof.
  intros H. unfold View.tallyNetwork. destruct (NetworkValue.dexs (snd entry)) as [dexs|]; [|exact H].
  revert t H. induction dexs as [|d dexs IH]; intros t H; [exact H|]. simpl.
  apply IH, tallyDex_balanced, H.
Qed.

Lemma tallyNetworks_balanced networks : forall t,
  balanced t -> balanced (fold_left View.tallyNetwork networks t).
Proof.
  induction networks as [|n networks IH]; intros t H; [exact H|]. simpl.
  apply IH, tallyNetwork_balanced, H.
Qed.

(** X15. In the result of [analyzePoolPositions] the pools counted are
    the V2 and the V3 pools together, and the pools in range and out of
    range together; only V3 pools are out of range, and every V2 pool is
    in range. *)
Theorem analyzePoolPositions_counts (walletData : BalanceData.t) :
  match View.analyzePoolPositions walletData with
  | Some a =>
      WalletPools.totalPools a = (WalletPools.v2Pools a + WalletPools.v3Pools a)%nat
      /\ WalletPools.totalPools a
         = (WalletPools.poolsInRange a + WalletPools.poolsOutOfRange a)%nat
      /\ (WalletPools.poolsOutOfRange a <= WalletPools.v3Pools a)%nat
      /\ (WalletPools.v2Pools a <= WalletPools.poolsInRange a)%nat
  | None => BalanceData.sourceBalance walletData = None
  end.
Proof.
  unfold View.analyzePoolPositions.
  destruct (BalanceData.sourceBalance walletData) as [networks|]; [|reflexivity].
  destruct (tallyNetworks_balanced networks View.emptyTally) as (A & B & C).
  - simpl. lia.
  - simpl. lia.
Qed.

(** The totals of the search follow the positions of the profile. *)
Lemma tallyPositions_flat networkName dexName l : forall t,
  let r := fold_left View.tallyPosition l t in
  View.positions r
    = (View.positions t + length (flat_map (Store.profilePosition networkName dexName) l))%nat
  /\ View.totalRegInPools r
     = fold_left (fun sum pos => sum + AddressPoolPosition.regAmount pos)
         (flat_map (Store.profilePosition networkName dexName) l) (View.totalRegInPools t)
  /\ View.dexSet r = View.dexSet t.
Proof.
  induction l as [|pos l IH]; intros t; simpl.
  - repeat split. lia.
  - destruct (IH (View.tallyPosition t pos)) as (A & B & C). rewrite A, B, C.
    unfold View.tallyPosition, Store.profilePosition.
    destruct (Store.regAmountOf pos <=? 0); simpl; repeat split; lia.
Qed.

Lemma tallyDexs_flat networkName dexs : forall t,
  NoDup (View.dexSet t) ->
  let r := fold_left (View.tallyDex networkName) dexs t in
  View.positions r
    = (View.positions t + length (flat_map (Store.profileDex networkName) dexs))%nat
  /\ View.totalRegInPools r
     = fold_left (fun sum pos => sum + AddressPoolPosition.regAmount pos)
         (flat_map (Store.profileDex networkName) dexs) (View.totalRegInPools t)
  /\ NoDup (View.dexSet r)
  /\ (forall k, In k (View.dexSet t) -> In k (View.dexSet r))
  /\ (forall p, In p (flat_map (Store.profileDex networkName) dexs) ->
        In (Store.dexKey (AddressPoolPosition.network p) (AddressPoolPosition.dex p))
          (View.dexSet r)).
Proof.
  induction dexs as [|[dexName arr] dexs IH]; intros t N; cbn [fold_left flat_map].
  - cbv zeta. repeat split; auto; try lia; try contradiction.
  - assert (Q : exists t1,
               View.tallyDex networkName t (dexName, arr) = t1
               /\ View.positions t1
                  = (View.positions t
                     + length (Store.profileDex networkName (dexName, arr)))%nat
               /\ View.totalRegInPools t1
                  = fold_left (fun sum pos => sum + AddressPoolPosition.regAmount pos)
                      (Store.profileDex networkName (dexName, arr)) (View.totalRegInPools t)
               /\ NoDup (View.dexSet t1)
               /\ (forall k, In k (View.dexSet t) -> In k (View.dexSet t1))
               /\ (forall p, In p (Store.profileDex networkName (dexName, arr)) ->
                     In (Store.dexKey (AddressPoolPosition.network p)
                           (AddressPoolPosition.dex p)) (View.dexSet t1))).
    { eexists. split; [reflexivity|].
      unfold View.tallyDex, Store.profileDex. cbn [fst snd].
      destruct arr as [rawPositions|].
      - match goal with |- context [fold_left View.tallyPosition rawPositions ?t0] =>
          destruct (tallyPositions_flat networkName dexName rawPositions t0) as (A & B & C)
        end.
        cbn [View.positions View.totalRegInPools View.dexSet] in A, B, C.
        rewrite A, B, C. split; [reflexivity|]. split; [reflexivity|].
        split; [apply Set_add_NoDup, N|]. split.
        + intros k Hk. apply Set_add_In. auto.
        + intros p Hp. apply Set_add_In. left.
          apply in_flat_map in Hp. destruct Hp as (pos & _ & Hp).
          unfold Store.profilePosition in Hp.
          destruct (Store.regAmountOf pos <=? 0); [contradiction|].
          destruct Hp as [<-|[]]. reflexivity.
      - cbn [length fold_left]. repeat split; auto; try lia; try contradiction. }
    destruct Q as (t1 & -> & A & B & N1 & M & K).
    destruct (IH t1 N1) as (A' & B' & N' & M' & K'). cbv zeta.
    rewrite A', B', A, B, length_app, fold_left_app.
    split; [lia|]. split; [reflexivity|]. split; [exact N'|]. split.
    + intros k Hk. apply M', M, Hk.
    + intros p Hp. apply in_app_or in Hp. destruct Hp as [Hp|Hp]; [|apply K'; exact Hp].
      apply M', K, Hp.
Qed.

Lemma tallyNetworks_flat networks : forall t,
  NoDup (View.dexSet t) ->
  let r := fold_left View.tallyNetwork networks t in
  View.positions r = (View.positions t + length (Store.walletPositions networks))%nat
  /\ View.totalRegInPools r
     = fold_left (fun sum pos => sum + AddressPoolPosition.regAmount pos)
         (Store.walletPositions networks) (View.totalRegInPools t)
  /\ NoDup (View.dexSet r)
  /\ (forall k, In k (View.dexSet t) -> In k (View.dexSet r))
  /\ (forall p, In p (Store.walletPositions networks) ->
        In (Store.dexKey (AddressPoolPosition.network p) (AddressPoolPosition.dex p))
          (View.dexSet r)).
Proof.
  unfold Store.walletPositions.
  induction networks as [|[networkName nv] networks IH]; intros t N; cbn [fold_left flat_map].
  - cbv zeta. repeat split; auto; try lia; try contradiction.
  - assert (Q : exists t1,
               View.tallyNetwork t (networkName, nv) = t1
               /\ View.positions t1
                  = (View.positions t + length (Store.profileNetwork (networkName, nv)))%nat
               /\ View.totalRegInPools t1
                  = fold_left (fun sum pos => sum + AddressPoolPosition.regAmount pos)
                      (Store.profileNetwork (networkName, nv)) (View.totalRegInPools t)
               /\ NoDup (View.dexSet t1)
               /\ (forall k, In k (View.dexSet t) -> In k (View.dexSet t1))
               /\ (forall p, In p (Store.profileNetwork (networkName, nv)) ->
                     In (Store.dexKey (AddressPoolPosition.network p)
                           (AddressPoolPosition.dex p)) (View.dexSet t1))).
    { eexists. split; [reflexivity|].
      unfold View.tallyNetwork, Store.profileNetwork. cbn [fst snd].
      destruct (NetworkValue.dexs nv) as [dexs|].
      - apply (tallyDexs_flat networkName dexs t N).
      - cbn [length fold_left]. repeat split; auto; try lia; try contradiction. }
    destruct Q as (t1 & -> & A & B & N1 & M & K).
    destruct (IH t1 N1) as (A' & B' & N' & M' & K'). cbv zeta.
    rewrite A', B', A, B, length_app, fold_left_app.
    split; [lia|]. split; [reflexivity|]. split; [exact N'|]. split.
    + intros k Hk. apply M', M, Hk.
    + intros p Hp. apply in_app_or in Hp. destruct Hp as [Hp|Hp]; [|apply K'; exact Hp].
      apply M', K, Hp.
Qed.

(** X16. For a wallet with a profile in [addressPoolProfiles],
    [analyzePoolPositions] returns the profile's [poolCount] as
    [totalPools] and its [poolLiquidityREG] as [regInPools], and counts at
    least as many exchanges; for a wallet with [sourceBalance] and no
    profile it returns 0 pools and 0 REG in pools. *)
Theorem search_totals_follow_the_profile (wallet : BalanceData.t) :
  match Store.walletProfile wallet, View.analyzePoolPositions wallet with
  | Some profile, Some a =>
      WalletPools.totalPools a = AddressPoolProfile.poolCount profile
      /\ WalletPools.regInPools a = AddressPoolProfile.poolLiquidityREG profile
      /\ (AddressPoolProfile.dexCount profile <= WalletPools.dexCount a)%nat
  | None, Some a => WalletPools.totalPools a = 0%nat /\ WalletPools.regInPools a = 0
  | Some profile, None => False
  | None, None => BalanceData.sourceBalance wallet = None
  end.
Proof.
  unfold Store.walletProfile, View.analyzePoolPositions.
  destruct (BalanceData.sourceBalance wallet) as [networks|]; [|reflexivity].
  destruct (tallyNetworks_flat networks View.emptyTally (NoDup_nil _)) as (A & B & N & _ & K).
  simpl in A, B.
  destruct (Store.walletPositions networks) as [|x xs] eqn:E; simpl.
  - rewrite A, B. split; reflexivity.
  - rewrite A, B. split; [reflexivity|]. split; [reflexivity|].
    unfold Set_size.
    destruct (Set_of_spec (map (fun pos => Store.dexKey (AddressPoolPosition.network pos)
                                             (AddressPoolPosition.dex pos)) (x :: xs)))
      as (N0 & I0).
    apply NoDup_incl_length; [exact N0|].
    intros k Hk. apply I0 in Hk. apply in_map_iff in Hk. destruct Hk as (p & <- & Hp).
    apply K. exact Hp.
Qed.

End Tallies.


(* ================================================================== *)
(** * Part XIII: shares, powers and charts *)
(* ================================================================== *)

Section Shares.

Local Open Scope float_scope.

Lemma ltb_nan_l x y : is_nan x = true -> (x <? y) = false.
Proof. intros N. rewrite ltb_key, N. reflexivity. Qed.

Lemma ltb_nan_r x y : is_nan y = true -> (x <? y) = false.
Proof. intros N. rewrite ltb_key, N, orb_true_r. reflexivity. Qed.

Lemma ltb_of_leb x y : (y <=? x) = true -> (x <? y) = false.
Proof.
  intros H. destruct (leb_true _ _ H) as (Ny & Nx & K).
  rewrite ltb_key, Nx, Ny. simpl. apply Z.ltb_ge. exact K.
Qed.

Lemma Math_max_positive x : (0 <? Js.Math_max x 0) = (0 <? x).
Proof.
  destruct (is_nan x) eqn:N.
  - unfold Js.Math_max. rewrite N. simpl. symmetry. apply ltb_nan_r. exact N.
  - destruct (0 <? x) eqn:P; [rewrite (Math_max_of_positive x P); exact P|].
    destruct (x <? 0) eqn:Q; [rewrite (Math_max_of_negative x Q); reflexivity|].
    apply ltb_false in P; try assumption; try reflexivity.
    apply ltb_false in Q; try assumption; try reflexivity.
    rewrite Math_max_of_zero; [reflexivity|].
    apply eqb_intro; try assumption; try reflexivity. lia.
Qed.

Lemma Math_min_not_above x y :
  (x <? Js.Math_min x y) = false /\ (y <? Js.Math_min x y) = false.
Proof.
  destruct (is_nan x || is_nan y) eqn:N.
  - unfold Js.Math_min. rewrite N. split; apply ltb_nan_r; reflexivity.
  - apply orb_false_iff in N. destruct N as (Nx & Ny).
    destruct (Math_min_lower x y Nx Ny) as (_ & A & B).
    split; apply ltb_of_leb; assumption.
Qed.

Lemma powerValueOf_not_nan m address : is_nan (Store.powerValueOf m address) = false.
Proof.
  unfold Store.powerValueOf. destruct (Dict_get _ m) as [f|]; [|reflexivity].
  unfold Js.truthy. destruct (is_nan f) eqn:N.
  - rewrite orb_true_r. reflexivity.
  - destruct (is_zero f); simpl; [reflexivity|exact N].
Qed.

Lemma Math_min_positive p d :
  (0 <? p) = true -> (0 <? Js.Math_min p d) = (0 <? d).
Proof.
  intros P. destruct (ltb_true _ _ P) as (_ & Np & Kp).
  destruct (is_nan d) eqn:Nd.
  - unfold Js.Math_min. rewrite Nd, orb_true_r. symmetry. apply ltb_nan_r. exact Nd.
  - destruct (Math_min_lower p d Np Nd) as ([E|E] & A & B); rewrite E.
    + rewrite E in B. destruct (leb_true _ _ B) as (_ & _ & K).
      rewrite P. symmetry. apply ltb_intro; try assumption; try reflexivity. lia.
    + reflexivity.
Qed.

(** X11. In a correlation the power is a number (a missing, zero or
    unreadable power counts as 0); the pool share is above 0 exactly when
    the power exceeds the direct holding, and is never negative; the wallet
    share exceeds neither the power nor the direct holding.  For a wallet
    that is listed, the wallet share is above 0 exactly when the direct
    holding is, and is never negative. *)
Theorem attribution_shares
  (balances : list BalanceData.t) (powerVoting : list PowerVotingData.t) :
  (forall m profile,
     let c := Store.correlate m profile in
     is_nan (PoolPowerCorrelation.powerVoting c) = false
     /\ (0 <? PoolPowerCorrelation.poolVotingShare c)
        = (PoolPowerCorrelation.walletDirectREG c <? PoolPowerCorrelation.powerVoting c)
     /\ (PoolPowerCorrelation.poolVotingShare c <? 0) = false
     /\ (PoolPowerCorrelation.powerVoting c <? PoolPowerCorrelation.walletVotingShare c) = false
     /\ (PoolPowerCorrelation.walletDirectREG c <? PoolPowerCorrelation.walletVotingShare c)
        = false)
  /\ (forall c, In c (Store.poolPowerCorrelation balances powerVoting) ->
        (0 <? PoolPowerCorrelation.walletVotingShare c)
        = (0 <? PoolPowerCorrelation.walletDirectREG c)
        /\ (PoolPowerCorrelation.walletVotingShare c <? 0) = false).
Proof.
  split.
  - intros m profile. simpl. split; [apply powerValueOf_not_nan|].
    split; [rewrite Math_max_positive; apply sub_pos|].
    split; [apply Math_max_not_negative|]. apply Math_min_not_above.
  - intros c H. apply poolPowerCorrelation_In in H. destruct H as [(p & _ & ->) P].
    simpl in *. split; [apply Math_min_positive; exact P|].
    set (d := Js.Math_max _ 0). set (pw := Store.powerValueOf _ _) in *.
    destruct (ltb_true _ _ P) as (_ & Np & Kp).
    destruct (is_nan d) eqn:Nd.
    + apply ltb_nan_l. unfold Js.Math_min. rewrite Nd, orb_true_r. reflexivity.
    + destruct (Math_min_lower pw d Np Nd) as ([E|E] & _); rewrite E.
      * apply ltb_of_leb. apply leb_intro; try assumption; try reflexivity. lia.
      * apply Math_max_not_negative.
Qed.

End Shares.

Section Lookup.

Local Open Scope float_scope.

Variable T : Type.

Lemma find_app (A : Type) (f : A -> bool) (l1 l2 : list A) :
  find f (l1 ++ l2) = match find f l1 with Some x => Some x | None => find f l2 end.
Proof.
  induction l1 as [|x l1 IH]; simpl; [reflexivity|]. destruct (f x); [reflexivity|exact IH].
Qed.

Lemma Map_fold_get (k : string) (entries : list (string * T)) : forall d,
  Dict_get k (fold_left (fun m kv => Dict_set (fst kv) (snd kv) m) entries d)
  = match find (fun kv => String.eqb k (fst kv)) (rev entries) with
    | Some kv => Some (snd kv)
    | None => Dict_get k d
    end.
Proof.
  induction entries as [|e entries IH]; intros d; simpl; [reflexivity|].
  rewrite IH, find_app. destruct (find _ (rev entries)); [reflexivity|].
  simpl. rewrite Dict_get_set. destruct (String.eqb k (fst e)); reflexivity.
Qed.

(** In a [Map] built from entries the last entry of a key is the one
    that is kept. *)
Lemma Map_of_get (k : string) (entries : list (string * T)) :
  Dict_get k (Map_of entries)
  = option_map snd (find (fun kv => String.eqb k (fst kv)) (rev entries)).
Proof.
  unfold Map_of. rewrite Map_fold_get. destruct (find _ _); reflexivity.
Qed.

End Lookup.

Section PowerLookup.

Local Open Scope float_scope.

Lemma find_map (A B : Type) (g : A -> B) (f : B -> bool) (l : list A) :
  find f (map g l) = option_map g (find (fun x => f (g x)) l).
Proof.
  induction l as [|x l IH]; simpl; [reflexivity|]. destruct (f (g x)); [reflexivity|exact IH].
Qed.

Lemma find_none_not_in (A : Type) (key : A -> string) (k : string) (l : list A) :
  ~ In k (map key l) -> find (fun x => String.eqb k (key x)) l = None.
Proof.
  induction l as [|x l IH]; simpl; intros H; [reflexivity|].
  destruct (String.eqb k (key x)) eqn:E.
  - apply String.eqb_eq in E. exfalso. apply H. left. symmetry. exact E.
  - apply IH. intros I. apply H. right. exact I.
Qed.

Lemma find_ext_eq (A : Type) (f g : A -> bool) (l : list A) :
  (forall x, f x = g x) -> find f l = find g l.
Proof.
  intros H. induction l as [|x l IH]; simpl; [reflexivity|]. rewrite H, IH. reflexivity.
Qed.

(** With one row per key, the last row of a key is the first. *)
Lemma find_rev_unique (A : Type) (key : A -> string) (k : string) (l : list A) :
  NoDup (map key l) ->
  find (fun x => String.eqb k (key x)) (rev l) = find (fun x => String.eqb k (key x)) l.
Proof.
  induction l as [|x l IH]; intros N; [reflexivity|].
  simpl in N. inversion N as [|? ? Hx N']; subst. simpl. rewrite find_app, (IH N'). simpl.
  destruct (String.eqb k (key x)) eqn:E.
  - apply String.eqb_eq in E. subst k. rewrite (find_none_not_in _ key _ l Hx). reflexivity.
  - destruct (find _ l); reflexivity.
Qed.

(** X12. The power of an address is read, whatever the case of its
    letters, from the last row of the power dataset that carries it; an
    unreadable or zero power, or no row, gives 0.  When no two rows carry
    the same address, that row is the one the address search finds. *)
Theorem powerMap_keeps_the_last_row
  (powerVoting : list PowerVotingData.t) (address : string) :
  let key := Js.toLowerCase address in
  Store.powerValueOf (Store.powerMap powerVoting) address
  = match find (fun entry => String.eqb key (Store.entryKey entry)) (rev powerVoting) with
    | Some entry =>
        if Js.truthy (VNum (Store.powerAmount entry)) then Store.powerAmount entry else 0
    | None => 0
    end
  /\ (NoDup (map Store.entryKey powerVoting) ->
      find (fun entry => String.eqb key (Store.entryKey entry)) (rev powerVoting)
      = View.findPower key powerVoting).
Proof.
  intros key. split.
  - unfold Store.powerValueOf, Store.powerMap. fold key.
    rewrite Map_of_get, <- map_rev, find_map. simpl.
    destruct (find _ (rev powerVoting)); reflexivity.
  - intros N. rewrite (find_rev_unique _ Store.entryKey key powerVoting N).
    unfold View.findPower, Array_find. apply find_ext_eq. intros p. apply String.eqb_sym.
Qed.

End PowerLookup.

Section Charts.

Local Open Scope float_scope.

Lemma correlation_liquidity balances powerVoting c :
  In c (Store.poolPowerCorrelation balances powerVoting) ->
  is_nan (PoolPowerCorrelation.poolLiquidityREG c) = true
  \/ (0 <? PoolPowerCorrelation.poolLiquidityREG c) = true.
Proof.
  intros H. apply poolPowerCorrelation_In in H. destruct H as [(p & Hp & ->) _].
  apply addressPoolProfiles_In in Hp. destruct Hp as (wallet & _ & Hw).
  apply walletProfile_invariants in Hw. unfold PoolPowerCorrelation.poolLiquidityREG. simpl.
  tauto.
Qed.

(** X14. The pool/power chart exists exactly when the correlation is
    not empty.  Its series run over the first 25 entries (all of them when
    there are fewer), its labels are their shortened addresses, and on
    every entry whose pool liquidity is a number the pool ratio is the
    entry's [boostMultiplier] and the reference is 1. *)
Theorem poolPowerChart_follows_the_store
  (balances : list BalanceData.t) (powerVoting : list PowerVotingData.t) :
  let correlation := Store.poolPowerCorrelation balances powerVoting in
  let top := firstn 25 correlation in
  match View.poolPowerChartData balances powerVoting with
  | None => correlation = []
  | Some chart =>
      correlation <> []
      /\ length top = Nat.min 25 (length correlation)
      /\ View.labels chart
         = map (fun c => View.formatAddress (PoolPowerCorrelation.address c)) top
      /\ Forall2
           (fun c ratio =>
              is_nan (PoolPowerCorrelation.poolLiquidityREG c) = false ->
              ratio = PoolPowerCorrelation.boostMultiplier c)
           top (View.ratioPools chart)
      /\ Forall2
           (fun c one => is_nan (PoolPowerCorrelation.poolLiquidityREG c) = false -> one = 1)
           top (View.baseline chart)
      /\ length (View.ratioTotal chart) = length top
  end.
Proof.
  intros correlation top. unfold View.poolPowerChartData. fold correlation.
  assert (L : forall c, In c top ->
                is_nan (PoolPowerCorrelation.poolLiquidityREG c) = false ->
                (0 <? PoolPowerCorrelation.poolLiquidityREG c) = true
                /\ exists p m, c = Store.correlate m p).
  { intros c Hc N. apply In_firstn in Hc. unfold correlation in Hc.
    split.
    - destruct (correlation_liquidity _ _ _ Hc) as [N'|P]; [congruence|exact P].
    - apply poolPowerCorrelation_In in Hc. destruct Hc as [(p & _ & ->) _]. eauto. }
  assert (T : top = firstn 25 correlation) by reflexivity.
  clearbody top correlation.
  destruct correlation as [|c0 cs]; [reflexivity|].
  rewrite <- T. cbn [View.labels View.ratioPools View.baseline View.ratioTotal].
  split; [discriminate|]. split; [rewrite T; apply length_firstn|]. split; [reflexivity|].
  clear T. split; [|split].
  - induction top as [|c top IH]; simpl; constructor.
    + intros N. destruct (L c (or_introl eq_refl) N) as (P & p & m & ->).
      unfold PoolPowerCorrelation.poolLiquidityREG in *. simpl in *.
      rewrite P. destruct (_ <=? 0) eqn:Q; [|reflexivity].
      apply ltb_of_leb in Q. congruence.
    + apply IH. intros c' Hc'. apply L. right. exact Hc'.
  - induction top as [|c top IH]; simpl; constructor.
    + intros N. destruct (L c (or_introl eq_refl) N) as (P & _). rewrite P. reflexivity.
    + apply IH. intros c' Hc'. apply L. right. exact Hc'.
  - apply length_map.
Qed.

End Charts.


(* ================================================================== *)
(** * Part XIV: the view *)
(* ================================================================== *)

Section DexChart.

Local Open Scope float_scope.

Lemma ofType_names (l : list (string * PoolPosition.t)) (dex : string) :
  In dex (map fst l) <-> In dex (map fst (ofType false l)) \/ In dex (map fst (ofType true l)).
Proof.
  unfold ofType. rewrite !in_map_iff. split.
  - intros (p & E & H). destruct (Store.isV3 (snd p)) eqn:V.
    + right. exists p. split; [exact E|]. apply filter_In. rewrite V. auto.
    + left. exists p. split; [exact E|]. apply filter_In. rewrite V. auto.
  - intros [(p & E & H)|(p & E & H)]; apply filter_In in H; exists p; tauto.
Qed.

(** X9. The chart of exchanges has one label for each exchange with a
    live position under ['gnosis'], but for an exchange named
    [__proto__], which gets none; no label comes twice, and there is one
    datum per label.  There is no chart exactly when there is no
    wallet. *)
Theorem dexs_chart_lists_the_live_exchanges (balances : list BalanceData.t) :
  match View.dexsDistributionChartData balances with
  | None => balances = []
  | Some (labels, data) =>
      balances <> []
      /\ NoDup labels
      /\ length data = length labels
      /\ (forall dex,
            In dex labels
            <-> In dex (map fst (flat_map gnosisPositions balances)) /\ dex <> "__proto__")
  end.
Proof.
  unfold View.dexsDistributionChartData, Store.poolAnalysis.
  destruct balances as [|w ws]; [reflexivity|]. set (balances := w :: ws).
  cbv iota. rewrite analyseWallets_flat.
  set (live := flat_map gnosisPositions balances).
  assert (L : Forall (fun p => dead (snd p) = false) live).
  { apply Forall_forall. intros p Hp. unfold live in Hp. apply in_flat_map in Hp.
    destruct Hp as (wallet & _ & Hp). apply (gnosisPositions_live _ _ Hp). }
  destruct (visit_keys live
              {| PoolAnalysis.v2 := Store.emptyStats; PoolAnalysis.v3 := Store.emptyStats;
                 PoolAnalysis.pools := [] |} L (NoDup_nil _) (NoDup_nil _))
    as (_ & _ & I2 & I3).
  simpl in I2, I3. cbv zeta.
  split; [discriminate|].
  match goal with |- NoDup (Set_of String.eqb ?l) /\ _ =>
    destruct (Set_of_spec l) as (N & I)
  end.
  split; [exact N|]. split; [apply length_map|].
  intros dex. rewrite I, in_app_iff, I2, I3, (ofType_names live dex). tauto.
Qed.

End DexChart.

Section Unfolding.

(** The rows of an object that no assignment to [__proto__] has reached:
    the object does not own such a property. *)
Local Abbreviation plain := (fun d : Dict bool => Dict_get "__proto__" d = None).







End Unfolding.

Section Addresses.

Lemma substring_head (n : nat) : forall s : string,
  exists rest,
    s = (String.substring 0 n s ++ rest)%string
    /\ String.length (String.substring 0 n s) = Nat.min n (String.length s).
Proof.
  induction n as [|n IH]; intros s.
  - exists s. destruct s; simpl; auto.
  - destruct s as [|c s]; simpl.
    + exists "". auto.
    + destruct (IH s) as (rest & E & L). exists rest. split; [|rewrite L; reflexivity].
      simpl. f_equal. exact E.
Qed.

Lemma substring_whole (s : string) : String.substring 0 (String.length s) s = s.
Proof. induction s as [|c s IH]; simpl; [reflexivity|]. rewrite IH. reflexivity. Qed.

Lemma substring_tail (m : nat) : forall (k : nat) (s : string),
  (String.length s = k + m)%nat ->
  exists front,
    s = (front ++ String.substring k m s)%string /\ String.length front = k
    /\ String.length (String.substring k m s) = m.
Proof.
  intros k. induction k as [|k IH]; intros s H.
  - exists "". simpl in H. subst m. rewrite substring_whole. auto.
  - destruct s as [|c s]; [discriminate|]. simpl in H. injection H as H.
    destruct (IH s H) as (front & E & L & L'). exists (String c front). simpl.
    split; [f_equal; exact E|]. split; [f_equal; exact L|exact L'].
Qed.

(** X19. [formatAddress] gives the first six characters of the address,
    three dots and its last four characters; of an address shorter than
    that it gives what there is on each side. *)
Theorem formatAddress_shape (address : string) :
  exists head rest front tail,
    View.formatAddress address = (head ++ "..." ++ tail)%string
    /\ address = (head ++ rest)%string
    /\ address = (front ++ tail)%string
    /\ String.length head = Nat.min 6 (String.length address)
    /\ String.length tail = Nat.min 4 (String.length address).
Proof.
  unfold View.formatAddress, Js.substring_from, Js.substring, Js.clamp.
  set (n := String.length address).
  replace (Z.to_nat (Z.min (Z.max 0 0) (Z.of_nat n))) with 0%nat by lia.
  replace (Z.to_nat (Z.min (Z.max 6 0) (Z.of_nat n))) with (Nat.min 6 n) by lia.
  replace (Z.to_nat (Z.min (Z.max (Z.of_nat n - 4) 0) (Z.of_nat n))) with (n - 4)%nat by lia.
  replace (Z.to_nat (Z.min (Z.max (Z.of_nat n) 0) (Z.of_nat n))) with n by lia.
  replace (Nat.min 0 (Nat.min 6 n)) with 0%nat by lia.
  replace (Nat.max 0 (Nat.min 6 n) - 0)%nat with (Nat.min 6 n) by lia.
  replace (Nat.min (n - 4) n) with (n - 4)%nat by lia.
  replace (Nat.max (n - 4) n - (n - 4))%nat with (Nat.min 4 n) by lia.
  destruct (substring_head (Nat.min 6 n) address) as (rest & E & L).
  destruct (substring_tail (Nat.min 4 n) (n - 4) address ltac:(fold n; lia))
    as (front & E' & _ & L').
  exists (String.substring 0 (Nat.min 6 n) address), rest, front,
    (String.substring (n - 4) (Nat.min 4 n) address).
  split; [reflexivity|]. split; [exact E|]. split; [exact E'|].
  split; [rewrite L; fold n; lia|exact L'].
Qed.

End Addresses.

Section SearchKey.

Lemma toLowerCase_empty s : Js.toLowerCase s = "" <-> s = "".
Proof. destruct s; simpl; split; intros H; try reflexivity; discriminate. Qed.

(** X17. The address search depends on the address typed only through
    its trimmed, lower-case form: two inputs with the same form give the
    same results. *)
Theorem search_ignores_case_and_blanks
  (balances : list BalanceData.t) (powerVoting : list PowerVotingData.t)
  (availableSnapshots : list SnapshotInfo.t)
  (loadSnapshot : SnapshotInfo.t -> option (Document BalanceData.t * Document PowerVotingData.t))
  (formatSnapshotDate : string -> string) (a b : string) :
  Js.toLowerCase (Js.trim a) = Js.toLowerCase (Js.trim b) ->
  View.searchAddressAcrossSnapshots balances powerVoting availableSnapshots loadSnapshot
    formatSnapshotDate a
  = View.searchAddressAcrossSnapshots balances powerVoting availableSnapshots loadSnapshot
      formatSnapshotDate b.
Proof.
  intros H. unfold View.searchAddressAcrossSnapshots. rewrite H.
  assert (E : String.eqb (Js.trim a) "" = String.eqb (Js.trim b) "").
  { destruct (String.eqb_spec (Js.trim a) "") as [A|A];
      destruct (String.eqb_spec (Js.trim b) "") as [B|B]; try reflexivity; exfalso.
    - apply B. apply toLowerCase_empty. rewrite <- H, A. reflexivity.
    - apply A. apply toLowerCase_empty. rewrite H, B. reflexivity. }
  rewrite E. reflexivity.
Qed.

Lemma search_ignores_case_and_blanks_witness :
  Js.toLowerCase (Js.trim " 0xABC ") = Js.toLowerCase (Js.trim "0xabc")
  /\ View.searchAddressAcrossSnapshots [Sample.holder "0xabc" "120"] [Sample.voter "0xABC" "60"]
       Sample.scenarioSnapshots Sample.scenarioLoader (fun date => date) " 0xABC "
     = View.searchAddressAcrossSnapshots [Sample.holder "0xabc" "120"] [Sample.voter "0xABC" "60"]
         Sample.scenarioSnapshots Sample.scenarioLoader (fun date => date) "0xabc".
Proof.
  split; [reflexivity|]. apply search_ignores_case_and_blanks. reflexivity.
Defined.

End SearchKey.


(* ================================================================== *)
(** * Part XV: snapshots *)
(* ================================================================== *)

Section Dates.

Lemma string_app_assoc (a b c : string) : ((a ++ b) ++ c = a ++ (b ++ c))%string.
Proof. induction a as [|x a IH]; simpl; [reflexivity|]. rewrite IH. reflexivity. Qed.

Lemma string_app_nil_r (a : string) : (a ++ "")%string = a.
Proof. induction a as [|x a IH]; simpl; [reflexivity|]. rewrite IH. reflexivity. Qed.

(** Splitting at the hyphens: the pieces of a string that starts with a
    piece and a hyphen. *)
Lemma split_dash_piece (a : string) : forall (s cur : string),
  dashless a = true ->
  View.split_dash (a ++ String "-" s) cur = (cur ++ a)%string :: View.split_dash s "".
Proof.
  induction a as [|c a IH]; intros s cur D; simpl.
  - rewrite string_app_nil_r. reflexivity.
  - simpl in D. apply andb_true_iff in D. destruct D as (C & D).
    apply negb_true_iff in C. rewrite C, (IH _ _ D), string_app_assoc. reflexivity.
Qed.

Lemma split_dash_last (a : string) : forall cur : string,
  dashless a = true -> View.split_dash a cur = [(cur ++ a)%string].
Proof.
  induction a as [|c a IH]; intros cur D; simpl.
  - rewrite string_app_nil_r. reflexivity.
  - simpl in D. apply andb_true_iff in D. destruct D as (C & D).
    apply negb_true_iff in C. rewrite C, (IH _ D), string_app_assoc. reflexivity.
Qed.

Lemma dashless_app (a b : string) :
  dashless (a ++ b) = dashless a && dashless b.
Proof.
  induction a as [|c a IH]; simpl; [reflexivity|]. rewrite IH, andb_assoc. reflexivity.
Qed.

Lemma split_dash_pieces (s : string) : forall cur : string,
  dashless cur = true ->
  Forall (fun p => dashless p = true) (View.split_dash s cur)
  /\ View.split_dash s cur <> []
  /\ String.concat "-" (View.split_dash s cur) = (cur ++ s)%string.
Proof.
  induction s as [|c s IH]; intros cur D; simpl.
  - split; [repeat constructor; exact D|]. split; [discriminate|].
    rewrite string_app_nil_r. reflexivity.
  - destruct (Ascii.eqb c "-") eqn:C.
    + apply Ascii.eqb_eq in C. subst c. destruct (IH "" eq_refl) as (F & N & J).
      split; [constructor; assumption|]. split; [discriminate|].
      simpl. destruct (View.split_dash s "") as [|p ps] eqn:E; [contradiction|].
      rewrite J. reflexivity.
    + destruct (IH (cur ++ String c "")%string) as (F & N & J).
      * rewrite dashless_app, D. simpl. rewrite C. reflexivity.
      * split; [exact F|]. split; [exact N|]. rewrite J, string_app_assoc. reflexivity.
Qed.

Lemma split_concat (parts : list string) :
  Forall (fun p => dashless p = true) parts -> parts <> [] ->
  View.split_dash (String.concat "-" parts) "" = parts.
Proof.
  induction parts as [|p parts IH]; intros F N; [contradiction|].
  inversion F as [|? ? Dp F']; subst. destruct parts as [|q parts].
  - simpl. apply (split_dash_last p "" Dp).
  - change (String.concat "-" (p :: q :: parts))
      with (p ++ String "-" (String.concat "-" (q :: parts)))%string.
    rewrite (split_dash_piece p _ "" Dp). simpl append. f_equal.
    apply IH; [exact F'|discriminate].
Qed.

Lemma three_pieces (a b c : string) :
  dashless a = true -> dashless b = true -> dashless c = true ->
  View.split_dash (a ++ "-" ++ b ++ "-" ++ c) "" = [a; b; c].
Proof.
  intros Da Db Dc. simpl append.
  rewrite (split_dash_piece a _ "" Da), (split_dash_piece b _ "" Db), (split_dash_last c "" Dc).
  reflexivity.
Qed.

(** X21. Turning a date round twice in the search gives it back.  On a
    date of three pieces without a hyphen the loader's [formatDate], the
    generator's [dateFormatted] and the search's key agree (year first),
    and [formatDate] takes that form back to the date. *)
Theorem date_formats_agree :
  (forall date, View.isoDate (View.isoDate date) = date)
  /\ (forall day month year,
        dashless day = true -> dashless month = true -> dashless year = true ->
        let date := (day ++ "-" ++ month ++ "-" ++ year)%string in
        let iso := (year ++ "-" ++ month ++ "-" ++ day)%string in
        SnapshotLoader.formatDate date = iso
        /\ Generator.dateFormattedOf date = iso
        /\ View.isoDate date = iso
        /\ SnapshotLoader.formatDate iso = date).
Proof.
  split.
  - intros date. unfold View.isoDate.
    destruct (split_dash_pieces date "" eq_refl) as (F & N & J).
    rewrite split_concat.
    + rewrite rev_involutive. exact J.
    + apply Forall_rev. exact F.
    + intros H. apply N. rewrite <- (rev_involutive (View.split_dash date "")), H. reflexivity.
  - intros day month year Dd Dm Dy date iso.
    unfold SnapshotLoader.formatDate, Generator.dateFormattedOf, View.isoDate.
    unfold date, iso. rewrite !three_pieces by assumption. repeat split.
Qed.

End Dates.

Section ManifestLoading.

Local Open Scope float_scope.

Variable Date_getTime : string -> float.

(** X22. [loadSnapshotManifest] gives the empty list whenever the fetch
    is rejected, the response is not ok, the body does not parse or has no
    [snapshots].  Otherwise it gives the snapshots of the manifest,
    rearranged, each with the [dateFormatted] it came with or, when that is
    missing or empty, with [formatDate] of its date; and when every time
    is a number they are in descending order of time. *)
Theorem manifest_loading (response : Response (option (list RawSnapshot.t))) :
  let result := SnapshotLoader.loadSnapshotManifest Date_getTime response in
  match response with
  | Reply true (Some (Some snapshots)) =>
      Permutation result (map SnapshotLoader.infoOf snapshots)
      /\ (Forall (fun s => is_nan (timeOf Date_getTime s) = false) result ->
          StronglySorted (noHigher (timeOf Date_getTime)) result)
      /\ Forall
           (fun s =>
              SnapshotInfo.dateFormatted (SnapshotLoader.infoOf s)
              = match RawSnapshot.dateFormatted s with
                | Some "" | None => SnapshotLoader.formatDate (RawSnapshot.date s)
                | Some given => given
                end)
           snapshots
  | _ => result = []
  end.
Proof.
  intros result. unfold result, SnapshotLoader.loadSnapshotManifest.
  destruct response as [|[|] [[snapshots|]|]]; try reflexivity.
  split; [apply Array_sort_perm|]. split.
  - intros N. apply (sort_by_score_descending _ (timeOf Date_getTime)).
    eapply Permutation_Forall; [apply Array_sort_perm|exact N].
  - apply Forall_forall. intros s _. unfold SnapshotLoader.infoOf. simpl.
    destruct (RawSnapshot.dateFormatted s) as [[|c d]|]; reflexivity.
Qed.

Variable fetchBalances : string -> Response (Document BalanceData.t).
Variable fetchPowerVoting : string -> Response (Document PowerVotingData.t).

(** X23. [loadSnapshot] returns the two documents exactly when both
    responses arrive ok and both bodies parse; whatever else happens to
    either file it throws, and the address search then records the
    snapshot as not found. *)
Theorem snapshot_needs_both_files (snapshot : SnapshotInfo.t)
  (balances : Document BalanceData.t) (powerVoting : Document PowerVotingData.t)
  (formatSnapshotDate : string -> string) (addressToSearch : string) :
  (SnapshotLoader.loadSnapshot fetchBalances fetchPowerVoting snapshot
   = Some (balances, powerVoting)
   <-> fetchBalances
         (SnapshotLoader.url (SnapshotInfo.date snapshot) (SnapshotInfo.balancesFile snapshot))
       = Reply true (Some balances)
       /\ fetchPowerVoting
            (SnapshotLoader.url (SnapshotInfo.date snapshot)
               (SnapshotInfo.powerVotingFile snapshot))
          = Reply true (Some powerVoting))
  /\ (SnapshotLoader.loadSnapshot fetchBalances fetchPowerVoting snapshot = None ->
      View.entryFor (SnapshotLoader.loadSnapshot fetchBalances fetchPowerVoting)
        formatSnapshotDate addressToSearch snapshot
      = View.notFound formatSnapshotDate snapshot).
Proof.
  split; [|apply entryFor_failed].
  unfold SnapshotLoader.loadSnapshot.
  destruct (fetchBalances _) as [|[|] [b|]], (fetchPowerVoting _) as [|[|] [p|]]; simpl;
    split; try discriminate; try (intros [? ?]; discriminate).
  - intros H. injection H as -> ->. auto.
  - intros [H1 H2]. injection H1 as ->. injection H2 as ->. reflexivity.
Qed.

End ManifestLoading.

Section Sums.

Local Open Scope float_scope.

(** Only [-0 + -0] is [-0]. *)
Lemma SFadd_not_neg_zero x y :
  valid_binary x = true -> valid_binary y = true ->
  x <> S754_zero true -> SFadd prec emax x y <> S754_zero true.
Proof.
  intros Vx Vy Hx.
  destruct x as [sx|sx| |sx mx ex], y as [sy|sy| |sy my ey]; simpl;
    try discriminate;
    try (destruct sx; [contradiction|]; destruct sy; discriminate);
    try (destruct sx, sy; discriminate).
  simpl in Vx, Vy.
  pose proof (bounded_inv _ _ Vx) as (Ex & _). pose proof (bounded_inv _ _ Vy) as (Ey & _).
  set (ez := Z.min ex ey).
  pose proof (binary_normalize_sign
                (cond_Zopp sx (Zpos (fst (shl_align mx ex ez)))
                 + cond_Zopp sy (Zpos (fst (shl_align my ey ez))))%Z
                ez ltac:(unfold ez; lia)) as N.
  destruct (cond_Zopp sx (Zpos (fst (shl_align mx ex ez)))
            + cond_Zopp sy (Zpos (fst (shl_align my ey ez))))%Z.
  - rewrite N. discriminate.
  - intros E. rewrite E in N. exact N.
  - intros E. rewrite E in N. exact N.
Qed.

Lemma add_not_neg_zero x y :
  Prim2SF x <> S754_zero true -> Prim2SF (x + y) <> S754_zero true.
Proof.
  intros H. rewrite add_spec. apply SFadd_not_neg_zero; try apply Prim2SF_valid. exact H.
Qed.

(** Adding [0] to anything but [-0] changes nothing. *)
Lemma add_zero_exact x : Prim2SF x <> S754_zero true -> x + 0 = x.
Proof.
  intros H. apply Prim2SF_inj. rewrite add_spec, SF_zero. unfold SF64add.
  destruct (Prim2SF x) as [s|s| |s m e]; try reflexivity.
  destruct s; [contradiction|reflexivity].
Qed.

(** A sum that counts an unreadable amount as 0 is the sum of the
    readable amounts. *)
Lemma sum_skipping_nan (A : Type) (amount : A -> float) (rows : list A) : forall acc,
  Prim2SF acc <> S754_zero true ->
  fold_left (fun sum b => sum + (if Js.isNaN (amount b) then 0 else amount b)) rows acc
  = fold_left (fun sum val => sum + val)
      (filter (fun v => negb (Js.isNaN v)) (map amount rows)) acc.
Proof.
  induction rows as [|b rows IH]; intros acc H; simpl; [reflexivity|].
  destruct (Js.isNaN (amount b)); simpl.
  - rewrite (add_zero_exact acc H). apply IH. exact H.
  - apply IH. apply add_not_neg_zero. exact H.
Qed.

Lemma sumREG_total rows : Generator.sumREG rows = Store.total (Store.balanceValues rows).
Proof.
  unfold Generator.sumREG, Store.total, Store.balanceValues.
  apply (sum_skipping_nan _ Store.balanceAmount rows 0). discriminate.
Qed.

Lemma sumPower_total rows :
  Generator.sumPower rows = Store.total (Store.powerVotingValues rows).
Proof.
  unfold Generator.sumPower, Store.total, Store.powerVotingValues.
  apply (sum_skipping_nan _ Store.powerAmount rows 0). discriminate.
Qed.

(** X24. The totals the manifest generator computes (an unreadable
    amount counted as 0) are the totals of the store's statistics over the
    same rows (unreadable amounts left out), before rounding.  When the
    power file does not parse the wallet count and the REG total are kept
    and the power total is 0; when the balances file does not parse all
    three are 0. *)
Theorem manifest_totals_are_the_store_totals
  (balances : list BalanceData.t) (powerVoting : list PowerVotingData.t) :
  Generator.sumREG balances = Store.total (Store.balanceValues balances)
  /\ Generator.sumPower powerVoting = Store.total (Store.powerVotingValues powerVoting)
  /\ match Store.balanceStats balances with
     | Some s => Stats.total s = Generator.sumREG balances
     | None => Generator.sumREG balances = 0
     end
  /\ match Store.powerVotingStats powerVoting with
     | Some s => Stats.total s = Generator.sumPower powerVoting
     | None => Generator.sumPower powerVoting = 0
     end
  /\ Generator.measure (Some (DocArray balances)) (Some (DocArray powerVoting))
     = (length balances, Store.total (Store.balanceValues balances),
        Store.total (Store.powerVotingValues powerVoting))
  /\ Generator.measure (Some (DocArray balances)) None
     = (length balances, Store.total (Store.balanceValues balances), 0)
  /\ Generator.measure None (Some (DocArray powerVoting)) = (0%nat, 0, 0).
Proof.
  split; [apply sumREG_total|]. split; [apply sumPower_total|]. split; [|split].
  - rewrite sumREG_total, balanceStats_eq. unfold Store.statsOf.
    destruct (Store.balanceValues balances); reflexivity.
  - rewrite sumPower_total, powerVotingStats_eq. unfold Store.statsOf.
    destruct (Store.powerVotingValues powerVoting); reflexivity.
  - unfold Generator.measure. simpl Store.rows. rewrite sumREG_total, sumPower_total.
    repeat split.
Qed.

End Sums.

Section SortedInput.

Local Open Scope float_scope.

Variable A : Type.
Variable comparefn : A -> A -> float.

(** No element has to come before the one in front of it. *)
Local Abbreviation settled := (fun y x : A => (0 <? comparefn y x) = false).

Lemma Sorted_middle (l1 : list A) (y x : A) (l2 : list A) :
  Sorted settled (l1 ++ y :: x :: l2) -> settled y x.
Proof.
  induction l1 as [|a l1 IH]; simpl; intros S.
  - inversion S as [|? ? _ H]; subst. inversion H; subst. assumption.
  - inversion S; subst. apply IH. assumption.
Qed.

Lemma sort_fold_settled (l : list A) : forall acc,
  Sorted settled (rev acc ++ l) ->
  fold_left (fun sorted x => sort_insert comparefn x sorted) l acc = rev l ++ acc.
Proof.
  induction l as [|x l IH]; intros acc S; simpl; [reflexivity|].
  assert (I : sort_insert comparefn x acc = x :: acc).
  { destruct acc as [|y rest]; [reflexivity|]. simpl in *.
    rewrite <- app_assoc in S. simpl in S. rewrite (Sorted_middle _ _ _ _ S). reflexivity. }
  rewrite I, IH.
  - rewrite <- app_assoc. reflexivity.
  - simpl. rewrite <- app_assoc. exact S.
Qed.

(** Sorting an array that is in order leaves it as it is. *)
Lemma Array_sort_settled (l : list A) : Sorted settled l -> Array_sort comparefn l = l.
Proof.
  intros S. unfold Array_sort. rewrite (sort_fold_settled l [] S), app_nil_r.
  apply rev_involutive.
Qed.

Hypothesis antisymmetric :
  forall x y, (0 <? comparefn y x) = true -> (0 <? comparefn x y) = false.

Lemma Array_sort_is_settled (l : list A) : Sorted settled (Array_sort comparefn l).
Proof.
  apply Array_sort_sorted with (P := fun _ => True).
  - intros x y _ _ H. apply antisymmetric. exact H.
  - intros x y _ _ H. exact H.
  - apply Forall_forall. intros. exact I.
Qed.

End SortedInput.

Section SortedImage.

Local Open Scope float_scope.

Variables A B : Type.
Variable g : A -> B.
Variable c : A -> A -> float.
Variable c' : B -> B -> float.
Hypothesis same : forall a b, c' (g a) (g b) = c a b.

Lemma sort_insert_map x acc :
  sort_insert c' (g x) (map g acc) = map g (sort_insert c x acc).
Proof.
  induction acc as [|y acc IH]; simpl; [reflexivity|].
  rewrite same. destruct (0 <? c y x); simpl; [rewrite IH|]; reflexivity.
Qed.

Lemma Array_sort_map l : Array_sort c' (map g l) = map g (Array_sort c l).
Proof.
  unfold Array_sort. rewrite map_rev. f_equal.
  change (@nil B) with (map g []). generalize (@nil A).
  induction l as [|x l IH]; intros acc; simpl; [reflexivity|].
  rewrite sort_insert_map. apply IH.
Qed.

End SortedImage.

Section Generated.

Local Open Scope float_scope.

Variable Date_getTime : string -> float.

Lemma newest_antisymmetric (t : float) (u : float) :
  (0 <? t - u) = true -> (0 <? u - t) = false.
Proof.
  rewrite !sub_pos. intros H. destruct (ltb_true _ _ H) as (Nu & Nt & K).
  rewrite ltb_key, Nt, Nu. simpl. apply Z.ltb_ge. lia.
Qed.

Lemma dateFormattedOf_not_empty dateDir :
  String.eqb (Generator.dateFormattedOf dateDir) "" = false.
Proof.
  unfold Generator.dateFormattedOf.
  destruct (SnapshotLoader.piece (View.split_dash dateDir "") 2); reflexivity.
Qed.

Lemma entryOfDir_In dir e :
  In e (Generator.entryOfDir dir) ->
  ManifestEntry.date e = Dirent.name dir
  /\ ManifestEntry.dateFormatted e = Generator.dateFormattedOf (Dirent.name dir)
  /\ Generator.findFile "balancesREG_" (Dirent.files dir) = Some (ManifestEntry.balancesFile e)
  /\ Generator.findFile "powerVotingREG_" (Dirent.files dir)
     = Some (ManifestEntry.powerVotingFile e)
  /\ (let '(walletCount, totalREG, totalPowerVoting) :=
        Generator.measure (Dirent.readBalances dir (ManifestEntry.balancesFile e))
          (Dirent.readPowerVoting dir (ManifestEntry.powerVotingFile e)) in
      ManifestEntry.metrics e
      = {| Metrics.walletCount := walletCount;
           Metrics.totalREG := Generator.roundCents totalREG;
           Metrics.totalPowerVoting := Generator.roundCents totalPowerVoting |}).
Proof.
  unfold Generator.entryOfDir.
  destruct (Generator.findFile "balancesREG_" _) as [bf|]; [|contradiction].
  destruct (Generator.findFile "powerVotingREG_" _) as [pf|]; [|contradiction].
  destruct (Generator.measure _ _) as [[w t] p] eqn:M.
  intros [<-|[]]. simpl. rewrite M. repeat split.
Qed.

Lemma findFile_found prefix files f :
  Generator.findFile prefix files = Some f ->
  In f files /\ Js.startsWith f prefix = true /\ Js.endsWith f ".json" = true.
Proof.
  unfold Generator.findFile, Array_find. intros H. apply find_some in H.
  destruct H as (I & H). apply andb_true_iff in H. tauto.
Qed.

(** X25. The generator writes nothing when the snapshot directory is
    missing.  Otherwise the manifest has one entry for each directory
    that holds a balances file and a power file, and no other: the entry
    carries the directory's name as its date, the date turned round as
    [dateFormatted], and the first file of the directory with the
    prefix of each kind and the suffix [.json]; when every time is a
    number the entries are in descending order of time. *)
Theorem generated_manifest (snapshotDir : option (list Dirent.t)) :
  match snapshotDir, Generator.generateManifest Date_getTime snapshotDir with
  | None, None => True
  | Some dirents, Some snapshots =>
      Permutation snapshots (flat_map Generator.entryOfDir (filter Dirent.isDirectory dirents))
      /\ (forall e, In e snapshots ->
            exists dir,
              In dir dirents /\ Dirent.isDirectory dir = true
              /\ ManifestEntry.date e = Dirent.name dir
              /\ ManifestEntry.dateFormatted e = Generator.dateFormattedOf (Dirent.name dir)
              /\ In (ManifestEntry.balancesFile e) (Dirent.files dir)
              /\ Js.startsWith (ManifestEntry.balancesFile e) "balancesREG_" = true
              /\ Js.endsWith (ManifestEntry.balancesFile e) ".json" = true
              /\ In (ManifestEntry.powerVotingFile e) (Dirent.files dir)
              /\ Js.startsWith (ManifestEntry.powerVotingFile e) "powerVotingREG_" = true
              /\ Js.endsWith (ManifestEntry.powerVotingFile e) ".json" = true)
      /\ (forall dir, In dir dirents ->
            Dirent.isDirectory dir = false
            \/ Generator.findFile "balancesREG_" (Dirent.files dir) = None
            \/ Generator.findFile "powerVotingREG_" (Dirent.files dir) = None
            \/ exists e, In e snapshots /\ ManifestEntry.date e = Dirent.name dir)
      /\ (Forall (fun e => is_nan (Date_getTime (ManifestEntry.dateFormatted e)) = false)
            snapshots ->
          StronglySorted
            (noHigher (fun e => Date_getTime (ManifestEntry.dateFormatted e))) snapshots)
  | _, _ => False
  end.
Proof.
  destruct snapshotDir as [dirents|]; simpl; [|exact I].
  set (l := flat_map Generator.entryOfDir (filter Dirent.isDirectory dirents)).
  pose proof (Array_sort_perm _ (Generator.byNewest Date_getTime) l) as P.
  split; [exact P|]. split; [|split].
  - intros e He. apply (Permutation_in _ P) in He. unfold l in He.
    apply in_flat_map in He. destruct He as (dir & Hd & He). apply filter_In in Hd.
    destruct Hd as (Hd & Dir). exists dir.
    destruct (entryOfDir_In dir e He) as (E1 & E2 & E3 & E4 & _).
    destruct (findFile_found _ _ _ E3) as (B1 & B2 & B3).
    destruct (findFile_found _ _ _ E4) as (C1 & C2 & C3).
    repeat split; assumption.
  - intros dir Hd. destruct (Dirent.isDirectory dir) eqn:Dir; [|auto].
    destruct (Generator.findFile "balancesREG_" (Dirent.files dir)) as [bf|] eqn:Fb; [|auto].
    destruct (Generator.findFile "powerVotingREG_" (Dirent.files dir)) as [pf|] eqn:Fp; [|auto].
    right. right. right.
    assert (Q : exists e, In e (Generator.entryOfDir dir)).
    { unfold Generator.entryOfDir. rewrite Fb, Fp.
      destruct (Generator.measure _ _) as [[w t] p]. eexists. left. reflexivity. }
    destruct Q as (e & He). exists e. split.
    + apply (Permutation_in _ (Permutation_sym P)). unfold l. apply in_flat_map.
      exists dir. split; [apply filter_In; auto|exact He].
    + apply (entryOfDir_In dir e He).
  - intros N.
    apply (sort_by_score_descending _ (fun e => Date_getTime (ManifestEntry.dateFormatted e))).
    eapply Permutation_Forall; [exact P|exact N].
Qed.

(** X26. When the time of every snapshot is a number, the loader reads
    back a manifest that the generator wrote as it was written: the same
    snapshots in the same order, with their dates, formatted dates and
    files. *)
Theorem manifest_round_trip (snapshotDir : option (list Dirent.t))
  (snapshots : list ManifestEntry.t) :
  Generator.generateManifest Date_getTime snapshotDir = Some snapshots ->
  Forall (fun e => is_nan (Date_getTime (ManifestEntry.dateFormatted e)) = false) snapshots ->
  SnapshotLoader.loadSnapshotManifest Date_getTime
    (Reply true (Some (Some (map served snapshots))))
  = map (fun e => SnapshotInfo.make (ManifestEntry.date e) (ManifestEntry.dateFormatted e)
                    (ManifestEntry.balancesFile e) (ManifestEntry.powerVotingFile e))
      snapshots.
Proof.
  destruct snapshotDir as [dirents|]; [|discriminate]. simpl. intros H _. injection H as <-.
  set (l := flat_map Generator.entryOfDir (filter Dirent.isDirectory dirents)).
  set (out := Array_sort (Generator.byNewest Date_getTime) l).
  set (project := fun e => SnapshotInfo.make (ManifestEntry.date e)
                             (ManifestEntry.dateFormatted e) (ManifestEntry.balancesFile e)
                             (ManifestEntry.powerVotingFile e)).
  assert (E : map SnapshotLoader.infoOf (map served out) = map project out).
  { rewrite map_map. apply map_ext_in. intros e He.
    apply (Permutation_in _ (Array_sort_perm _ _ l)) in He. unfold l in He.
    apply in_flat_map in He. destruct He as (dir & _ & He).
    destruct (entryOfDir_In dir e He) as (_ & E2 & _).
    unfold SnapshotLoader.infoOf, served, project. simpl.
    rewrite E2, dateFormattedOf_not_empty. reflexivity. }
  rewrite E.
  rewrite (Array_sort_map _ _ project (Generator.byNewest Date_getTime)
             (SnapshotLoader.byNewest Date_getTime)) by reflexivity.
  f_equal. apply Array_sort_settled. apply Array_sort_is_settled.
  intros x y. apply newest_antisymmetric.
Qed.

End Generated.


(* ================================================================== *)
(** * Part XVI: the order of the search *)
(* ================================================================== *)

Section DateOrder.

Local Open Scope Z_scope.

Lemma digit_of_code c d :
  Js.digit_of c = Some d -> 0 <= d <= 9 /\ N_of_ascii c = Z.to_N (48 + d).
Proof.
  unfold Js.digit_of. destruct (_ && _) eqn:E; [|discriminate].
  apply andb_true_iff in E. destruct E as (A & B).
  apply Nat.leb_le in A. apply Nat.leb_le in B. intros H. injection H as <-.
  split; [lia|]. unfold nat_of_ascii in *.
  set (n := N_of_ascii c) in *. lia.
Qed.

Lemma digits_all (s : string) : forall acc n,
  allDigits s = true ->
  Js.digits s acc n
  = (acc * 10 ^ Z.of_nat (String.length s) + numberOf s, n + Z.of_nat (String.length s), "")
  /\ 0 <= numberOf s < 10 ^ Z.of_nat (String.length s).
Proof.
  unfold numberOf. induction s as [|c s IH]; intros acc n D.
  - simpl. split; [|lia].
    apply pair_equal_spec; split; [apply pair_equal_spec; split|]; try reflexivity; lia.
  - simpl in D. cbn [Js.digits String.length].
    destruct (Js.digit_of c) as [d|] eqn:Dc; [|discriminate].
    destruct (digit_of_code c d Dc) as (Rd & _).
    destruct (IH (10 * acc + d) (n + 1) D) as (E & _).
    destruct (IH (10 * 0 + d) (0 + 1) D) as (E0 & _).
    destruct (IH 0 0 D) as (E1 & B).
    rewrite E, E0. rewrite E1 in B. cbn [fst] in *.
    replace (Z.of_nat (S (String.length s))) with (Z.of_nat (String.length s) + 1) by lia.
    rewrite Z.pow_add_r by lia. set (p := 10 ^ Z.of_nat (String.length s)) in *.
    set (v := fst (fst (Js.digits s 0 0))) in *.
    assert (T : fst (fst (Js.digits s 0 0)) = v) by reflexivity.
    rewrite E1 in T. cbn [fst] in T.
    split; [|nia].
    apply pair_equal_spec; split; [apply pair_equal_spec; split|]; try reflexivity; lia.
Qed.

Lemma numberOf_cons c s d :
  Js.digit_of c = Some d -> allDigits s = true ->
  numberOf (String c s) = d * 10 ^ Z.of_nat (String.length s) + numberOf s.
Proof.
  intros Dc D. unfold numberOf at 1. cbn [Js.digits]. rewrite Dc.
  destruct (digits_all s (10 * 0 + d) (0 + 1) D) as (E & _). rewrite E. cbn [fst]. lia.
Qed.

(** Strings of as many digits are in the order of their numbers. *)
Lemma compare_digits (a : string) : forall b : string,
  allDigits a = true -> allDigits b = true -> String.length a = String.length b ->
  String.compare a b = Z.compare (numberOf a) (numberOf b).
Proof.
  induction a as [|x a IH]; intros [|y b] Da Db L; try discriminate.
  - reflexivity.
  - simpl in Da, Db, L. injection L as L.
    destruct (Js.digit_of x) as [dx|] eqn:Dx; [|discriminate].
    destruct (Js.digit_of y) as [dy|] eqn:Dy; [|discriminate].
    rewrite (numberOf_cons x a dx Dx Da), (numberOf_cons y b dy Dy Db).
    destruct (digit_of_code x dx Dx) as (Rx & Cx).
    destruct (digit_of_code y dy Dy) as (Ry & Cy).
    destruct (digits_all a 0 0 Da) as (_ & Ba). destruct (digits_all b 0 0 Db) as (_ & Bb).
    rewrite <- L in *. set (p := 10 ^ Z.of_nat (String.length a)) in *.
    simpl String.compare. unfold Ascii.compare. rewrite Cx, Cy.
    destruct (N.compare_spec (Z.to_N (48 + dx)) (Z.to_N (48 + dy))) as [E|E|E].
    + assert (dx = dy) by lia. subst dy. rewrite (IH b Da Db L).
      destruct (Z.compare_spec (numberOf a) (numberOf b));
        symmetry; [apply Z.compare_eq_iff|apply Z.compare_lt_iff|apply Z.compare_gt_iff]; lia.
    + symmetry. apply Z.compare_lt_iff. nia.
    + symmetry. apply Z.compare_gt_iff. nia.
Qed.

Lemma compare_same_length (a1 : string) : forall (a2 s1 s2 : string),
  String.length a1 = String.length a2 ->
  String.compare (a1 ++ s1) (a2 ++ s2)
  = match String.compare a1 a2 with
    | Eq => String.compare s1 s2
    | c => c
    end.
Proof.
  induction a1 as [|x a1 IH]; intros [|y a2] s1 s2 L; try discriminate; [reflexivity|].
  simpl in L. injection L as L. simpl. destruct (Ascii.compare x y); auto.
Qed.

Lemma wellFormed_pieces date :
  wellFormed date = true ->
  exists day month year,
    View.split_dash date "" = [day; month; year]
    /\ allDigits day = true /\ allDigits month = true /\ allDigits year = true
    /\ String.length day = 2%nat /\ String.length month = 2%nat
    /\ String.length year = 4%nat.
Proof.
  unfold wellFormed. destruct (View.split_dash date "") as [|d [|m [|y [|? ?]]]]; try discriminate.
  intros H. repeat (apply andb_true_iff in H; destruct H as (H & ?)).
  exists d, m, y. repeat split; try assumption; apply Nat.eqb_eq; assumption.
Qed.

(** Written year first, well-formed dates are in the order of their days. *)
Lemma isoDate_chronological d1 d2 :
  wellFormed d1 = true -> wellFormed d2 = true ->
  String.compare (View.isoDate d1) (View.isoDate d2) = Z.compare (dayNumber d1) (dayNumber d2).
Proof.
  intros W1 W2.
  destruct (wellFormed_pieces d1 W1) as (a1 & b1 & c1 & S1 & Da1 & Db1 & Dc1 & La1 & Lb1 & Lc1).
  destruct (wellFormed_pieces d2 W2) as (a2 & b2 & c2 & S2 & Da2 & Db2 & Dc2 & La2 & Lb2 & Lc2).
  unfold View.isoDate, dayNumber. rewrite S1, S2.
  change (String.concat "-" (rev [a1; b1; c1])) with (c1 ++ String "-" (b1 ++ String "-" a1))%string.
  change (String.concat "-" (rev [a2; b2; c2])) with (c2 ++ String "-" (b2 ++ String "-" a2))%string.
  rewrite compare_same_length by congruence.
  rewrite (compare_digits c1 c2) by congruence.
  simpl String.compare at 1. change (Ascii.compare "-" "-") with Eq. cbv iota.
  rewrite compare_same_length by congruence.
  rewrite (compare_digits b1 b2) by congruence.
  simpl String.compare at 1. change (Ascii.compare "-" "-") with Eq. cbv iota.
  rewrite (compare_digits a1 a2) by congruence.
  destruct (digits_all a1 0 0 Da1) as (_ & A1). destruct (digits_all a2 0 0 Da2) as (_ & A2).
  destruct (digits_all b1 0 0 Db1) as (_ & B1). destruct (digits_all b2 0 0 Db2) as (_ & B2).
  rewrite La1 in A1. rewrite La2 in A2. rewrite Lb1 in B1. rewrite Lb2 in B2.
  change (10 ^ Z.of_nat 2) with 100 in *.
  destruct (Z.compare_spec (numberOf c1) (numberOf c2));
    destruct (Z.compare_spec (numberOf b1) (numberOf b2));
    destruct (Z.compare_spec (numberOf a1) (numberOf a2));
    symmetry; first [apply Z.compare_eq_iff; lia|apply Z.compare_lt_iff; lia
                    |apply Z.compare_gt_iff; lia].
Qed.

End DateOrder.

Section SearchOrder.

Local Open Scope float_scope.

Variable balances : list BalanceData.t.
Variable powerVoting : list PowerVotingData.t.
Variable loadSnapshot :
  SnapshotInfo.t -> option (Document BalanceData.t * Document PowerVotingData.t).
Variable formatSnapshotDate : string -> string.

Lemma search_shape availableSnapshots searchAddress :
  String.eqb (Js.trim searchAddress) "" = false ->
  exists current,
    SearchResult.isCurrent current = true
    /\ View.searchAddressAcrossSnapshots balances powerVoting availableSnapshots
         loadSnapshot formatSnapshotDate searchAddress
       = current :: Array_sort View.byDate
                      (map (View.entryFor loadSnapshot formatSnapshotDate
                              (Js.toLowerCase (Js.trim searchAddress)))
                         availableSnapshots).
Proof.
  intros Hne. unfold View.searchAddressAcrossSnapshots. rewrite Hne.
  rewrite searchSnapshot_fold. simpl app.
  eexists. split; [|apply sort_current_first]; reflexivity.
Qed.

Lemma localeCompare_positive x y :
  (0 <? View.localeCompare x y) = match String.compare x y with Gt => true | _ => false end.
Proof. unfold View.localeCompare. destruct (String.compare x y); reflexivity. Qed.

(** X18. When the dates of the manifest are written DD-MM-YYYY, the
    search lists the current dataset first and then the snapshots from the
    newest day to the oldest, one entry per snapshot of the manifest. *)
Theorem search_lists_newest_first
  (availableSnapshots : list SnapshotInfo.t) (searchAddress : string) :
  String.eqb (Js.trim searchAddress) "" = false ->
  Forall (fun s => wellFormed (SnapshotInfo.date s) = true) availableSnapshots ->
  exists current historical,
    View.searchAddressAcrossSnapshots balances powerVoting availableSnapshots
      loadSnapshot formatSnapshotDate searchAddress
    = current :: historical
    /\ SearchResult.isCurrent current = true
    /\ Permutation (map SearchResult.date historical)
         (map SnapshotInfo.date availableSnapshots)
    /\ StronglySorted
         (fun a b => (dayNumber (SearchResult.date b) <= dayNumber (SearchResult.date a))%Z)
         historical.
Proof.
  intros Hne W. destruct (search_shape availableSnapshots searchAddress Hne) as (current & C & E).
  set (addressToSearch := Js.toLowerCase (Js.trim searchAddress)) in *.
  set (entries := map (View.entryFor loadSnapshot formatSnapshotDate addressToSearch)
                    availableSnapshots) in *.
  exists current, (Array_sort View.byDate entries).
  assert (H : Forall (fun e => SearchResult.isCurrent e = false
                               /\ wellFormed (SearchResult.date e) = true) entries).
  { apply Forall_forall. intros e He. apply in_map_iff in He. destruct He as (s & <- & Hs).
    destruct (entryFor_historical loadSnapshot formatSnapshotDate addressToSearch s) as (A & B).
    rewrite A, B. split; [reflexivity|]. rewrite Forall_forall in W. apply W. exact Hs. }
  split; [exact E|]. split; [exact C|]. split.
  - eapply Permutation_trans; [apply Permutation_map, Array_sort_perm|].
    unfold entries. rewrite map_map. apply Permutation_refl'. apply map_ext. intros s.
    apply (entryFor_historical loadSnapshot formatSnapshotDate addressToSearch s).
  - apply Sorted_StronglySorted; [intros a b c; lia|].
    apply Array_sort_sorted
      with (P := fun e => SearchResult.isCurrent e = false
                          /\ wellFormed (SearchResult.date e) = true); [| |exact H].
    + intros x y (Cx & Wx) (Cy & Wy). unfold View.byDate. rewrite Cy, Cx.
      rewrite localeCompare_positive, (isoDate_chronological _ _ Wx Wy).
      destruct (Z.compare_spec (dayNumber (SearchResult.date x)) (dayNumber (SearchResult.date y)));
        try discriminate. lia.
    + intros x y (Cx & Wx) (Cy & Wy). unfold View.byDate. rewrite Cy, Cx.
      rewrite localeCompare_positive, (isoDate_chronological _ _ Wx Wy).
      destruct (Z.compare_spec (dayNumber (SearchResult.date x)) (dayNumber (SearchResult.date y)));
        try discriminate; lia.
Qed.

End SearchOrder.


(* ================================================================== *)
(** * Part XVII: signs and totals *)
(* ================================================================== *)

Section Signs.

Local Open Scope Z_scope.

(** A datum that is not NaN and carries the sign [s], a zero included. *)
Local Abbreviation carries :=
  (fun (s : bool) (x : spec_float) =>
     match x with
     | S754_zero s' | S754_infinity s' | S754_finite s' _ _ => s' = s
     | S754_nan => False
     end).

Lemma shr_fexp_nonneg m e l : 0 <= m -> 0 <= shr_m (fst (shr_fexp prec emax m e l)).
Proof.
  intros H. unfold shr_fexp, shr.
  destruct (fexp prec emax (Zdigits2 m + e) - e) as [|n|n]; simpl fst;
    rewrite ?shr_record_of_loc_m; try assumption.
  rewrite iter_shr_m by (rewrite shr_record_of_loc_m; assumption).
  rewrite shr_record_of_loc_m. apply Z.div_pos; [assumption|apply Z.pow_pos_nonneg; lia].
Qed.

Lemma round_nearest_even_nonneg m l : 0 <= m -> 0 <= round_nearest_even m l.
Proof.
  intros H. destruct l as [|[]]; simpl; try assumption; try lia.
  destruct (Z.even m); lia.
Qed.

Lemma binary_round_aux_carries s m e l :
  0 <= m -> carries s (binary_round_aux prec emax s m e l).
Proof.
  intros H. unfold binary_round_aux.
  pose proof (shr_fexp_nonneg m e l H) as P1.
  destruct (shr_fexp prec emax m e l) as [mrs' e']. simpl fst in P1.
  pose proof (round_nearest_even_nonneg (shr_m mrs') (loc_of_shr_record mrs') P1) as R.
  pose proof (shr_fexp_nonneg _ e' loc_Exact R) as P2.
  destruct (shr_fexp prec emax _ e' loc_Exact) as [mrs'' e'']. simpl fst in P2.
  destruct (shr_m mrs'') as [|q|q]; try lia; [reflexivity|].
  destruct (e'' <=? emax - prec); reflexivity.
Qed.

Lemma SFdiv_carries x y :
  carries false x \/ (exists s, x = S754_zero s) -> signed false y ->
  SFdiv prec emax x y = S754_nan
  \/ carries false (SFdiv prec emax x y) \/ exists s, SFdiv prec emax x y = S754_zero s.
Proof.
  intros Hx Hy.
  destruct y as [sy|sy| |sy my ey]; simpl in Hy; try contradiction; subst sy;
    destruct x as [sx|sx| |sx mx ex]; simpl; eauto;
    (destruct Hx as [Hx|(s & Hx)]; [|discriminate]); simpl in Hx; subst sx; auto.
  right. left. unfold SFdiv_core_binary.
  set (m' := match _ with 0 => Zpos mx | Zpos _ => Z.shiftl (Zpos mx) _ | Zneg _ => 0 end).
  assert (M : 0 <= m').
  { unfold m'. destruct (_ - _ - _); try lia. apply Z.shiftl_nonneg. lia. }
  pose proof (Z.div_eucl_eq m' (Zpos my) ltac:(lia)) as Q.
  pose proof (Z.mod_pos_bound m' (Zpos my) ltac:(lia)) as Rm.
  unfold Z.modulo in Rm.
  destruct (Z.div_eucl m' (Zpos my)) as [q r]. simpl xorb.
  apply binary_round_aux_carries. nia.
Qed.

Lemma SFmul_carries x y :
  carries false x \/ (exists s, x = S754_zero s) -> signed false y ->
  SFmul prec emax x y = S754_nan
  \/ carries false (SFmul prec emax x y) \/ exists s, SFmul prec emax x y = S754_zero s.
Proof.
  intros Hx Hy.
  destruct y as [sy|sy| |sy my ey]; simpl in Hy; try contradiction; subst sy;
    destruct x as [sx|sx| |sx mx ex]; simpl; eauto;
    (destruct Hx as [Hx|(s & Hx)]; [|discriminate]); simpl in Hx; subst sx; auto.
  right. left. apply binary_round_aux_carries. lia.
Qed.

Local Open Scope float_scope.

(** What a number that is not below zero is. *)
Lemma not_negative_SF x :
  (x <? 0) = false ->
  Prim2SF x = S754_nan \/ carries false (Prim2SF x) \/ exists s, Prim2SF x = S754_zero s.
Proof.
  intros H. destruct (is_nan x) eqn:N.
  - left. rewrite is_nan_SF in N. destruct (Prim2SF x); try discriminate. reflexivity.
  - right. apply ltb_false in H; try assumption; try reflexivity.
    change (key 0) with 0%Z in H. unfold key in H. pose proof (Prim2SF_valid x) as V.
    assert (T : (0 < 2 ^ (emax - emin))%Z)
      by (apply Z.pow_pos_nonneg; unfold emax, SpecFloat.emin, prec; lia).
    rewrite is_nan_SF in N.
    destruct (Prim2SF x) as [s|s| |s m e]; eauto.
    + left. destruct s; [unfold scaled, cond_Zopp in H; lia|reflexivity].
    + discriminate.
    + left. simpl in V. pose proof (magnitude_pos _ _ V).
      destruct s; [unfold scaled, cond_Zopp in H; lia|reflexivity].
Qed.

Lemma SF_not_negative x :
  Prim2SF x = S754_nan \/ carries false (Prim2SF x) \/ (exists s, Prim2SF x = S754_zero s) ->
  (x <? 0) = false.
Proof.
  intros H. rewrite ltb_key. destruct (is_nan x) eqn:N; [reflexivity|]. simpl.
  apply Z.ltb_ge. change (key 0) with 0%Z. unfold key.
  pose proof (Prim2SF_valid x) as V. rewrite is_nan_SF in N.
  assert (T : (0 < 2 ^ (emax - emin))%Z)
    by (apply Z.pow_pos_nonneg; unfold emax, SpecFloat.emin, prec; lia).
  destruct H as [H|[H|(s & H)]]; [rewrite H in N; discriminate| |rewrite H; simpl; lia].
  destruct (Prim2SF x) as [s|s| |s m e]; simpl in H; try contradiction; subst;
    unfold scaled, cond_Zopp; try lia.
  all: simpl in V; pose proof (magnitude_pos _ _ V); lia.
Qed.

(** A number that is not negative, divided or multiplied by a positive
    one, is not negative. *)
Theorem div_not_negative x y :
  (x <? 0) = false -> (0 <? y) = true -> (x / y <? 0) = false.
Proof.
  intros Hx Hy. apply SF_not_negative. rewrite div_spec.
  pose proof (positive_signed y Hy) as Sy.
  destruct (not_negative_SF x Hx) as [N|H].
  - left. unfold SF64div. rewrite N. reflexivity.
  - apply SFdiv_carries; assumption.
Qed.

Theorem mul_not_negative x y :
  (x <? 0) = false -> (0 <? y) = true -> (x * y <? 0) = false.
Proof.
  intros Hx Hy. apply SF_not_negative. rewrite mul_spec.
  pose proof (positive_signed y Hy) as Sy.
  destruct (not_negative_SF x Hx) as [N|H].
  - left. unfold SF64mul. rewrite N. reflexivity.
  - apply SFmul_carries; assumption.
Qed.

End Signs.

Section Ratios.

Local Open Scope float_scope.

Lemma sum_not_negative (l : list AddressPoolPosition.t) :
  (forall p, In p l -> (AddressPoolPosition.regAmount p <=? 0) = false) ->
  (fold_left (fun sum pos => sum + AddressPoolPosition.regAmount pos) l 0 <? 0) = false.
Proof.
  intros H. destruct l as [|x xs]; [reflexivity|].
  destruct (liquidity_sum (x :: xs) 0 H) as [N|P].
  - right. right. split; [reflexivity|discriminate].
  - apply ltb_nan_l. exact N.
  - apply ltb_of_leb. destruct (ltb_true _ _ P) as (? & ? & ?).
    apply leb_intro; try assumption. lia.
Qed.

(** X13. The [boostMultiplier] of a correlation is never negative, and
    neither are the [regInPools] and the [poolRegPercentage] that
    [analyzePoolPositions] returns; [analyzePoolPositions] returns [null]
    exactly for a wallet without [sourceBalance]. *)
Theorem ratios_are_never_negative
  (m : Dict float) (profile : AddressPoolProfile.t) (walletData : BalanceData.t) :
  (PoolPowerCorrelation.boostMultiplier (Store.correlate m profile) <? 0) = false
  /\ match View.analyzePoolPositions walletData with
     | Some a =>
         BalanceData.sourceBalance walletData <> None
         /\ (WalletPools.regInPools a <? 0) = false
         /\ (WalletPools.poolRegPercentage a <? 0) = false
     | None => BalanceData.sourceBalance walletData = None
     end.
Proof.
  split.
  - simpl. destruct (0 <? AddressPoolProfile.poolLiquidityREG profile) eqn:P; [|reflexivity].
    apply div_not_negative; [apply Math_max_not_negative|exact P].
  - unfold View.analyzePoolPositions.
    destruct (BalanceData.sourceBalance walletData) as [networks|]; [|reflexivity].
    destruct (tallyNetworks_flat networks View.emptyTally (NoDup_nil _)) as (_ & B & _).
    simpl in B. simpl. rewrite B.
    assert (S : (fold_left (fun sum pos => sum + AddressPoolPosition.regAmount pos)
                   (Store.walletPositions networks) 0 <? 0) = false).
    { apply sum_not_negative. intros p Hp. apply (walletPositions_In _ _ Hp). }
    split; [discriminate|]. split; [exact S|].
    destruct (0 <? Store.balanceAmount walletData) eqn:P; [|reflexivity].
    apply mul_not_negative; [|reflexivity]. apply div_not_negative; assumption.
Qed.

End Ratios.

Section DexTotals.

Local Open Scope float_scope.

(** The positions of an exchange among positions. *)
Local Abbreviation under :=
  (fun (dex : string) (l : list (string * PoolPosition.t)) =>
     filter (fun p => String.eqb dex (fst p)) l).

(** What the per-DEX object holds once the positions [l] are in. *)
Local Abbreviation totalled :=
  (fun (d : Dict Amount) (l : list (string * PoolPosition.t)) =>
     forall dex, Dict_get dex d = dexEntry dex (under dex l)).

Lemma amountsSum_snoc l p :
  amountsSum (l ++ [p]) = amountsSum l + Store.regAmountOf (snd p).
Proof. unfold amountsSum. rewrite fold_left_app. reflexivity. Qed.

Lemma amountsSum_positive l :
  l <> [] -> Forall (fun p => (0 <? Store.regAmountOf (snd p)) = true) l ->
  (0 <? amountsSum l) = true.
Proof.
  induction l as [|p l IH] using rev_ind; intros N F; [contradiction|].
  rewrite amountsSum_snoc. apply Forall_app in F. destruct F as (F & Fp).
  inversion Fp as [|? ? Pp _]; subst. destruct l as [|q l].
  - change (amountsSum []) with 0. rewrite (add_zero_l _ 0 Pp eq_refl). exact Pp.
  - apply add_positive; [|exact Pp]. apply IH; [discriminate|exact F].
Qed.

Lemma positive_truthy f : (0 <? f) = true -> Js.truthy (VNum f) = true.
Proof.
  intros P. destruct (ltb_true _ _ P) as (_ & N & K). change (key 0) with 0%Z in K.
  unfold Js.truthy, is_zero. rewrite N, eqb_key, N. simpl negb. simpl andb.
  rewrite orb_false_r. apply negb_true_iff, Z.eqb_neq. change (key zero) with 0%Z. lia.
Qed.

Lemma dexEntry_proto l : dexEntry "__proto__" l = None.
Proof. destruct l; reflexivity. Qed.

(** The entry of an exchange after one more position of the exchange. *)
Lemma dexEntry_snoc dexName pos (d : Dict Amount) l :
  dexName <> "__proto__" ->
  (0 <? Store.regAmountOf pos) = true ->
  Forall (fun p => (0 <? Store.regAmountOf (snd p)) = true) l ->
  Dict_get dexName d = dexEntry dexName l ->
  Some (plus (Store.dexTotal dexName d) (Number (Store.regAmountOf pos)))
  = dexEntry dexName (l ++ [(dexName, pos)]).
Proof.
  intros Np Pp F T. apply String.eqb_neq in Np.
  unfold Store.dexTotal, Object_get. rewrite T. unfold dexEntry. rewrite Np.
  destruct l as [|q l'].
  - simpl app. cbv iota. destruct (Object_inherits dexName); reflexivity.
  - change ((q :: l') ++ [(dexName, pos)]) with (q :: (l' ++ [(dexName, pos)])). cbv iota.
    destruct (Object_inherits dexName).
    + simpl. rewrite map_app. reflexivity.
    + assert (P : (0 <? amountsSum (q :: l')) = true)
        by (apply amountsSum_positive; [discriminate|exact F]).
      rewrite (positive_truthy _ P).
      pose proof (amountsSum_snoc (q :: l') (dexName, pos)) as A. simpl in A.
      simpl. rewrite A. reflexivity.
Qed.

Lemma addToStats_totalled dexName pos (s : PoolStats.t) l :
  (0 <? Store.regAmountOf pos) = true ->
  Forall (fun p => (0 <? Store.regAmountOf (snd p)) = true) l ->
  totalled (PoolStats.dexs s) l ->
  totalled (PoolStats.dexs (Store.addToStats dexName (Store.regAmountOf pos) s))
    (l ++ [(dexName, pos)]).
Proof.
  intros Pp F T dex. unfold Store.addToStats. simpl PoolStats.dexs.
  rewrite filter_app. simpl filter.
  destruct (String.eqb dexName "__proto__") eqn:E.
  - apply String.eqb_eq in E. subst dexName.
    rewrite Object_set_proto by (rewrite T; apply dexEntry_proto).
    destruct (String.eqb dex "__proto__") eqn:E'.
    + apply String.eqb_eq in E'. subst dex. rewrite T, !dexEntry_proto. reflexivity.
    + rewrite app_nil_r. apply T.
  - apply String.eqb_neq in E. rewrite Object_set_get by exact E.
    destruct (String.eqb dex dexName) eqn:E'.
    + apply String.eqb_eq in E'. subst dex.
      apply dexEntry_snoc; [exact E|exact Pp| |apply T].
      apply Forall_forall. intros x Hx. apply filter_In in Hx.
      rewrite Forall_forall in F. apply F. tauto.
    + rewrite app_nil_r. apply T.
Qed.

Lemma ofType_snoc v l p :
  ofType v (l ++ [p]) = ofType v l ++ (if Bool.eqb (Store.isV3 (snd p)) v then [p] else []).
Proof. unfold ofType. rewrite filter_app. reflexivity. Qed.

Lemma visit_totalled (l : list (string * PoolPosition.t)) :
  Forall (fun p => (0 <? Store.regAmountOf (snd p)) = true) l ->
  let r :=
    fold_left (fun st p => Store.analysePosition (fst p) st (snd p)) l
      {| PoolAnalysis.v2 := Store.emptyStats; PoolAnalysis.v3 := Store.emptyStats;
         PoolAnalysis.pools := [] |} in
  totalled (PoolStats.dexs (PoolAnalysis.v2 r)) (ofType false l)
  /\ totalled (PoolStats.dexs (PoolAnalysis.v3 r)) (ofType true l).
Proof.
  induction l as [|[dexName pos] l IH] using rev_ind; intros F.
  - split; intros dex; reflexivity.
  - apply Forall_app in F. destruct F as (F & Fp). inversion Fp as [|? ? Pp _]; subst.
    simpl in Pp. destruct (IH F) as (T2 & T3). cbv zeta in *.
    rewrite fold_left_app. simpl fold_left. rewrite !ofType_snoc. simpl snd. simpl fst.
    set (st := fold_left _ l _) in *.
    assert (L : (Store.regAmountOf pos <=? 0) = false).
    { destruct (Store.regAmountOf pos <=? 0) eqn:Q; [|reflexivity].
      apply ltb_of_leb in Q. congruence. }
    assert (F' : forall v, Forall (fun p => (0 <? Store.regAmountOf (snd p)) = true)
                             (ofType v l)).
    { intros v. apply Forall_forall. intros x Hx. apply filter_In in Hx.
      rewrite Forall_forall in F. apply F. tauto. }
    unfold Store.analysePosition. rewrite L.
    destruct (Store.isV3 pos); simpl Bool.eqb; cbv iota; simpl PoolAnalysis.v2;
      simpl PoolAnalysis.v3; rewrite ?app_nil_r; split; try assumption;
      apply addToStats_totalled; auto.
Qed.

(** X8. When no live position has an unreadable amount, the per-DEX
    objects of [poolAnalysis] hold, for each exchange with a V2 (or V3)
    position, the sum in order of the amounts of these positions, and no
    entry for an exchange without such a position.  The exchanges named
    like a property that every object inherits are the exception: the
    entry of [constructor], [toString] and the like is a text, that of
    the inherited property followed by the amounts, and [__proto__] has
    no entry. *)
Theorem dex_totals (balances : list BalanceData.t) :
  Forall (fun p => is_nan (Store.regAmountOf (snd p)) = false)
    (flat_map gnosisPositions balances) ->
  match Store.poolAnalysis balances with
  | None => balances = []
  | Some analysis =>
      forall dex,
        Dict_get dex (PoolStats.dexs (PoolAnalysis.v2 analysis))
        = dexEntry dex
            (filter (fun p => String.eqb dex (fst p))
               (ofType false (flat_map gnosisPositions balances)))
        /\ Dict_get dex (PoolStats.dexs (PoolAnalysis.v3 analysis))
           = dexEntry dex
               (filter (fun p => String.eqb dex (fst p))
                  (ofType true (flat_map gnosisPositions balances)))
  end.
Proof.
  intros N. unfold Store.poolAnalysis. destruct balances as [|w ws]; [reflexivity|].
  set (balances := w :: ws) in *. cbv iota. rewrite analyseWallets_flat.
  set (live := flat_map gnosisPositions balances) in *.
  destruct (visit_totalled live) as (T2 & T3).
  - apply Forall_forall. intros p Hp. rewrite Forall_forall in N. specialize (N p Hp).
    unfold live in Hp. apply in_flat_map in Hp. destruct Hp as (wallet & _ & Hp).
    apply gnosisPositions_live in Hp. unfold dead in Hp.
    apply leb_false in Hp; try assumption; try reflexivity.
    apply ltb_intro; try assumption; reflexivity.
  - intros dex. split; [apply T2|apply T3].
Qed.

(** The wallet of the store's test, and a wallet whose exchanges are
    named [constructor], [__proto__] and [honeyswap]. *)
Lemma dex_totals_witness :
  Forall (fun p => is_nan (Store.regAmountOf (snd p)) = false)
    (flat_map gnosisPositions [Sample.testWallet; Sample.namesakeWallet])
  /\ match Store.poolAnalysis [Sample.testWallet; Sample.namesakeWallet] with
     | None => False
     | Some analysis =>
         Dict_get "honeyswap" (PoolStats.dexs (PoolAnalysis.v2 analysis)) = Some (Number 52)
         /\ Dict_get "sushiswap" (PoolStats.dexs (PoolAnalysis.v3 analysis)) = Some (Number 100)
         /\ Dict_get "sushiswap" (PoolStats.dexs (PoolAnalysis.v2 analysis)) = None
         /\ Dict_get "constructor" (PoolStats.dexs (PoolAnalysis.v2 analysis))
            = Some (Text [Source "constructor"; Numeral 5; Numeral 7])
         /\ Dict_get "__proto__" (PoolStats.dexs (PoolAnalysis.v2 analysis)) = None
     end.
Proof.
  assert (N : Forall (fun p => is_nan (Store.regAmountOf (snd p)) = false)
                (flat_map gnosisPositions [Sample.testWallet; Sample.namesakeWallet]))
    by (repeat constructor).
  split; [exact N|].
  pose proof (dex_totals [Sample.testWallet; Sample.namesakeWallet] N) as T.
  destruct (Store.poolAnalysis [Sample.testWallet; Sample.namesakeWallet]) as [analysis|];
    [|discriminate T].
  split; [|split; [|split; [|split]]].
  - destruct (T "honeyswap") as (A & _). rewrite A. reflexivity.
  - destruct (T "sushiswap") as (_ & A). rewrite A. reflexivity.
  - destruct (T "sushiswap") as (A & _). rewrite A. reflexivity.
  - destruct (T "constructor") as (A & _). rewrite A. reflexivity.
  - destruct (T "__proto__") as (A & _). rewrite A. reflexivity.
Defined.

End DexTotals.

Section Spread.

Local Open Scope Z_scope.

Local Abbreviation carries :=
  (fun (s : bool) (x : spec_float) =>
     match x with
     | S754_zero s' | S754_infinity s' | S754_finite s' _ _ => s' = s
     | S754_nan => False
     end).

(** The data that are not below zero: NaN, the zeros and what is above. *)
Local Abbreviation unsigned :=
  (fun x : spec_float => x = S754_nan \/ carries false x \/ exists s, x = S754_zero s).

Lemma SFadd_unsigned x y :
  valid_binary x = true -> valid_binary y = true ->
  unsigned x -> unsigned y -> unsigned (SFadd prec emax x y).
Proof.
  intros Vx Vy Hx Hy.
  destruct x as [sx|sx| |sx mx ex], y as [sy|sy| |sy my ey];
    try (destruct Hx as [Hx|[Hx|(s & Hx)]]; try discriminate; simpl in Hx; subst);
    try (destruct Hy as [Hy|[Hy|(s' & Hy)]]; try discriminate; simpl in Hy; subst);
    try solve [simpl; eauto | simpl; destruct sx; eauto | simpl; destruct sy; eauto
              | simpl; destruct sx, sy; eauto].
  simpl in Vx, Vy. unfold SFadd.
  pose proof (bounded_inv _ _ Vx) as (Ex & _). pose proof (bounded_inv _ _ Vy) as (Ey & _).
  set (ez := Z.min ex ey).
  pose proof (binary_normalize_sign
                (cond_Zopp false (Zpos (fst (shl_align mx ex ez)))
                 + cond_Zopp false (Zpos (fst (shl_align my ey ez))))
                ez ltac:(unfold ez; lia)) as N.
  simpl cond_Zopp in *.
  destruct (Zpos (fst (shl_align mx ex ez)) + Zpos (fst (shl_align my ey ez))) eqn:E;
    try lia.
  right. left. destruct (binary_normalize prec emax _ ez false); simpl in N; try contradiction;
    exact N.
Qed.

Lemma SFmul_square x : unsigned (SFmul prec emax x x).
Proof.
  destruct x as [s|s| |s m e]; simpl; auto.
  - right. right. eauto.
  - right. left. destruct s; reflexivity.
  - right. left. replace (xorb s s) with false by (destruct s; reflexivity).
    apply binary_round_aux_carries. lia.
Qed.

Lemma SFdiv_unsigned x y :
  unsigned x -> y = S754_zero false \/ signed false y -> unsigned (SFdiv prec emax x y).
Proof.
  intros Hx [->|Hy].
  - destruct x as [sx|sx| |sx mx ex]; simpl; auto;
      destruct Hx as [Hx|[Hx|(s & Hx)]]; try discriminate; simpl in Hx; subst; simpl;
      right; left; reflexivity.
  - destruct Hx as [->|Hx]; [left; reflexivity|]. apply SFdiv_carries; assumption.
Qed.

Lemma SFsqrt_unsigned x : unsigned x -> unsigned (SFsqrt prec emax x).
Proof.
  intros Hx. destruct x as [s|s| |s m e]; simpl.
  - right. right. eauto.
  - destruct s; auto.
  - auto.
  - destruct s; auto. right. left. unfold SFsqrt_core_binary.
    set (m' := match _ with 0 => Zpos m | Zpos _ => Z.shiftl (Zpos m) _ | Zneg _ => 0 end).
    pose proof (Z.sqrtrem_sqrt m') as Q. pose proof (Z.sqrt_nonneg m') as P.
    destruct (Z.sqrtrem m') as [q r]. simpl in Q. subst q.
    apply binary_round_aux_carries. exact P.
Qed.

Local Open Scope float_scope.

Lemma of_length_sign n :
  Prim2SF (Js.of_length n) = S754_zero false \/ signed false (Prim2SF (Js.of_length n)).
Proof.
  unfold Js.of_length. rewrite of_uint63_spec.
  pose proof (Uint63.to_Z_bounded (Uint63.of_Z (Z.of_nat n))) as B.
  pose proof (binary_normalize_sign (Uint63.to_Z (Uint63.of_Z (Z.of_nat n))) 0
                ltac:(unfold SpecFloat.emin, emax, prec; lia)) as N.
  destruct (Uint63.to_Z (Uint63.of_Z (Z.of_nat n))); [left; exact N|right; exact N|lia].
Qed.

Lemma unsigned_SF x : (x <? 0) = false <-> unsigned (Prim2SF x).
Proof. split; [apply not_negative_SF|apply SF_not_negative]. Qed.

Lemma squares_sum_unsigned (values : list float) (mean : float) : forall acc,
  (acc <? 0) = false ->
  (fold_left (fun sum val => sum + Js.Math_pow2 (val - mean)) values acc <? 0) = false.
Proof.
  induction values as [|v values IH]; intros acc H; simpl; [exact H|].
  apply IH. apply unsigned_SF. rewrite add_spec.
  apply SFadd_unsigned; try apply Prim2SF_valid.
  - apply unsigned_SF. exact H.
  - unfold Js.Math_pow2. rewrite mul_spec. apply SFmul_square.
Qed.

(** X4. [variance] and [stdDev] are never below zero, whatever the
    values are (they can be NaN or [Infinity]); so the [stdDev] of the
    statistics never is. *)
Theorem deviation_is_never_negative
  (balances : list BalanceData.t) (powerVoting : list PowerVotingData.t) :
  (forall values,
     (Store.variance values <? 0) = false /\ (Store.stdDev values <? 0) = false)
  /\ match Store.balanceStats balances with
     | Some s => (Stats.stdDev s <? 0) = false
     | None => Store.balanceValues balances = []
     end
  /\ match Store.powerVotingStats powerVoting with
     | Some s => (Stats.stdDev s <? 0) = false
     | None => Store.powerVotingValues powerVoting = []
     end.
Proof.
  assert (V : forall values, unsigned (Prim2SF (Store.variance values))).
  { intros values. unfold Store.variance. rewrite div_spec.
    apply SFdiv_unsigned; [|apply of_length_sign].
    apply unsigned_SF. apply squares_sum_unsigned. reflexivity. }
  assert (D : forall values, (Store.stdDev values <? 0) = false).
  { intros values. apply unsigned_SF. unfold Store.stdDev, Js.Math_sqrt.
    rewrite sqrt_spec. apply SFsqrt_unsigned, V. }
  split; [|split].
  - intros values. split; [apply unsigned_SF, V|apply D].
  - rewrite balanceStats_eq. unfold Store.statsOf.
    destruct (Store.balanceValues balances); [reflexivity|apply D].
  - rewrite powerVotingStats_eq. unfold Store.statsOf.
    destruct (Store.powerVotingValues powerVoting); [reflexivity|apply D].
Qed.

End Spread.


(* ================================================================== *)
(** * Part XVIII: the charts of distributions, and scenarios *)
(* ================================================================== *)

Section DistributionCharts.

Local Open Scope float_scope.

Lemma layout_labels bs bs' : layout bs = layout bs' -> map Bin.label bs = map Bin.label bs'.
Proof.
  revert bs'. induction bs as [|b bs IH]; intros [|b' bs'] H; try discriminate; [reflexivity|].
  simpl in H. injection H as Hl _ _ Hrest. simpl. rewrite Hl, (IH _ Hrest). reflexivity.
Qed.

Lemma distributionChartData_counts amounts :
  match View.distributionChartData (Store.distributionOf (Store.binnedValues amounts)) with
  | Some (labels, data) =>
      Store.binnedValues amounts <> []
      /\ labels = ["0-100"; "100-500"; "500-1000"; "1000-5000"; "5000-10000"; "10000+"]
      /\ data = map (held (Store.binnedValues amounts)) Store.bins
  | None => Store.binnedValues amounts = []
  end.
Proof.
  pose proof (distributionOf_counts amounts) as H. unfold View.distributionChartData.
  destruct (Store.distributionOf (Store.binnedValues amounts)) as [bs|]; [|exact H].
  destruct H as (N & L & C). split; [exact N|]. split; [|exact C].
  rewrite (layout_labels _ _ L). reflexivity.
Qed.

(** X6. The two distribution charts always carry the six labels, in
    order, and their data are the numbers of retained values per
    interval; there is no chart exactly when no amount is retained. *)
Theorem distribution_charts
  (balances : list BalanceData.t) (powerVoting : list PowerVotingData.t) :
  match View.balanceDistributionChartData balances with
  | Some (labels, data) =>
      Store.binnedValues (map Store.balanceAmount balances) <> []
      /\ labels = ["0-100"; "100-500"; "500-1000"; "1000-5000"; "5000-10000"; "10000+"]
      /\ data = map (held (Store.binnedValues (map Store.balanceAmount balances))) Store.bins
  | None => Store.binnedValues (map Store.balanceAmount balances) = []
  end
  /\ match View.powerVotingDistributionChartData powerVoting with
     | Some (labels, data) =>
         Store.binnedValues (map Store.powerAmount powerVoting) <> []
         /\ labels = ["0-100"; "100-500"; "500-1000"; "1000-5000"; "5000-10000"; "10000+"]
         /\ data = map (held (Store.binnedValues (map Store.powerAmount powerVoting))) Store.bins
     | None => Store.binnedValues (map Store.powerAmount powerVoting) = []
     end.
Proof.
  split.
  - unfold View.balanceDistributionChartData. rewrite balanceDistribution_eq.
    apply distributionChartData_counts.
  - unfold View.powerVotingDistributionChartData. rewrite powerVotingDistribution_eq.
    apply distributionChartData_counts.
Qed.

End DistributionCharts.

Section AddedScenarios.

Local Open Scope float_scope.

Lemma search_lists_newest_first_witness :
  String.eqb (Js.trim " 0xABC ") "" = false
  /\ Forall (fun s => wellFormed (SnapshotInfo.date s) = true) Sample.scenarioSnapshots
  /\ exists current historical,
       Sample.scenarioSearch = current :: historical
       /\ SearchResult.isCurrent current = true
       /\ Permutation (map SearchResult.date historical)
            (map SnapshotInfo.date Sample.scenarioSnapshots)
       /\ StronglySorted
            (fun a b => (dayNumber (SearchResult.date b) <= dayNumber (SearchResult.date a))%Z)
            historical.
Proof.
  split; [reflexivity|]. split; [repeat constructor|].
  apply search_lists_newest_first; [reflexivity|repeat constructor].
Defined.

Lemma manifest_round_trip_witness :
  Generator.generateManifest Sample.dayStamp (Some Sample.snapshotDirectory)
  = Some Sample.generated
  /\ Forall (fun e => is_nan (Sample.dayStamp (ManifestEntry.dateFormatted e)) = false)
       Sample.generated
  /\ map ManifestEntry.date Sample.generated = ["01-03-2025"; "15-02-2025"]
  /\ SnapshotLoader.loadSnapshotManifest Sample.dayStamp
       (Reply true (Some (Some (map served Sample.generated))))
     = map (fun e => SnapshotInfo.make (ManifestEntry.date e) (ManifestEntry.dateFormatted e)
                       (ManifestEntry.balancesFile e) (ManifestEntry.powerVotingFile e))
         Sample.generated.
Proof.
  split; [vm_compute; reflexivity|]. split; [repeat constructor|]. split; [reflexivity|].
  apply (manifest_round_trip Sample.dayStamp (Some Sample.snapshotDirectory)).
  - vm_compute. reflexivity.
  - repeat constructor.
Defined.

(** Exchanges named [constructor] and [__proto__] beside an ordinary
    one: the counts and the total take every position in; the entry of
    [constructor] is a text and [__proto__] has none; in the chart the
    datum of [constructor] also carries the text of the property that the
    V3 object inherits. *)
Example namesake_exchanges :
  let analysis := Store.poolAnalysis [Sample.namesakeWallet] in
  option_map (fun a => PoolStats.count (PoolAnalysis.v2 a)) analysis = Some 4%nat
  /\ option_map (fun a => PoolStats.totalREG (PoolAnalysis.v2 a)) analysis = Some 17
  /\ option_map (fun a => PoolStats.dexs (PoolAnalysis.v2 a)) analysis
     = Some [("constructor", Text [Source "constructor"; Numeral 5; Numeral 7]);
             ("honeyswap", Number 2)]
  /\ View.dexsDistributionChartData [Sample.namesakeWallet]
     = Some (["constructor"; "honeyswap"],
             [Text [Source "constructor"; Numeral 5; Numeral 7; Source "constructor"];
              Number 2]).
Proof. repeat split; vm_compute; reflexivity. Qed.

(** Exchanges named by numbers: the keys that are array indices come
    first, in ascending order, whatever the order of the wallets; [07] is
    not an array index. *)
Example numbered_exchanges :
  option_map (fun a => Object_keys (PoolStats.dexs (PoolAnalysis.v2 a)))
    (Store.poolAnalysis Sample.numberedWallets)
  = Some ["9"; "10"; "zeta"; "07"].
Proof. vm_compute. reflexivity. Qed.

(** Positions without a pool address: a missing address and [null] are
    two elements of the set of pools. *)
Example pools_without_address :
  option_map PoolAnalysis.pools (Store.poolAnalysis [Sample.unaddressedWallet])
  = Some [VUndefined; VNull]
  /\ option_map PoolAnalysis.totalPools (Store.poolAnalysis [Sample.unaddressedWallet])
     = Some 2%nat.
Proof. split; vm_compute; reflexivity. Qed.

(** The rows named like inherited properties: [constructor] is unfolded
    before any toggle and folded by the first; a toggle of [__proto__]
    changes nothing. *)
Example inherited_rows :
  View.isWalletExpanded [] "0xabc" = false
  /\ View.isWalletExpanded (View.toggleWalletPositions [] "0xabc") "0xabc" = true
  /\ View.isWalletExpanded [] "constructor" = true
  /\ View.isWalletExpanded (View.toggleWalletPositions [] "constructor") "constructor" = false
  /\ View.toggleWalletPositions [] "__proto__" = []
  /\ View.isWalletExpanded (View.toggleWalletPositions [] "__proto__") "__proto__" = true.
Proof. repeat split; vm_compute; reflexivity. Qed.

End AddedScenarios.

